(** * ts-yasha: playback / packet-dispatch engine and connection sessions

A shallow embedding of the parts of [src/TrackPlayer.ts] and
[src/VoiceConnection.ts] that carry the binary protocol, the retry
policy, the keepalive timer and the readiness future, together with
the properties stated about them.

Conventions.
- JavaScript numbers that hold integers are [Z]; the wrap-around of
  the counters is written out exactly as the source writes it.
- [undefined]/[null] is [None].
- Byte buffers are [list Z] with every element in [0, 256).
- Objects shared between the player and its collaborators
  (connections, the decode engine) live in explicit stores. *)

From Stdlib Require Import ZArith Lia List String.
From stdpp Require Import base option list strings gmap.

Local Open Scope Z_scope.

(* ===================================================================== *)
(** * Stream selection ([get_best_stream_one], [get_best_stream])         *)
(* ===================================================================== *)

Module Streams.

(** The fields of [TrackStream] (and of [YoutubeStream]) that the
    selector reads or writes.  [url] only serves to tell entries
    apart. *)
Record TrackStream := mkStream {
  url : option string;
  video : bool;
  audio : bool;
  bitrate : option Z;
  codecs : option string;
  default_audio_track : bool;
  volume : option Z
}.

#[global] Instance TrackStream_eq_dec : EqDecision TrackStream.
Proof. solve_decision. Defined.

(** [s.bitrate ?? 0] *)
Definition bitrate0 (s : TrackStream) : Z := default 0 (bitrate s).

(** The comparator handed to [Array.prototype.sort]:
    [(a, b) => (b.bitrate ?? 0) - (a.bitrate ?? 0)]. *)
Definition cmp_bitrate (a b : TrackStream) : Z := bitrate0 b - bitrate0 a.

Section Sort.
  Context {A : Type} (cmp : A -> A -> Z).

(** [Array.prototype.sort] is a stable sort: an element only moves
    behind another one when the comparator says it is strictly
    greater.  Stable insertion computes that unique result. *)
Fixpoint insert_by (x : A) (l : list A) : list A :=
  match l with
  | [] => [x]
  | y :: l' => if 0 <? cmp x y then y :: insert_by x l' else x :: l
  end.

Definition sort_by (l : list A) : list A := foldr insert_by [] l.
End Sort.

(** One iteration of the [for (const stream of streams)] loop: the
    three arrays [opus], [audio] and [other] grow by [push]. *)
Definition classify_step (acc : list TrackStream * list TrackStream * list TrackStream)
           (stream : TrackStream) :=
  let '(opus, audio_, other) := acc in
  if video stream then (opus, audio_, other ++ [stream])
  else if bool_decide (codecs stream = Some "opus"%string)
       then (opus ++ [stream], audio_, other)
       else (opus, audio_ ++ [stream], other).

Definition classify (streams : list TrackStream) :=
  fold_left classify_step streams ([], [], []).

(** [opus.length ? opus : (audio.length ? audio : other)] *)
Definition candidates_of (streams : list TrackStream) : list TrackStream :=
  let '(opus, audio_, other) := classify streams in
  match opus with
  | _ :: _ => opus
  | [] => match audio_ with
          | _ :: _ => audio_
          | [] => other
          end
  end.

Definition get_best_stream_one (streams : list TrackStream) : option TrackStream :=
  match streams with
  | [] => None
  | _ =>
      let candidates := candidates_of streams in
      match candidates with
      | [] => None
      | _ => head (sort_by cmp_bitrate candidates)
      end
  end.

(** [result.volume = volume] *)
Definition set_volume (v : Z) (s : TrackStream) : TrackStream :=
  mkStream (url s) (video s) (audio s) (bitrate s) (codecs s)
           (default_audio_track s) (Some v).

(** [streams] is the array, [vol] its own [volume] property. *)
Definition get_best_stream (streams : list TrackStream) (vol : option Z)
  : option TrackStream :=
  let audioStreams := List.filter audio streams in
  let result :=
    get_best_stream_one (List.filter default_audio_track audioStreams) in
  let result :=
    match result with
    | Some r => Some r
    | None => get_best_stream_one audioStreams
    end in
  match result, vol with
  | Some r, Some v => Some (set_volume v r)
  | _, _ => result
  end.

(** The set in which the selection takes place: the audio-capable
    streams flagged as default audio track or, when there is none, all
    audio-capable streams. *)
Definition chosen_set (streams : list TrackStream) : list TrackStream :=
  let audioStreams := List.filter audio streams in
  match List.filter default_audio_track audioStreams with
  | [] => audioStreams
  | defaults => defaults
  end.

(** The [volume] of the array, put on the result when it is defined. *)
Definition with_volume (vol : option Z) (s : TrackStream) : TrackStream :=
  match vol with
  | Some v => set_volume v s
  | None => s
  end.

(** The three partitions, written as filters of the input. *)
Definition is_opus (s : TrackStream) : bool :=
  negb (video s) && bool_decide (codecs s = Some "opus"%string).
Definition is_other_audio (s : TrackStream) : bool :=
  negb (video s) && negb (bool_decide (codecs s = Some "opus"%string)).

Definition opus_part (l : list TrackStream) := List.filter is_opus l.
Definition audio_part (l : list TrackStream) := List.filter is_other_audio l.
Definition video_part (l : list TrackStream) := List.filter video l.

(** The partition the specification calls the winning one: the first
    non-empty one of the opus-coded, the other audio-coded and the
    video-flagged entries, each in the order of the input. *)
Definition winning_partition (l : list TrackStream) : list TrackStream :=
  match opus_part l with
  | _ :: _ => opus_part l
  | [] => match audio_part l with
          | _ :: _ => audio_part l
          | [] => video_part l
          end
  end.

(** [r] is the first entry of [l] with the largest bitrate. *)
Definition first_max (l : list TrackStream) (r : TrackStream) : Prop :=
  exists l1 l2, l = l1 ++ r :: l2
    /\ Forall (fun x => bitrate0 x < bitrate0 r) l1
    /\ Forall (fun x => bitrate0 x <= bitrate0 r) l2.

(** ** Example streams *)

Definition opus_96 : TrackStream :=
  mkStream (Some "a"%string) false true (Some 96) (Some "opus"%string) false None.
Definition aac_128 : TrackStream :=
  mkStream (Some "b"%string) false true (Some 128) (Some "aac"%string) false None.
(** A video-only stream, as [setTracks(true, false)] marks it. *)
Definition video_only_720 : TrackStream :=
  mkStream (Some "v"%string) true false (Some 720) None false None.
(** A stream with both tracks, as [setTracks(true, true)] marks it. *)
Definition muxed_720 : TrackStream :=
  mkStream (Some "m"%string) true true (Some 720) None false None.

End Streams.

(* ===================================================================== *)
(** * A state monad with exceptions                                       *)
(* ===================================================================== *)

(** The source mutates objects and throws.  A computation takes the
    state and returns either a thrown error or a value, together with
    the state reached: mutations made before a [throw] stay. *)

Module StateExn.
  Section Defs.
    Context {S E : Type}.

Inductive outcome (A : Type) : Type :=
| Returned (a : A)
| Thrown (e : E).
#[global] Arguments Returned {A} a.
#[global] Arguments Thrown {A} e.

Definition M (A : Type) : Type := S -> outcome A * S.

Definition ret {A} (a : A) : M A := fun s => (Returned a, s).
Definition throw {A} (e : E) : M A := fun s => (Thrown e, s).
Definition bind {A B} (m : M A) (k : A -> M B) : M B :=
  fun s => match m s with
           | (Returned a, s') => k a s'
           | (Thrown e, s') => (Thrown e, s')
           end.
Definition get : M S := fun s => (Returned s, s).
Definition gets {A} (f : S -> A) : M A := fun s => (Returned (f s), s).
Definition modify (f : S -> S) : M unit := fun s => (Returned tt, f s).

(** [try { m } catch (e) { h e }] *)
Definition try_catch {A} (m : M A) (h : E -> M A) : M A :=
  fun s => match m s with
           | (Returned a, s') => (Returned a, s')
           | (Thrown e, s') => h e s'
           end.

(** [for (const x of xs) body(x)]: an exception leaves the loop. *)
Fixpoint for_each {A} (xs : list A) (body : A -> M unit) : M unit :=
  match xs with
  | [] => ret tt
  | x :: xs' => bind (body x) (fun _ => for_each xs' body)
  end.

(** [post m Q R s]: run from [s], [m] returns a value and a state that
    satisfy [Q] or throws an error and leaves a state that satisfy [R]. *)
Definition post {A} (m : M A) (Q : A -> S -> Prop) (R : E -> S -> Prop) (s : S) : Prop :=
  match m s with
  | (Returned a, s') => Q a s'
  | (Thrown e, s') => R e s'
  end.

(** [returns m Q s]: run from [s], [m] does not throw and [Q] holds of
    its result. *)
Definition returns {A} (m : M A) (Q : A -> S -> Prop) (s : S) : Prop :=
  post m Q (fun _ _ => False) s.
End Defs.

#[global] Arguments M : clear implicits.
#[global] Arguments outcome : clear implicits.

  Module Notations.
    Notation "x <- m ;; k" := (bind m (fun x => k))
      (at level 100, m at next level, right associativity).
    Notation "m ;;; k" := (bind m (fun _ => k))
      (at level 100, right associativity).
  End Notations.
End StateExn.

(* ===================================================================== *)
(** * Connection status                                                   *)
(* ===================================================================== *)

(** [VoiceConnectionStatus] and [VoiceConnectionDisconnectReason] of the
    voice library, as [VoiceConnection.ts] and [TrackPlayer.ts] use
    them. *)
Inductive Status := Signalling | Connecting | Ready | Disconnected | Destroyed.

#[global] Instance Status_eq_dec : EqDecision Status.
Proof. solve_decision. Defined.

Inductive DisconnectReason := WebSocketClose | AdapterUnavailable | EndpointRemoved | Manual.

#[global] Instance DisconnectReason_eq_dec : EqDecision DisconnectReason.
Proof. solve_decision. Defined.

(* ===================================================================== *)
(** * The player: data model                                              *)
(* ===================================================================== *)

Module Player.
  Import StateExn StateExn.Notations.

(** [EncryptionMode] *)
Definition NONE : Z := 0.
Definition LITE : Z := 1.
Definition SUFFIX : Z := 2.
Definition DEFAULT : Z := 3.

Definition MAX_PLAY_ID : Z := 2 ^ 32 - 1.
Definition ERROR_INTERVAL : Z := 5 * 60 * 1000.
Definition SILENCE : list Z := [248; 255; 254].

(** [connection.state.networking.state.connectionData]: one mutable
    object per connection.  [encryptionMode] is the negotiated mode
    string, [encryption_mode] the number the player caches. *)
Record ConnectionData := mkCD {
  encryptionMode : option string;
  encryption_mode : option Z;
  secretKey : option (list Z);
  ssrc : option Z;
  sequence : option Z;
  timestamp : option Z;
  nonce : option Z
}.

Record Udp := mkUdp { remote_ip : option string; remote_port : option Z }.

(** [networking.state]; [None] for [networking] stands for a missing
    [networking] or a missing [networking.state]. *)
Record Networking := mkNet {
  connectionData : option ConnectionData;
  udp : option Udp
}.

(** A connection object.  [listeners] counts how often the player's
    [onstatechange] is registered for ['stateChange']. *)
Record VoiceConnection := mkConn {
  status : Status;
  networking : option Networking;
  listeners : nat
}.

Record Subscription := mkSub { connection : nat }.

(** The decode engine ([AudioPlayer] of sange and its [ffplayer]),
    reduced to the state the player reads back. *)
Record FFPlayer := mkFF {
  box : option (list Z * Z * Z);
  box_sequence : option Z;
  box_timestamp : option Z;
  box_nonce : option Z;
  pipe_target : option (option (string * Z))
}.

Record AudioPlayer := mkAP {
  ffplayer : option FFPlayer;
  paused : bool;
  time : Z
}.

Record TrackStreams := mkStreams {
  items : list Streams.TrackStream;
  streams_volume : option Z;
  expired : bool
}.

(** What a [catch] gets hold of: an [Error] object, of which the
    message is read, or any other value, of which [String(...)] is taken
    ([None] for [null] and [undefined], which give way to the fallback
    text). *)
Inductive Caught :=
| CaughtError (message : string)
| CaughtValue (text : option string).

(** [e instanceof Error ? e.message : String(e ?? fallback)] *)
Definition caught_message (fallback : string) (e : Caught) : string :=
  match e with
  | CaughtError message => message
  | CaughtValue text => default fallback text
  end.

(** What calling the constructor of an engine does. *)
Inductive Construction :=
| Constructed (a : AudioPlayer)
| ConstructorThrows (e : Caught).

(** What [setTrack] of a custom engine is: no function, a function
    that throws, or one that returns. *)
Inductive SetTrack :=
| SetTrackMissing
| SetTrackThrows (e : Caught)
| SetTrackReturns.

(** [track.player], when it is a function: the constructor of a custom
    engine, by what calling it does and by the [setTrack] of the
    instance. *)
Record CustomPlayer := mkCustom {
  construction : Construction;
  setTrack : SetTrack
}.

Record Track := mkTrack {
  track_id : string;
  streams : option TrackStreams;
  custom_player : option CustomPlayer
}.

(** [setInterval(cb, period)]: the next firing time on the logical
    clock.  The handle is only ever held in
    [silence_frames_interval], which is set when it is empty and
    emptied together with [clearInterval], so the field being set and
    the timer being live coincide. *)
Record Interval := mkInterval { period : Z; due : Z }.

Record TrackPlayer := mkTP {
  normalize_volume : bool;
  external_encrypt : bool;
  external_packet_send : bool;
  last_error : Z;
  track : option Track;
  stream : option Streams.TrackStream;
  subscriptions : list Subscription;
  play_id : Z;
  silence_frames_interval : option Interval;
  silence_frames_left : Z;
  silence_frames_needed : bool;
  player : option AudioPlayer
}.

(** The module-level scratch buffers. *)
Record Globals := mkGlobals {
  RANDOM_BYTES : list Z;
  CONNECTION_NONCE : list Z;
  AUDIO_NONCE : list Z;
  AUDIO_BUFFER : list Z
}.

Inductive Error :=
| UnsupportedError (msg : string)
| GenericError (msg : string)
| InternalError (msg : string)
| UnplayableError (msg : string)
| RangeError
| JsError (msg : string).

(** What the player does to the outside, in order. *)
Inductive Event :=
| SendCall (buffer : list Z) (frameSize : Z) (isSilence : bool)
| SetSpeaking (c : nat)
| Encrypt (msg nonce key : list Z)
| UdpSend (c : nat) (packet : list Z)
| ConsoleWarn (msg : string)
| ConsoleError (msg : string)
| Emit_error (e : Error)
| Emit_finish
| Emit_packet (packet : list Z) (frameSize : Z)
| NewAudioPlayer
| NewCustomPlayer
| EngineSetTrack
| EngineSetOutput (channels rate bitrate_ : Z)
| EngineSeek (t : Z)
| EngineStop
| EngineDestroy
| EngineSetPaused (p : bool)
| TrackGetStreams
| StreamGetUrl
| EngineSetVolume (v : Z)
| EngineSetURL (u : string)
| EngineStart.

Record World := mkWorld {
  tp : TrackPlayer;
  conns : gmap nat VoiceConnection;
  bufs : Globals;
  clock : Z;
  rng : nat;
  trace : list (Z * Event)
}.

(** ** Field updates *)

Definition with_tp (f : TrackPlayer -> TrackPlayer) (w : World) : World :=
  mkWorld (f (tp w)) (conns w) (bufs w) (clock w) (rng w) (trace w).
Definition with_conns (f : gmap nat VoiceConnection -> gmap nat VoiceConnection)
           (w : World) : World :=
  mkWorld (tp w) (f (conns w)) (bufs w) (clock w) (rng w) (trace w).
Definition with_bufs (f : Globals -> Globals) (w : World) : World :=
  mkWorld (tp w) (conns w) (f (bufs w)) (clock w) (rng w) (trace w).
Definition with_clock (t : Z) (w : World) : World :=
  mkWorld (tp w) (conns w) (bufs w) t (rng w) (trace w).
Definition with_rng (n : nat) (w : World) : World :=
  mkWorld (tp w) (conns w) (bufs w) (clock w) n (trace w).
Definition with_event (e : Event) (w : World) : World :=
  mkWorld (tp w) (conns w) (bufs w) (clock w) (rng w) (trace w ++ [(clock w, e)]).

Definition set_last_error (v : Z) (p : TrackPlayer) : TrackPlayer :=
  mkTP (normalize_volume p) (external_encrypt p) (external_packet_send p) v
       (track p) (stream p) (subscriptions p) (play_id p)
       (silence_frames_interval p) (silence_frames_left p)
       (silence_frames_needed p) (player p).
Definition set_track (v : option Track) (p : TrackPlayer) : TrackPlayer :=
  mkTP (normalize_volume p) (external_encrypt p) (external_packet_send p)
       (last_error p) v (stream p) (subscriptions p) (play_id p)
       (silence_frames_interval p) (silence_frames_left p)
       (silence_frames_needed p) (player p).
Definition set_stream (v : option Streams.TrackStream) (p : TrackPlayer) : TrackPlayer :=
  mkTP (normalize_volume p) (external_encrypt p) (external_packet_send p)
       (last_error p) (track p) v (subscriptions p) (play_id p)
       (silence_frames_interval p) (silence_frames_left p)
       (silence_frames_needed p) (player p).
Definition set_subscriptions (v : list Subscription) (p : TrackPlayer) : TrackPlayer :=
  mkTP (normalize_volume p) (external_encrypt p) (external_packet_send p)
       (last_error p) (track p) (stream p) v (play_id p)
       (silence_frames_interval p) (silence_frames_left p)
       (silence_frames_needed p) (player p).
Definition set_play_id (v : Z) (p : TrackPlayer) : TrackPlayer :=
  mkTP (normalize_volume p) (external_encrypt p) (external_packet_send p)
       (last_error p) (track p) (stream p) (subscriptions p) v
       (silence_frames_interval p) (silence_frames_left p)
       (silence_frames_needed p) (player p).
Definition set_silence_frames_interval (v : option Interval) (p : TrackPlayer) : TrackPlayer :=
  mkTP (normalize_volume p) (external_encrypt p) (external_packet_send p)
       (last_error p) (track p) (stream p) (subscriptions p) (play_id p)
       v (silence_frames_left p) (silence_frames_needed p) (player p).
Definition set_silence_frames_left (v : Z) (p : TrackPlayer) : TrackPlayer :=
  mkTP (normalize_volume p) (external_encrypt p) (external_packet_send p)
       (last_error p) (track p) (stream p) (subscriptions p) (play_id p)
       (silence_frames_interval p) v (silence_frames_needed p) (player p).
Definition set_silence_frames_needed (v : bool) (p : TrackPlayer) : TrackPlayer :=
  mkTP (normalize_volume p) (external_encrypt p) (external_packet_send p)
       (last_error p) (track p) (stream p) (subscriptions p) (play_id p)
       (silence_frames_interval p) (silence_frames_left p) v (player p).
Definition set_player (v : option AudioPlayer) (p : TrackPlayer) : TrackPlayer :=
  mkTP (normalize_volume p) (external_encrypt p) (external_packet_send p)
       (last_error p) (track p) (stream p) (subscriptions p) (play_id p)
       (silence_frames_interval p) (silence_frames_left p)
       (silence_frames_needed p) v.

Definition set_encryption_mode (v : option Z) (d : ConnectionData) : ConnectionData :=
  mkCD (encryptionMode d) v (secretKey d) (ssrc d) (sequence d) (timestamp d) (nonce d).
Definition set_sequence (v : option Z) (d : ConnectionData) : ConnectionData :=
  mkCD (encryptionMode d) (encryption_mode d) (secretKey d) (ssrc d) v (timestamp d) (nonce d).
Definition set_timestamp (v : option Z) (d : ConnectionData) : ConnectionData :=
  mkCD (encryptionMode d) (encryption_mode d) (secretKey d) (ssrc d) (sequence d) v (nonce d).
Definition set_nonce (v : option Z) (d : ConnectionData) : ConnectionData :=
  mkCD (encryptionMode d) (encryption_mode d) (secretKey d) (ssrc d) (sequence d) (timestamp d) v.

Definition set_connectionData (d : ConnectionData) (c : VoiceConnection) : VoiceConnection :=
  mkConn (status c)
         (match networking c with
          | Some n => Some (mkNet (Some d) (udp n))
          | None => None
          end)
         (listeners c).
Definition set_listeners (n : nat) (c : VoiceConnection) : VoiceConnection :=
  mkConn (status c) (networking c) n.

Definition set_AUDIO_BUFFER (b : list Z) (g : Globals) : Globals :=
  mkGlobals (RANDOM_BYTES g) (CONNECTION_NONCE g) (AUDIO_NONCE g) b.
Definition set_CONNECTION_NONCE (b : list Z) (g : Globals) : Globals :=
  mkGlobals (RANDOM_BYTES g) b (AUDIO_NONCE g) (AUDIO_BUFFER g).
Definition set_AUDIO_NONCE (b : list Z) (g : Globals) : Globals :=
  mkGlobals (RANDOM_BYTES g) (CONNECTION_NONCE g) b (AUDIO_BUFFER g).
Definition set_RANDOM_BYTES (b : list Z) (g : Globals) : Globals :=
  mkGlobals b (CONNECTION_NONCE g) (AUDIO_NONCE g) (AUDIO_BUFFER g).

Definition set_box_counters (s t n : option Z) (f : FFPlayer) : FFPlayer :=
  mkFF (box f) s t n (pipe_target f).
Definition set_box (b : option (list Z * Z * Z)) (f : FFPlayer) : FFPlayer :=
  mkFF b (box_sequence f) (box_timestamp f) (box_nonce f) (pipe_target f).
Definition set_pipe_target (t : option (option (string * Z))) (f : FFPlayer) : FFPlayer :=
  mkFF (box f) (box_sequence f) (box_timestamp f) (box_nonce f) t.
Definition set_ffplayer (f : option FFPlayer) (a : AudioPlayer) : AudioPlayer :=
  mkAP f (paused a) (time a).
Definition set_paused (b : bool) (a : AudioPlayer) : AudioPlayer :=
  mkAP (ffplayer a) b (time a).
Definition set_time (t : Z) (a : AudioPlayer) : AudioPlayer :=
  mkAP (ffplayer a) (paused a) t.

(** ** Buffers *)

Definition byte_of (v : Z) (k : Z) : Z := Z.land (Z.shiftr v (8 * k)) 255.
Definition be16 (v : Z) : list Z := [byte_of v 1; byte_of v 0].
Definition be32 (v : Z) : list Z := [byte_of v 3; byte_of v 2; byte_of v 1; byte_of v 0].

(** [buf.set(data, off)]; out of range raises [RangeError]. *)
Definition buf_set (buf : list Z) (data : list Z) (off : nat) : option (list Z) :=
  if (off + length data <=? length buf)%nat
  then Some (take off buf ++ data ++ drop (off + length data) buf)
  else None.

(** [buf.writeUInt16BE(v, off)] and [buf.writeUInt32BE(v, off)]: a
    value outside the unsigned range raises [RangeError]. *)
Definition writeUInt16BE (buf : list Z) (v : Z) (off : nat) : option (list Z) :=
  if (0 <=? v) && (v <=? 65535) then buf_set buf (be16 v) off else None.
Definition writeUInt32BE (buf : list Z) (v : Z) (off : nat) : option (list Z) :=
  if (0 <=? v) && (v <=? 4294967295) then buf_set buf (be32 v) off else None.

(** The buffers as the module creates them: zero-filled, with the two
    constant header bytes set. *)
Definition initial_globals : Globals :=
  mkGlobals (replicate 24 0) (replicate 24 0) (replicate 24 0)
            (128 :: 120 :: replicate (Z.to_nat 8190) 0).

(* =================================================================== *)
(** * The player: operations                                            *)
(* =================================================================== *)

Section Operations.
  (** The two primitives of the sodium binding.
      [crypto_secretbox_easy msg nonce key] is the ciphertext the
      binding writes to its output buffer ([None]: it throws); the
      number it returns is the length of that ciphertext.
      [randombytes_buf n] is the content of the [n]-th random fill. *)
  Context (crypto_secretbox_easy : list Z -> list Z -> list Z -> option (list Z)).
  Context (randombytes_buf : nat -> list Z).

Abbreviation Op := (M World Error).

Definition emit (e : Event) : Op unit := modify (with_event e).

Definition of_option {A} (o : option A) (e : Error) : Op A :=
  match o with
  | Some a => ret a
  | None => throw e
  end.

(** Writes to the shared buffers; each one is a mutation of its own. *)
Definition audio_writeUInt16BE (v : Z) (off : nat) : Op unit :=
  g <- gets bufs ;;
  b <- of_option (writeUInt16BE (AUDIO_BUFFER g) v off) RangeError ;;
  modify (with_bufs (set_AUDIO_BUFFER b)).
Definition audio_writeUInt32BE (v : Z) (off : nat) : Op unit :=
  g <- gets bufs ;;
  b <- of_option (writeUInt32BE (AUDIO_BUFFER g) v off) RangeError ;;
  modify (with_bufs (set_AUDIO_BUFFER b)).
Definition audio_set (data : list Z) (off : nat) : Op unit :=
  g <- gets bufs ;;
  b <- of_option (buf_set (AUDIO_BUFFER g) data off) RangeError ;;
  modify (with_bufs (set_AUDIO_BUFFER b)).
Definition nonce_writeUInt32BE (v : Z) (off : nat) : Op unit :=
  g <- gets bufs ;;
  b <- of_option (writeUInt32BE (CONNECTION_NONCE g) v off) RangeError ;;
  modify (with_bufs (set_CONNECTION_NONCE b)).

(** [sodium.crypto_secretbox_easy(AUDIO_BUFFER.subarray(12), msg,
    nonce_buf, key)]: the call is recorded with the nonce buffer it
    is handed, the ciphertext lands at offset 12, the result is its
    length. *)
Definition secretbox_into_audio (msg nonce_buf key : list Z) : Op nat :=
  emit (Encrypt msg nonce_buf key) ;;;
  ct <- of_option (crypto_secretbox_easy msg nonce_buf key) (JsError "crypto_secretbox_easy") ;;
  audio_set ct 12 ;;;
  ret (length ct).

Definition put_connectionData (c : nat) (d : ConnectionData) : Op unit :=
  modify (with_conns (alter (set_connectionData d) c)).

(** The mode cached in [encryption_mode] or, when that is falsy, the
    one derived from the negotiated string (and then cached).
    [None]: the string is missing, the connection is skipped. *)
Definition mode_of_string (s : string) : Z :=
  if bool_decide (s = "xsalsa20_poly1305_lite"%string) then LITE
  else if bool_decide (s = "xsalsa20_poly1305_suffix"%string) then SUFFIX
  else DEFAULT.

Definition resolve_mode (d : ConnectionData) : option (Z * ConnectionData) :=
  let derive :=
    match encryptionMode d with
    | None => None
    | Some s => Some (mode_of_string s, set_encryption_mode (Some (mode_of_string s)) d)
    end in
  match encryption_mode d with
  | Some m => if m =? 0 then derive else Some (m, d)
  | None => derive
  end.

(** The two counters of the header, as lines 477-482 advance them. *)
Definition next_sequence (s : Z) : Z :=
  let s := s + 1 in
  if s >? 65535 then 0 else s.
Definition next_timestamp (t frameSize : Z) : Z :=
  let t := t + frameSize in
  if t >? 4294967295 then 0 else t.
(** [nonce = (nonce ?? 0) + 1; if (nonce > 4294967295) nonce = 0] *)
Definition next_nonce (n : option Z) : Z :=
  let n := default 0 n + 1 in
  if n >? 4294967295 then 0 else n.

(** The [switch (mode)] inside the [try]: returns the packet length. *)
Definition encrypt_packet (c : nat) (mode : Z) (d : ConnectionData)
           (audioPayload key : list Z) : Op nat :=
  if mode =? LITE then
    let n := next_nonce (nonce d) in
    put_connectionData c (set_nonce (Some n) d) ;;;
    nonce_writeUInt32BE n 0 ;;;
    g <- gets bufs ;;
    len <- secretbox_into_audio audioPayload (CONNECTION_NONCE g) key ;;
    g <- gets bufs ;;
    audio_set (take 4 (CONNECTION_NONCE g)) (12 + len) ;;;
    ret (12 + len + 4)%nat
  else if mode =? SUFFIX then
    k <- gets rng ;;
    modify (with_rng (S k)) ;;;
    modify (with_bufs (set_RANDOM_BYTES (randombytes_buf k))) ;;;
    g <- gets bufs ;;
    len <- secretbox_into_audio audioPayload (RANDOM_BYTES g) key ;;
    g <- gets bufs ;;
    audio_set (RANDOM_BYTES g) (12 + len) ;;;
    ret (12 + len + 24)%nat
  else if mode =? DEFAULT then
    g <- gets bufs ;;
    modify (with_bufs (set_AUDIO_NONCE
              (take 12 (AUDIO_BUFFER g) ++ drop 12 (AUDIO_NONCE g)))) ;;;
    g <- gets bufs ;;
    len <- secretbox_into_audio audioPayload (AUDIO_NONCE g) key ;;
    ret (12 + len)%nat
  else ret 12%nat.

(** The body of the loop of [send] for one subscribed connection;
    [continue] is [ret tt]. *)
Definition send_connection (buffer : list Z) (frameSize : Z) (isSilence : bool)
           (c : nat) : Op unit :=
  w <- get ;;
  match conns w !! c with
  | None => ret tt
  | Some conn =>
    if negb (bool_decide (status conn = Ready)) then ret tt else
    emit (SetSpeaking c) ;;;
    match networking conn with
    | None => ret tt
    | Some net =>
      match connectionData net, udp net with
      | Some d, Some _ =>
        if external_encrypt (tp w) && negb isSilence then
          emit (UdpSend c buffer)
        else
          match resolve_mode d with
          | None => ret tt
          | Some (mode, d) =>
            put_connectionData c d ;;;
            match sequence d, timestamp d, ssrc d, secretKey d with
            | Some seq, Some ts, Some ssrc_, Some key =>
              let d := set_timestamp (Some (next_timestamp ts frameSize))
                         (set_sequence (Some (next_sequence seq)) d) in
              put_connectionData c d ;;;
              audio_writeUInt16BE (next_sequence seq) 2 ;;;
              audio_writeUInt32BE (next_timestamp ts frameSize) 4 ;;;
              audio_writeUInt32BE ssrc_ 8 ;;;
              try_catch
                (len <- encrypt_packet c mode d buffer key ;;
                 g <- gets bufs ;;
                 emit (UdpSend c (take len (AUDIO_BUFFER g))))
                (fun _ => emit (ConsoleError "Encryption/Send error:"))
            | _, _, _, _ =>
              emit (ConsoleWarn "Missing connection data for packet encryption")
            end
          end
      | _, _ => ret tt
      end
    end
  end.

Definition send (buffer : list Z) (frameSize : Z) (isSilence : bool) : Op unit :=
  emit (SendCall buffer frameSize isSilence) ;;;
  subs <- gets (fun w => subscriptions (tp w)) ;;
  for_each (map connection subs) (send_connection buffer frameSize isSilence).

(** What a [send] in LITE mode shows to the outside after the call of
    the encryption primitive with nonce buffer [N]: the report of a
    failure, or a packet made of a 12-byte header, the ciphertext and
    the first four bytes of [N]. *)
Definition lite_outcome (c : nat) (payload key N : list Z) (e : Event) : Prop :=
  e = ConsoleError "Encryption/Send error:"
  \/ exists header ct,
       crypto_secretbox_easy payload N key = Some ct
       /\ length header = 12%nat
       /\ e = UdpSend c (header ++ ct ++ take 4 N).

(** One [send] after the other. *)
Fixpoint send_times (n : nat) (buffer : list Z) (frameSize : Z) (isSilence : bool)
  : Op unit :=
  match n with
  | O => ret tt
  | S n' => send buffer frameSize isSilence ;;; send_times n' buffer frameSize isSilence
  end.


(** ** Reading the first subscription *)

Definition first_connection (w : World) : option VoiceConnection :=
  match subscriptions (tp w) with
  | [] => None
  | s :: _ => conns w !! connection s
  end.

Definition secretbox_ready (w : World) : bool :=
  match first_connection w with
  | Some conn => bool_decide (status conn = Ready)
  | None => false
  end.

Definition get_connection : Op (nat * VoiceConnection) :=
  w <- get ;;
  match subscriptions (tp w) with
  | [] => throw (GenericError "TrackPlayer has no subscriptions, cannot get VoiceConnection")
  | s :: _ =>
      conn <- of_option (conns w !! connection s)
                (GenericError "TrackPlayer has no subscriptions, cannot get VoiceConnection") ;;
      ret (connection s, conn)
  end.

Definition get_connection_data : Op (nat * ConnectionData) :=
  r <- get_connection ;; let '(c, conn) := r in
  match status conn, networking conn with
  | Ready, Some (mkNet (Some d) _) => ret (c, d)
  | _, _ => throw (GenericError "Connection not ready or missing connection data")
  end.

Definition get_connection_udp : Op Udp :=
  r <- get_connection ;; let '(c, conn) := r in
  match status conn, networking conn with
  | Ready, Some (mkNet _ (Some u)) => ret u
  | _, _ => throw (GenericError "Connection not ready or missing UDP information")
  end.

(** ** The decode engine *)

Definition current_ffplayer (w : World) : option FFPlayer :=
  match player (tp w) with
  | Some a => ffplayer a
  | None => None
  end.

Definition update_ffplayer (f : FFPlayer -> FFPlayer) : Op unit :=
  modify (with_tp (fun p =>
    match player p with
    | Some a => set_player (Some (set_ffplayer (f <$> ffplayer a) a)) p
    | None => p
    end)).

(** ** The keepalive timer *)

Definition clear_interval : Op unit :=
  w <- get ;;
  match silence_frames_interval (tp w) with
  | Some _ => modify (with_tp (set_silence_frames_interval None))
  | None => ret tt
  end.

Definition stop_silence_frames : Op unit :=
  w <- get ;;
  if silence_frames_needed (tp w) then ret tt else
  clear_interval ;;;
  modify (with_tp (set_silence_frames_needed true)) ;;;
  modify (with_tp (set_silence_frames_left 5)).

(** The guard [this.player && this.external_encrypt &&
    this.secretbox_ready()] of both counter synchronisations. *)
Definition engine_owns_counters (w : World) : bool :=
  match player (tp w) with
  | Some _ => external_encrypt (tp w) && secretbox_ready w
  | None => false
  end.

(** The body of the [try] in [start_silence_frames]: the counters of
    the decode engine are copied into the connection data. *)
Definition restore_secretbox : Op unit :=
  w <- get ;;
  f <- of_option (current_ffplayer w) (JsError "ffplayer not available") ;;
  r <- get_connection_data ;; let '(c, d) := r in
  match box_nonce f, box_timestamp f, box_sequence f with
  | Some n, Some t, Some s =>
      put_connectionData c
        (set_sequence (Some s) (set_timestamp (Some t) (set_nonce (Some n) d)))
  | _, _, _ => throw (JsError "Invalid secret box state from player")
  end.

(** The body of the [try] in the timer callback: the counters of the
    connection data are handed back to the decode engine. *)
Definition update_secretbox : Op unit :=
  w <- get ;;
  _ <- of_option (current_ffplayer w) (JsError "ffplayer not available") ;;
  r <- get_connection_data ;; let '(c, d) := r in
  match sequence d, timestamp d, nonce d with
  | Some s, Some t, Some n =>
      update_ffplayer (set_box_counters (Some s) (Some t) (Some n))
  | _, _, _ => throw (JsError "Missing connection data for secret box update")
  end.

(** The callback handed to [setInterval]. *)
Definition silence_tick : Op unit :=
  modify (with_tp (fun p => set_silence_frames_left (silence_frames_left p - 1) p)) ;;;
  send SILENCE 960 true ;;;
  w <- get ;;
  proceed <-
    (if engine_owns_counters w then
       try_catch (update_secretbox ;;; ret true)
         (fun _ => emit (ConsoleError "Error updating secret box state:") ;;;
                   clear_interval ;;;
                   ret false)
     else ret true) ;;
  if proceed : bool then
    w <- get ;;
    if silence_frames_left (tp w) =? 0 then clear_interval else ret tt
  else ret tt.

Definition start_silence_frames : Op unit :=
  w <- get ;;
  if negb (silence_frames_needed (tp w))
     || bool_decide (silence_frames_interval (tp w) <> None)
  then ret tt else
  modify (with_tp (set_silence_frames_needed false)) ;;;
  w <- get ;;
  proceed <-
    (if engine_owns_counters w then
       try_catch (restore_secretbox ;;; ret true)
         (fun _ => emit (ConsoleError "Error restoring secret box state:") ;;;
                   ret false)
     else ret true) ;;
  if proceed : bool then
    w <- get ;;
    modify (with_tp (set_silence_frames_interval
                       (Some (mkInterval 20 (clock w + 20)))))
  else ret tt.

(** One turn of the event loop at which the interval timer is due:
    the clock moves to the firing time, the timer is rescheduled one
    period later and the callback runs. *)
Definition fire_interval : Op unit :=
  w <- get ;;
  match silence_frames_interval (tp w) with
  | None => ret tt
  | Some iv =>
      modify (with_clock (due iv)) ;;;
      modify (with_tp (set_silence_frames_interval
                         (Some (mkInterval (period iv) (due iv + period iv))))) ;;;
      silence_tick
  end.

(** The event loop left alone for [n] turns: only the timer runs. *)
Fixpoint run_idle (n : nat) : Op unit :=
  match n with
  | O => ret tt
  | S n' => fire_interval ;;; run_idle n'
  end.

(** ** Tearing down and creating the decode engine *)

Definition destroy_player : Op unit :=
  w <- get ;;
  match player (tp w) with
  | None => ret tt
  | Some _ =>
      start_silence_frames ;;;
      emit EngineStop ;;;
      emit EngineDestroy ;;;
      modify (with_tp (set_player None))
  end.

Definition cleanup : Op unit := destroy_player.

Definition init_secretbox : Op unit :=
  w <- get ;;
  if negb (external_encrypt (tp w)) || negb (bool_decide (is_Some (current_ffplayer w)))
  then ret tt else
  if secretbox_ready w then
    try_catch
      (r <- get_connection_data ;; let '(_, d) := r in
       u <- get_connection_udp ;;
       s <- of_option (encryptionMode d)
              (JsError "Missing or invalid encryptionMode in connection data") ;;
       let mode := mode_of_string s in
       match secretKey d, ssrc d, sequence d, timestamp d, nonce d with
       | Some key, Some ssrc_, Some seq, Some ts, Some n =>
           update_ffplayer (set_box (Some (key, mode, ssrc_))) ;;;
           update_ffplayer (set_box_counters (Some seq) (Some ts) (Some n)) ;;;
           if external_packet_send (tp w) then
             match remote_ip u, remote_port u with
             | Some ip, Some port =>
                 if bool_decide (ip = ""%string)
                 then throw (JsError "Missing UDP remote address or port")
                 else update_ffplayer (set_pipe_target (Some (Some (ip, port))))
             | _, _ => throw (JsError "Missing UDP remote address or port")
             end
           else ret tt
       | _, _, _, _, _ =>
           throw (JsError "Missing required connection data properties for secret box")
       end)
      (fun e =>
         cleanup ;;;
         emit (Emit_error (GenericError
                 match e with
                 | JsError m | GenericError m | InternalError m
                 | UnsupportedError m | UnplayableError m => m
                 | RangeError => "RangeError"
                 end)))
  else
    update_ffplayer (set_box (Some (replicate 32 0, NONE, 0))) ;;;
    w <- get ;;
    if external_packet_send (tp w) && bool_decide (is_Some (current_ffplayer w))
    then update_ffplayer (set_pipe_target (Some None))
    else ret tt.

(** [create_player(startTime)].  [fresh] is what the constructor of
    sange's [AudioPlayer] does when it is called, which is when the
    track brings no constructor of its own.  The result of the first
    part is whether the function goes on to the check of [ffplayer]:
    each [catch] returns from [create_player], with [this.player] as
    the [try] left it. *)
Definition create_player (fresh : Construction) (startTime : option Z) : Op unit :=
  destroy_player ;;;
  w <- get ;;
  created <-
    (match match track (tp w) with Some t => custom_player t | None => None end with
     | Some custom =>
         match construction custom with
         | ConstructorThrows e =>
             emit (Emit_error (GenericError
                     (caught_message "Failed to instantiate custom player" e))) ;;;
             ret false
         | Constructed a =>
             emit NewCustomPlayer ;;;
             modify (with_tp (set_player (Some a))) ;;;
             match setTrack custom with
             | SetTrackMissing =>
                 emit (Emit_error (GenericError
                         "Custom player instance missing 'setTrack' method")) ;;;
                 ret false
             | SetTrackThrows e =>
                 emit EngineSetTrack ;;;
                 emit (Emit_error (GenericError
                         (caught_message "Failed to instantiate custom player" e))) ;;;
                 ret false
             | SetTrackReturns =>
                 emit EngineSetTrack ;;;
                 ret true
             end
         end
     | None =>
         match fresh with
         | ConstructorThrows e =>
             emit (Emit_error (GenericError
                     (caught_message "Failed to instantiate sange AudioPlayer" e))) ;;;
             ret false
         | Constructed a =>
             emit NewAudioPlayer ;;;
             modify (with_tp (set_player (Some a))) ;;;
             ret true
         end
     end) ;;
  if negb created then ret tt else
  w <- get ;;
  match player (tp w) with
  | Some (mkAP (Some _) _ _) =>
      emit (EngineSetOutput 2 48000 256000) ;;;
      (match startTime with
       | Some t => if 0 <? t then emit (EngineSeek t) else ret tt
       | None => ret tt
       end) ;;;
      init_secretbox
  | _ =>
      emit (Emit_error (GenericError "Failed to initialize ffplayer component")) ;;;
      modify (with_tp (set_player None))
  end.

Definition check_destroyed : Op AudioPlayer :=
  w <- get ;;
  of_option (player (tp w)) (GenericError "Player was destroyed or nothing was playing").

Definition isPaused : Op bool := a <- check_destroyed ;; ret (paused a).
Definition getTime : Op Z := a <- check_destroyed ;; ret (time a).


(** ** The retry policy *)

(** [error(error, retryable)].  [err] is the message of the error
    value ([None] for [null]/[undefined]); [now_check] and
    [now_record] are the two readings of [Date.now()], the first in
    the test, the second in the assignment.  The emitter is taken to
    have an ['error'] listener. *)
Definition error (err : option string) (retryable : option bool)
           (now_check now_record : Z) : Op bool :=
  w <- get ;;
  if bool_decide (retryable = Some false)
     || (now_check - last_error (tp w) <? ERROR_INTERVAL)
  then
    destroy_player ;;;
    emit (Emit_error (InternalError (default "Unknown playback error"%string err))) ;;;
    ret true
  else
    modify (with_tp (set_last_error now_record)) ;;;
    ret false.

(** ** Starting playback: the part that runs before the first [await] *)

(** Where the asynchronous [start()] stands when the synchronous
    caller gets control back. *)
Inductive Suspension :=
| NotStarted
| AwaitGetStreams (playId : Z)
| AwaitGetUrl (playId : Z)
| AwaitLoadStreams (loaded : bool).

Definition load_streams : Op Suspension :=
  w <- get ;;
  let playId := play_id (tp w) in
  match track (tp w) with
  | None =>
      emit (Emit_error (GenericError "Current track is missing getStreams method")) ;;;
      ret (AwaitLoadStreams false)
  | Some t =>
      match streams t with
      | Some ss =>
          if negb (expired ss) then
            modify (with_tp (set_stream
                      (Streams.get_best_stream (items ss) (streams_volume ss)))) ;;;
            w <- get ;;
            match stream (tp w) with
            | None =>
                emit (Emit_error (UnplayableError "No suitable stream found")) ;;;
                ret (AwaitLoadStreams false)
            | Some st =>
                match Streams.url st with
                | Some u =>
                    if bool_decide (u = ""%string)
                    then emit StreamGetUrl ;;; ret (AwaitGetUrl playId)
                    else ret (AwaitLoadStreams true)
                | None => emit StreamGetUrl ;;; ret (AwaitGetUrl playId)
                end
            end
          else emit TrackGetStreams ;;; ret (AwaitGetStreams playId)
      | None => emit TrackGetStreams ;;; ret (AwaitGetStreams playId)
      end
  end.

Definition start : Op Suspension :=
  w <- get ;;
  match player (tp w), track (tp w) with
  | Some _, Some _ => load_streams
  | _, _ => ret NotStarted
  end.

(** [track.streams = undefined] *)
Definition clear_streams (p : TrackPlayer) : TrackPlayer :=
  match track p with
  | Some t => set_track (Some (mkTrack (track_id t) None (custom_player t))) p
  | None => p
  end.

(** [onerror(error, code, retryable)], the engine's error hook. *)
Definition onerror (err : option string) (retryable : option bool)
           (now_check now_record : Z) (fresh : Construction) : Op Suspension :=
  fatal <- error err retryable now_check now_record ;;
  if fatal : bool then ret NotStarted else
  modify (with_tp clear_streams) ;;;
  w <- get ;;
  seekTime <- (match player (tp w) with
               | Some _ => getTime
               | None => ret 0
               end) ;;
  create_player fresh (Some seekTime) ;;;
  start.

Definition play (t : Track) (fresh : Construction) : Op Suspension :=
  modify (with_tp (fun p => set_play_id (play_id p + 1) p)) ;;;
  w <- get ;;
  (if play_id (tp w) >? MAX_PLAY_ID then modify (with_tp (set_play_id 0)) else ret tt) ;;;
  modify (with_tp (set_last_error 0)) ;;;
  modify (with_tp (set_stream None)) ;;;
  modify (with_tp (set_track (Some t))) ;;;
  create_player fresh None ;;;
  start.

(** ** Subscriptions *)

Definition add_listener (c : nat) : Op unit :=
  modify (with_conns (alter (fun conn => set_listeners (S (listeners conn)) conn) c)).

Definition subscribe (c : nat) : Op Subscription :=
  w <- get ;;
  (if external_encrypt (tp w) then
     (match subscriptions (tp w) with
      | _ :: _ =>
          throw (UnsupportedError
            "Cannot subscribe to multiple connections when external encryption is enabled")
      | [] => ret tt
      end) ;;;
     add_listener c
   else ret tt) ;;;
  let subscription := mkSub c in
  modify (with_tp (fun p => set_subscriptions (subscriptions p ++ [subscription]) p)) ;;;
  init_secretbox ;;;
  ret subscription.

(** ** The hooks of the decode engine *)

(** [onpacket(packet, length, frameSize)].  The packet is a view that
    reaches the end of its buffer, so that
    [new Uint8Array(packet.buffer, packet.byteOffset, length)] with a
    greater length is a [RangeError]. *)
Definition onpacket (packet : list Z) (len : nat) (frameSize : Z) : Op unit :=
  p <- isPaused ;;
  (if negb p then stop_silence_frames else ret tt) ;;;
  finalPacket <- (if (length packet =? len)%nat then ret packet
                  else if (len <=? length packet)%nat then ret (take len packet)
                  else throw RangeError) ;;
  w <- get ;;
  (if negb (external_packet_send (tp w)) then send finalPacket frameSize false else ret tt) ;;;
  emit (Emit_packet finalPacket frameSize).

Definition onfinish : Op unit :=
  emit Emit_finish ;;;
  start_silence_frames.

Definition setPaused (p : bool) : Op unit :=
  _ <- check_destroyed ;;
  (if p then start_silence_frames else ret tt) ;;;
  emit (EngineSetPaused p) ;;;
  modify (with_tp (fun t =>
    match player t with
    | Some a => set_player (Some (set_paused p a)) t
    | None => t
    end)).

  (** The two ways the stream goes idle. *)
Inductive IdleCause := Finish | Pause.

Definition go_idle (cause : IdleCause) : Op unit :=
  match cause with
  | Finish => onfinish
  | Pause => setPaused true
  end.

(** ** More of the public surface *)

(** [onstatechange(_old, cur)], the listener of ['stateChange']. *)
Definition onstatechange (cur : Status) : Op unit :=
  if bool_decide (cur = Ready) then init_secretbox
  else
    w <- get ;;
    if external_encrypt (tp w) && external_packet_send (tp w)
       && bool_decide (is_Some (current_ffplayer w))
    then update_ffplayer (set_pipe_target (Some None))
    else ret tt.

(** [stop()] *)
Definition stop : Op unit :=
  w <- get ;;
  match player (tp w) with
  | Some _ => start_silence_frames ;;; emit EngineStop
  | None => ret tt
  end.

(** [seek(time)] *)
Definition seek (t : Z) : Op unit :=
  _ <- check_destroyed ;;
  start_silence_frames ;;;
  emit (EngineSeek t).

(** ** [load_streams] after [getStreams] has settled *)

(** How the promise of [getStreams] settles: with a value - the
    streams of the track, an array, or a value that is not an object
    ([None]) -, or with what was thrown: an [Error] object, or any
    other value, of which only the text of [String(...)] matters
    ([None] for [null] and [undefined]). *)
Inductive Reason :=
| ErrorObject (e : Error)
| OtherReason (text : option string).

Inductive Settlement :=
| Fulfilled (value : option TrackStreams)
| Failed (reason : Reason).

(** [error instanceof Error ? error : new Error(String(error ?? fallback))] *)
Definition as_error (fallback : string) (reason : Reason) : Error :=
  match reason with
  | ErrorObject e => e
  | OtherReason text => JsError (default fallback text)
  end.

(** [load_streams] from the assignment of [this.stream] on. *)
Definition select_stream (playId : Z) (ss : TrackStreams) : Op Suspension :=
  modify (with_tp (set_stream
            (Streams.get_best_stream (items ss) (streams_volume ss)))) ;;;
  w <- get ;;
  match stream (tp w) with
  | None =>
      emit (Emit_error (UnplayableError "No suitable stream found")) ;;;
      ret (AwaitLoadStreams false)
  | Some st =>
      match Streams.url st with
      | Some u =>
          if bool_decide (u = ""%string)
          then emit StreamGetUrl ;;; ret (AwaitGetUrl playId)
          else ret (AwaitLoadStreams true)
      | None => emit StreamGetUrl ;;; ret (AwaitGetUrl playId)
      end
  end.

(** [load_streams] from [await this.track.getStreams()] on, for the
    call that read the token [playId] and was suspended there.  The
    promise resolves to the streams of the track, an array, or to a
    value that is not an object ([None]); what is thrown inside the
    [try] reaches the handler as the error it emits.  [inl b] is a
    [return b] inside the [try] or the handler. *)
Definition getStreams_settled (playId : Z) (result : Settlement)
  : Op Suspension :=
  r <- try_catch
         (fetched <- (match result with
                      | Fulfilled value => ret value
                      | Failed reason => throw (as_error "Failed to get streams" reason)
                      end) ;;
          w <- get ;;
          if negb (play_id (tp w) =? playId) then ret (inl false) else
          match fetched with
          | None => throw (JsError "getStreams returned invalid data")
          | Some ss =>
              match track (tp w) with
              | Some t =>
                  modify (with_tp (set_track (Some (mkTrack (track_id t) (Some ss) (custom_player t))))) ;;;
                  ret (inr ss)
              | None =>
                  throw (JsError "Cannot set properties of undefined (setting 'streams')")
              end
          end)
         (fun error =>
            w <- get ;;
            (if play_id (tp w) =? playId then emit (Emit_error error) else ret tt) ;;;
            ret (inl false)) ;;
  match r with
  | inl b => ret (AwaitLoadStreams b)
  | inr ss => select_stream playId ss
  end.

(** What can be done to a player: the calls of its users, the hooks
    the decode engine and the connection call, the settling of
    [getStreams], and the firing of the
    keepalive timer. *)
Inductive Action :=
| ASubscribe (c : nat)
| AOnstatechange (cur : Status)
| AOnpacket (packet : list Z) (len : nat) (frameSize : Z)
| AOnfinish
| AOnerror (err : option string) (retryable : option bool) (now_check now_record : Z)
           (fresh : Construction)
| APlay (t : Track) (fresh : Construction)
| AStart
| AStreamsSettled (playId : Z) (result : Settlement)
| ASetPaused (p : bool)
| AStop
| ASeek (t : Z)
| ACreatePlayer (fresh : Construction) (startTime : option Z)
| ADestroyPlayer
| AInitSecretbox
| ASend (buffer : list Z) (frameSize : Z) (isSilence : bool)
| AStartSilenceFrames
| AStopSilenceFrames
| AError (err : option string) (retryable : option bool) (now_check now_record : Z)
| ATimerFires.

Definition act (k : Action) : Op unit :=
  match k with
  | ASubscribe c => subscribe c ;;; ret tt
  | AOnstatechange cur => onstatechange cur
  | AOnpacket packet len frameSize => onpacket packet len frameSize
  | AOnfinish => onfinish
  | AOnerror err retryable now_check now_record fresh =>
      onerror err retryable now_check now_record fresh ;;; ret tt
  | APlay t fresh => play t fresh ;;; ret tt
  | AStart => start ;;; ret tt
  | AStreamsSettled playId result => getStreams_settled playId result ;;; ret tt
  | ASetPaused p => setPaused p
  | AStop => stop
  | ASeek t => seek t
  | ACreatePlayer fresh startTime => create_player fresh startTime
  | ADestroyPlayer => destroy_player
  | AInitSecretbox => init_secretbox
  | ASend buffer frameSize isSilence => send buffer frameSize isSilence
  | AStartSilenceFrames => start_silence_frames
  | AStopSilenceFrames => stop_silence_frames
  | AError err retryable now_check now_record =>
      error err retryable now_check now_record ;;; ret tt
  | ATimerFires => fire_interval
  end.
End Operations.

(** ** What a send does to one connection, as a function *)

(** The connection data after the loop body of [send] went through the
    codec with it. *)
Definition advance (frameSize : Z) (d : ConnectionData) : ConnectionData :=
  match resolve_mode d with
  | None => d
  | Some (mode, d) =>
      match sequence d, timestamp d, ssrc d, secretKey d with
      | Some seq, Some ts, Some _, Some _ =>
          let d := set_timestamp (Some (next_timestamp ts frameSize))
                     (set_sequence (Some (next_sequence seq)) d) in
          if mode =? LITE then set_nonce (Some (next_nonce (nonce d))) d else d
      | _, _, _, _ => d
      end
  end.

(** The connection after the loop body of [send]: nothing happens to a
    connection that is not ready, lacks its networking data, or is fed
    by the decode engine itself. *)
Definition codec_effect (external isSilence : bool) (frameSize : Z)
           (conn : VoiceConnection) : VoiceConnection :=
  if bool_decide (status conn = Ready) then
    match networking conn with
    | Some (mkNet (Some d) (Some _)) =>
        if external && negb isSilence then conn
        else set_connectionData (advance frameSize d) conn
    | _ => conn
    end
  else conn.

(** What [encrypt_packet] leaves behind, whether it returns or throws,
    and what the loop body of [send] leaves behind. *)
Definition encrypt_frame (c : nat) (mode : Z) (d : ConnectionData) (w w' : World) : Prop :=
  tp w' = tp w /\ clock w' = clock w
  /\ length (AUDIO_BUFFER (bufs w')) = length (AUDIO_BUFFER (bufs w))
  /\ conns w' = if mode =? LITE
                then alter (set_connectionData (set_nonce (Some (next_nonce (nonce d))) d)) c (conns w)
                else conns w.

Definition send_frame (isSilence : bool) (frameSize : Z) (c : nat) (w w' : World) : Prop :=
  tp w' = tp w /\ clock w' = clock w
  /\ length (AUDIO_BUFFER (bufs w')) = length (AUDIO_BUFFER (bufs w))
  /\ conns w' = alter (codec_effect (external_encrypt (tp w)) isSilence frameSize) c (conns w).

(** ** Well-formed worlds *)

Definition in_range (o : option Z) (max : Z) : bool :=
  match o with
  | Some v => (0 <=? v) && (v <=? max)
  | None => true
  end.

(** The counters are what the voice library makes them: a 16-bit
    sequence, a 32-bit timestamp, a 32-bit SSRC. *)
Definition counters_in_range (d : ConnectionData) : bool :=
  in_range (sequence d) 65535 && in_range (timestamp d) 4294967295
  && in_range (ssrc d) 4294967295.

Definition connection_in_range (conn : VoiceConnection) : bool :=
  match networking conn with
  | Some (mkNet (Some d) _) => counters_in_range d
  | _ => true
  end.

Definition well_formed (w : World) : Prop :=
  (12 <= length (AUDIO_BUFFER (bufs w)))%nat
  /\ map_Forall (fun _ conn => connection_in_range conn = true) (conns w).

(** The connection data of connection [c], if it has any. *)
Definition data_of (w : World) (c : nat) : option ConnectionData :=
  match conns w !! c with
  | Some conn =>
      match networking conn with
      | Some n => connectionData n
      | None => None
      end
  | None => None
  end.

(** Connection data with which the loop body gets as far as the header:
    a mode can be determined and the four required fields are there. *)
Definition data_ready (d : ConnectionData) : bool :=
  bool_decide (is_Some (resolve_mode d))
  && bool_decide (is_Some (sequence d)) && bool_decide (is_Some (timestamp d))
  && bool_decide (is_Some (ssrc d)) && bool_decide (is_Some (secretKey d)).

(** Connection [c] is one to which [send] frames and encrypts a packet
    itself: it is ready, has its networking data and a UDP socket, and
    is not fed by the decode engine. *)
Definition reaches_codec (w : World) (c : nat) (isSilence : bool) : Prop :=
  exists conn d u,
    conns w !! c = Some conn /\ status conn = Ready
    /\ networking conn = Some (mkNet (Some d) (Some u))
    /\ external_encrypt (tp w) && negb isSilence = false
    /\ data_ready d = true.

Definition sequence_of (w : World) (c : nat) : option Z :=
  match data_of w c with Some d => sequence d | None => None end.
Definition timestamp_of (w : World) (c : nat) : option Z :=
  match data_of w c with Some d => timestamp d | None => None end.
Definition nonce_of (w : World) (c : nat) : option Z :=
  match data_of w c with Some d => nonce d | None => None end.

(** How often connection [c] is subscribed. *)
Definition subscribed (w : World) (c : nat) : nat :=
  length (List.filter (Nat.eqb c) (map connection (subscriptions (tp w)))).

(** The errors the player has emitted, in order. *)
Definition emitted_error (e : Z * Event) : option Error :=
  match e.2 with
  | Emit_error x => Some x
  | _ => None
  end.
Definition errors_emitted (tr : list (Z * Event)) : list Error := omap emitted_error tr.

(** What the operations around the decode engine leave alone: the
    track with its cached streams, the token of the current [play] and
    the time of the last error, and the clock. *)
Definition keeps_track (w w' : World) : Prop :=
  track (tp w') = track (tp w)
  /\ play_id (tp w') = play_id (tp w)
  /\ last_error (tp w') = last_error (tp w)
  /\ clock w' = clock w.

(** What arming the keepalive leaves alone on top of that: the decode
    engine and the errors emitted so far. *)
Definition keeps_engine (w w' : World) : Prop :=
  keeps_track w w'
  /\ player (tp w') = player (tp w)
  /\ errors_emitted (trace w') = errors_emitted (trace w).

(** ** The keepalive *)

(** The calls of [send], with the time of the call. *)
Definition send_call (e : Z * Event) : option (Z * list Z * Z * bool) :=
  match e.2 with
  | SendCall b f s => Some (e.1, b, f, s)
  | _ => None
  end.
Definition send_calls (tr : list (Z * Event)) : list (Z * list Z * Z * bool) :=
  omap send_call tr.

(** The keepalive is armed: [stop_silence_frames] has run since the
    last countdown. *)
Definition armed (w : World) : Prop :=
  silence_frames_needed (tp w) = true
  /\ silence_frames_left (tp w) = 5
  /\ silence_frames_interval (tp w) = None.

(** The connection data of the first subscription. *)
Definition first_data (w : World) : option ConnectionData :=
  match first_connection w with
  | Some conn =>
      match networking conn with
      | Some n => connectionData n
      | None => None
      end
  | None => None
  end.

Definition counters_defined (d : ConnectionData) : bool :=
  bool_decide (is_Some (sequence d)) && bool_decide (is_Some (timestamp d))
  && bool_decide (is_Some (nonce d)).

Definition connection_counters_defined (conn : VoiceConnection) : bool :=
  match networking conn with
  | Some (mkNet (Some d) _) => counters_defined d
  | _ => false
  end.

(** Where the decode engine owns the counters, the synchronisation in
    the timer callback finds what it needs: the engine's [ffplayer] and
    connection data with the three counters. *)
Definition sync_possible (w : World) : Prop :=
  engine_owns_counters w = true ->
  is_Some (current_ffplayer w)
  /\ exists d, first_data w = Some d /\ counters_defined d = true.

(** Where the decode engine owns the counters, the synchronisation in
    [start_silence_frames] finds what it needs: the engine reports a
    16-bit sequence, a 32-bit timestamp and a nonce, and the first
    connection has connection data. *)
Definition engine_counters_ok (w : World) : Prop :=
  engine_owns_counters w = true ->
  exists ff d s t n,
    current_ffplayer w = Some ff /\ first_data w = Some d
    /\ box_sequence ff = Some s /\ box_timestamp ff = Some t /\ box_nonce ff = Some n
    /\ 0 <= s <= 65535 /\ 0 <= t <= 4294967295.

(** The countdown is running: [k] frames are left and the timer fires
    next at [t]. *)
Definition ticking (w : World) (k t : Z) : Prop :=
  well_formed w /\ sync_possible w
  /\ silence_frames_needed (tp w) = false
  /\ silence_frames_left (tp w) = k
  /\ silence_frames_interval (tp w) = Some (mkInterval 20 t).

(** The countdown is over: no timer, and nothing to restart it. *)
Definition idle_done (w : World) : Prop :=
  well_formed w
  /\ silence_frames_needed (tp w) = false
  /\ silence_frames_left (tp w) = 0
  /\ silence_frames_interval (tp w) = None.

(** The calls of [send] of a countdown of [k] frames whose timer fires
    next at [t]. *)
Fixpoint frame_times (k : nat) (t : Z) : list (Z * list Z * Z * bool) :=
  match k with
  | O => []
  | S k' => (t, SILENCE, 960, true) :: frame_times k' (t + 20)
  end.

(** ** A concrete world

    One player subscribed to one ready connection, the buffers as the
    module initialises them, and stand-ins for the two primitives of
    the sodium binding: a 16-byte tag followed by the message, and a
    fill with the number of the call. *)

Definition toy_secretbox (msg nonce_buf key : list Z) : option (list Z) :=
  Some (replicate 16 0 ++ msg).
Definition toy_random (n : nat) : list Z := replicate 24 (Z.of_nat n).

Definition example_data (mode : string) (seq ts : Z) (n : option Z) : ConnectionData :=
  mkCD (Some mode) None (Some (replicate 32 7)) (Some 42) (Some seq) (Some ts) n.

Definition example_connection (d : ConnectionData) : VoiceConnection :=
  mkConn Ready (Some (mkNet (Some d) (Some (mkUdp (Some "10.0.0.1"%string) (Some 50000))))) 0.

Definition example_player : TrackPlayer :=
  mkTP false false false 0 None None [mkSub 0] 0 None 0 false None.

Definition example_world (d : ConnectionData) : World :=
  mkWorld example_player {[ 0%nat := example_connection d ]} initial_globals 0 0 [].

(** The same world with the keepalive armed, as [onpacket] leaves it. *)
Definition armed_world (d : ConnectionData) : World :=
  with_tp (fun p => set_silence_frames_left 5 (set_silence_frames_needed true p))
          (example_world d).

(** A player with external encryption, an engine, one subscription
    (connection 0) and a second connection (1) nobody is subscribed to. *)
Definition example_engine : AudioPlayer :=
  mkAP (Some (mkFF None (Some 1) (Some 2) (Some 3) None)) false 1500.

(** An engine that reports no nonce. *)
Definition broken_engine : AudioPlayer :=
  mkAP (Some (mkFF None (Some 1) (Some 2) None None)) false 1500.

Definition external_world (d : ConnectionData) : World :=
  mkWorld (mkTP false true false 0 (Some (mkTrack "t"%string None None)) None [mkSub 0] 0
                None 0 false (Some example_engine))
          {[ 0%nat := example_connection d; 1%nat := example_connection d ]}
          initial_globals 0 0 [].

(** ** The packets *)

(** The 12-byte header of a packet: the two constant bytes, the
    sequence, the timestamp and the SSRC, big-endian. *)
Definition rtp_header (seq ts ssrc_ : Z) : list Z :=
  [128; 120] ++ be16 seq ++ be32 ts ++ be32 ssrc_.

(** The scratch buffers have the sizes the module allocates and the
    output buffer starts with the two constant bytes. *)
Definition buffers_allocated (g : Globals) : Prop :=
  length (RANDOM_BYTES g) = 24%nat /\ length (CONNECTION_NONCE g) = 24%nat
  /\ length (AUDIO_NONCE g) = 24%nat /\ length (AUDIO_BUFFER g) = Z.to_nat 8192
  /\ take 2 (AUDIO_BUFFER g) = [128; 120].

(** The nonce buffer that is handed to the encryption primitive, by
    mode: the counter in front of the rest of [CONNECTION_NONCE], the
    random fill, or the header in front of the rest of [AUDIO_NONCE]. *)
Definition cipher_nonce (randombytes_buf : nat -> list Z) (mode : Z) (w : World)
           (d : ConnectionData) (header : list Z) : list Z :=
  if mode =? LITE then be32 (next_nonce (nonce d)) ++ drop 4 (CONNECTION_NONCE (bufs w))
  else if mode =? SUFFIX then randombytes_buf (rng w)
  else header ++ drop 12 (AUDIO_NONCE (bufs w)).

(** What follows the ciphertext in the packet, by mode. *)
Definition packet_suffix (mode : Z) (N : list Z) : list Z :=
  if mode =? LITE then take 4 N
  else if mode =? SUFFIX then N
  else [].

(** What the loop body of [send] does after the call of the encryption
    primitive: it sends header, ciphertext and suffix when the primitive
    returns and the packet fits into the output buffer of [cap] bytes,
    and logs the error otherwise. *)
Definition packet_event
           (crypto_secretbox_easy : list Z -> list Z -> list Z -> option (list Z))
           (c : nat) (payload key N header sfx : list Z) (cap : nat) : Event :=
  match crypto_secretbox_easy payload N key with
  | Some ct =>
      if (12 + length ct + length sfx <=? cap)%nat
      then UdpSend c (header ++ ct ++ sfx)
      else ConsoleError "Encryption/Send error:"
  | None => ConsoleError "Encryption/Send error:"
  end.

(** The big-endian number a list of bytes stands for. *)
Definition be_value (bytes : list Z) : Z :=
  fold_left (fun acc b => acc * 256 + b) bytes 0.

(** The events of the loop body of [send] that name a connection name
    [c]. *)
Definition event_of (c : nat) (e : Z * Event) : Prop :=
  match e.2 with
  | SetSpeaking x | UdpSend x _ => x = c
  | Encrypt _ _ _ | ConsoleWarn _ | ConsoleError _ => True
  | _ => False
  end.

(** The events that reach connection [c]. *)
Definition reaches (c : nat) (e : Z * Event) : bool :=
  match e.2 with
  | SetSpeaking x | UdpSend x _ => bool_decide (x = c)
  | _ => false
  end.

(** A mode that [send] encrypts with. *)
Definition cipher_mode (mode : Z) : Prop := mode = LITE \/ mode = SUFFIX \/ mode = DEFAULT.

(** ** The state of the keepalive *)

(** What holds of the three fields of the keepalive between any two
    operations: an armed keepalive has its five frames and no timer, and
    a timer has between one and five frames left to send, 20 ms apart. *)
Definition timer_ok (w : World) : Prop :=
  (silence_frames_needed (tp w) = true ->
   silence_frames_left (tp w) = 5 /\ silence_frames_interval (tp w) = None)
  /\ (forall iv, silence_frames_interval (tp w) = Some iv ->
        period iv = 20 /\ 1 <= silence_frames_left (tp w) <= 5)
  /\ 0 <= silence_frames_left (tp w) <= 5.

(** The frames the keepalive still has to send. *)
Definition frames_pending (w : World) : Z :=
  match silence_frames_interval (tp w) with
  | Some _ => silence_frames_left (tp w)
  | None => 0
  end.

(** [m] keeps the invariant [I], whether it returns or throws. *)
Definition preserves {A} (I : World -> Prop) (m : StateExn.M World Error A) : Prop :=
  forall w, I w -> StateExn.post m (fun _ => I) (fun _ => I) w.

(** ** What the player keeps of itself *)

(** The options, which only the constructor sets. *)
Definition options_of (w : World) : bool * bool * bool :=
  (normalize_volume (tp w), external_encrypt (tp w), external_packet_send (tp w)).

(** What holds of a player between any two operations: its options are
    those it was made with, the token of [play] is within its range,
    external encryption goes with at most one subscription, and a
    selected stream carries audio. *)
Definition player_ok (options : bool * bool * bool) (w : World) : Prop :=
  options_of w = options
  /\ 0 <= play_id (tp w) <= MAX_PLAY_ID
  /\ (external_encrypt (tp w) = true -> (length (subscriptions (tp w)) <= 1)%nat)
  /\ (forall s, stream (tp w) = Some s -> Streams.audio s = true).

End Player.

(* ===================================================================== *)
(** * The connection session ([VoiceConnection.ts])                       *)
(* ===================================================================== *)

Module Session.
  Import StateExn StateExn.Notations.

Inductive PromiseState :=
| Pending
| Resolved
| Rejected (msg : string).

#[global] Instance PromiseState_eq_dec : EqDecision PromiseState.
Proof. solve_decision. Defined.

Inductive Event :=
| Settled (id : nat) (st : PromiseState)
| StateChange (old new : Status)
| Emit_error (msg : string)
| SuperDisconnect
| SendMediaSinkWants
| ConsoleWarn (msg : string).

(** One [VoiceConnection] object and its surroundings.
    - [promises] holds every promise [await_connection] ever created,
      by identity; [promise] is the field [this.promise], and
      [promise_resolve] / [promise_reject] are the two functions of
      that same promise, set and cleared together with it.
    - [timeout] is the firing time of the pending [setTimeout]; the
      field and the live timer are set and cleared together.
    - [awaiting] is the promise on which the body of
      [await_connection] is suspended at [await this.promise].
    - [registered] is [guild.voice_connection === this].
    - [networking] tells whether the state object in [this.state]
      carries [networking] with its web socket, that is, whether
      [this.state.networking.state.ws] can be read. *)
Record Session := mkSession {
  status : Status;
  networking : bool;
  promises : list PromiseState;
  promise : option nat;
  timeout : option Z;
  connected : bool;
  awaiting : option nat;
  registered : bool;
  clock : Z;
  trace : list (Z * Event)
}.

Inductive Error := TypeError (msg : string).

Abbreviation Op := (M Session Error).

Definition set_status (v : Status) (s : Session) : Session :=
  mkSession v (networking s) (promises s) (promise s) (timeout s) (connected s) (awaiting s) (registered s) (clock s) (trace s).
Definition set_networking (v : bool) (s : Session) : Session :=
  mkSession (status s) v (promises s) (promise s) (timeout s) (connected s) (awaiting s) (registered s) (clock s) (trace s).
Definition set_promises (v : list PromiseState) (s : Session) : Session :=
  mkSession (status s) (networking s) v (promise s) (timeout s) (connected s) (awaiting s) (registered s) (clock s) (trace s).
Definition set_promise (v : option nat) (s : Session) : Session :=
  mkSession (status s) (networking s) (promises s) v (timeout s) (connected s) (awaiting s) (registered s) (clock s) (trace s).
Definition set_timeout (v : option Z) (s : Session) : Session :=
  mkSession (status s) (networking s) (promises s) (promise s) v (connected s) (awaiting s) (registered s) (clock s) (trace s).
Definition set_connected (v : bool) (s : Session) : Session :=
  mkSession (status s) (networking s) (promises s) (promise s) (timeout s) v (awaiting s) (registered s) (clock s) (trace s).
Definition set_awaiting (v : option nat) (s : Session) : Session :=
  mkSession (status s) (networking s) (promises s) (promise s) (timeout s) (connected s) v (registered s) (clock s) (trace s).
Definition set_registered (v : bool) (s : Session) : Session :=
  mkSession (status s) (networking s) (promises s) (promise s) (timeout s) (connected s) (awaiting s) v (clock s) (trace s).
Definition set_clock (v : Z) (s : Session) : Session :=
  mkSession (status s) (networking s) (promises s) (promise s) (timeout s) (connected s) (awaiting s) (registered s) v (trace s).
Definition with_event (e : Event) (s : Session) : Session :=
  mkSession (status s) (networking s) (promises s) (promise s) (timeout s) (connected s) (awaiting s) (registered s) (clock s)
            (trace s ++ [(clock s, e)]).

Definition emit (e : Event) : Op unit := modify (with_event e).

(** [this.promise_resolve()] and [this.promise_reject(e)]: calling the
    cleared field is a [TypeError]; settling a settled promise does
    nothing. *)
Definition settle (r : PromiseState) : Op unit :=
  s <- get ;;
  match promise s with
  | None => throw (TypeError "this.promise_reject is not a function")
  | Some id =>
      match promises s !! id with
      | Some Pending =>
          modify (set_promises (<[id := r]> (promises s))) ;;;
          emit (Settled id r)
      | _ => ret tt
      end
  end.

Definition disconnect_reason (r : DisconnectReason) : string :=
  match r with
  | AdapterUnavailable => "Adapter unavailable"
  | EndpointRemoved => "Endpoint removed"
  | WebSocketClose => "WebSocket closed"
  | Manual => "Manual disconnect"
  end.

(** What reading [this.state.networking.state] throws when the state
    has no [networking]. *)
Definition networking_error : Error :=
  TypeError "Cannot read properties of undefined (reading 'state')".

(** [handle_state_change(state)] runs before the new state is stored:
    for [Ready] the packet goes out through the networking of the state
    the session is still in. *)
Definition handle_state_change (st : Status) (reason : DisconnectReason) : Op unit :=
  match st with
  | Destroyed => settle (Rejected "Connection destroyed")
  | Disconnected => settle (Rejected (disconnect_reason reason))
  | Ready =>
      settle Resolved ;;;
      s <- get ;;
      if networking s then emit SendMediaSinkWants else throw networking_error
  | _ => ret tt
  end.

(** [super.state = state]: the setter of the voice library stores the
    new state - its status, and whether it carries [networking] - and
    announces the change. *)
Definition super_set_state (st : Status) (net : bool) : Op unit :=
  s <- get ;;
  modify (set_status st) ;;;
  modify (set_networking net) ;;;
  emit (StateChange (status s) st).

(** [await_connection()] up to [await this.promise]. *)
Definition await_connection : Op unit :=
  s <- get ;;
  if bool_decide (status s = Ready) || bool_decide (promise s <> None) then ret tt else
  modify (set_promises (promises s ++ [Pending])) ;;;
  modify (set_promise (Some (length (promises s)))) ;;;
  modify (set_timeout (Some (clock s + 15000))) ;;;
  modify (set_awaiting (Some (length (promises s)))).

(** [destroy(adapterAvailable)] and the setter [set state] call each
    other.  [destroy] assigns [Destroyed] states, and through
    [super.disconnect()] a [Disconnected] state while the status is
    [Disconnected] already; for neither does the setter reach its
    branch for a session that becomes [Disconnected].  The setter is
    therefore written once without that branch, for the assignments
    made inside [destroy], and once in full. *)
Definition set_state_in_destroy (st : Status) (reason : DisconnectReason) (net : bool)
  : Op unit :=
  s <- get ;;
  (if bool_decide (st <> status s) then
     match promise s with
     | Some _ => handle_state_change st reason
     | None => ret tt
     end
   else ret tt) ;;;
  super_set_state st net.

(** [super.disconnect()], the method of the voice library: unless the
    session is destroyed or signalling it sends the payload that leaves
    the channel and assigns a [Disconnected] state, which goes through
    the setter above.  The reason of that state is [Manual], or
    [AdapterUnavailable] when the adapter refuses the payload. *)
Definition super_disconnect : Op unit :=
  s <- get ;;
  if bool_decide (status s = Destroyed) || bool_decide (status s = Signalling)
  then ret tt else
  emit SuperDisconnect ;;;
  set_state_in_destroy Disconnected Manual false.

(** [destroy(adapterAvailable)].  The two assignments to
    [this._state.status] change the status of the state object in
    place, without the setter; the states [destroy] assigns carry no
    [networking]. *)
Definition destroy (adapterAvailable : bool) : Op unit :=
  s <- get ;;
  if bool_decide (status s = Destroyed) then ret tt else
  (if adapterAvailable then
     modify (set_status Destroyed) ;;;
     set_state_in_destroy Destroyed Manual false ;;;
     modify (set_status Disconnected) ;;;
     super_disconnect
   else ret tt) ;;;
  s <- get ;;
  (if registered s then modify (set_registered false)
   else emit (ConsoleWarn "Voice connection mismatch")) ;;;
  set_state_in_destroy Destroyed Manual false.

(** [set state (state)], for a state with status [st], disconnect
    reason [reason] and, if [net], with [networking]. *)
Definition set_state (st : Status) (reason : DisconnectReason) (net : bool) : Op unit :=
  s <- get ;;
  (if bool_decide (st <> status s) then
     match promise s with
     | Some _ => handle_state_change st reason
     | None =>
         if bool_decide (st = Disconnected) then
           if bool_decide (reason = WebSocketClose) then await_connection
           else destroy (negb (bool_decide (reason = AdapterUnavailable)))
         else ret tt
     end
   else ret tt) ;;;
  super_set_state st net.

(** The rest of [await_connection], run once the awaited promise is
    settled: the [try] continues or the [catch] runs, then the
    [finally]. *)
Definition resume : Op unit :=
  s <- get ;;
  match awaiting s with
  | None => ret tt
  | Some id =>
      match promises s !! id with
      | Some Pending | None => ret tt
      | Some st =>
          modify (set_awaiting None) ;;;
          (match st with
           | Rejected e =>
               (if connected s then emit (Emit_error e) else ret tt) ;;;
               destroy true
           | _ => modify (set_connected true)
           end) ;;;
          modify (set_timeout None) ;;;
          modify (set_promise None)
      end
  end.

(** The callback of [setTimeout(..., 15000)]. *)
Definition on_timeout : Op unit :=
  modify (set_timeout None) ;;;
  settle (Rejected "Connection timed out").

(** What can happen to a session, one turn of the event loop each:
    a caller invokes [await_connection], the voice library assigns a
    new state, somebody calls [destroy()], or time passes.  After the
    synchronous code of the turn the suspended body of
    [await_connection] continues if its promise is settled.  What the
    synchronous code throws goes to its caller: the turn ends there,
    with the session as the throw left it. *)
Inductive Turn :=
| CallAwaitConnection
| SetState (st : Status) (reason : DisconnectReason) (net : bool)
| CallDestroy
| AdvanceTo (t : Z).

Definition turn (e : Turn) : Op unit :=
  (match e with
   | CallAwaitConnection => await_connection
   | SetState st reason net => set_state st reason net
   | CallDestroy => destroy true
   | AdvanceTo t =>
       s <- get ;;
       match timeout s with
       | Some due_ =>
           if due_ <=? t then
             modify (set_clock due_) ;;; on_timeout ;;; resume ;;;
             modify (set_clock (Z.max due_ t))
           else modify (set_clock (Z.max (clock s) t))
       | None => modify (set_clock (Z.max (clock s) t))
       end
   end) ;;;
  resume.

Definition run (es : list Turn) : Op unit := for_each es turn.

(** [connect()], for a connection that exists and is not ready: the
    caller starts [await_connection] and then waits on
    [connection.promise]; the result is the promise it waits on. *)
Definition connect_wait : Op (option nat) :=
  await_connection ;;;
  gets promise.

(** A future is in flight: [this.promise] is the pending promise [id],
    the body of [await_connection] waits for it, the timer is set for
    [deadline], and [id] is the youngest promise. *)
Definition in_flight (id : nat) (deadline : Z) (s : Session) : Prop :=
  promise s = Some id /\ promises s !! id = Some Pending
  /\ awaiting s = Some id /\ timeout s = Some deadline
  /\ length (promises s) = S id.

(** A turn that leaves a session waiting: a caller of
    [await_connection], a change between the states on the way to
    readiness, or time passing short of [deadline]. *)
Definition waiting_turn (deadline : Z) (e : Turn) : Prop :=
  match e with
  | CallAwaitConnection => True
  | SetState st _ _ => st = Signalling \/ st = Connecting
  | CallDestroy => False
  | AdvanceTo t => t < deadline
  end.

(** A turn that ends the wait of a session whose status is [cur]: the
    session is disconnected, for whatever reason, or destroyed.  [msg]
    is the message the promise is rejected with. *)
Definition leaving_turn (cur : Status) (e : Turn) (msg : string) : Prop :=
  match e with
  | SetState Disconnected reason _ =>
      cur <> Disconnected /\ msg = disconnect_reason reason
  | SetState Destroyed _ _ => cur <> Destroyed /\ msg = "Connection destroyed"%string
  | CallDestroy => cur <> Destroyed /\ msg = "Connection destroyed"%string
  | _ => False
  end.

(** What [destroy] leaves alone when the promise in flight, if any, is
    settled already. *)
Definition destroy_keeps (s s' : Session) : Prop :=
  promises s' = promises s /\ promise s' = promise s /\ awaiting s' = awaiting s
  /\ timeout s' = timeout s /\ clock s' = clock s /\ connected s' = connected s
  /\ exists evs, trace s' = trace s ++ evs
                 /\ Forall (fun e => forall id r, e.2 <> Settled id r) evs.

(** A session for examples: signalling, nothing in flight. *)
Definition example_session : Session :=
  mkSession Signalling false [] None None false None true 0 [].

(** ** More of the session *)

(** [onNetworkingError(error)] *)
Definition onNetworkingError (msg : string) : Op unit :=
  s <- get ;;
  match promise s with
  | Some _ => settle (Rejected msg)
  | None => emit (Emit_error msg) ;;; destroy true
  end.

(** [disconnect()] *)
Definition disconnect : Op bool :=
  destroy true ;;;
  ret true.

(** [ready()] *)
Definition ready (s : Session) : bool := bool_decide (status s = Ready).

(** The calls that reach a session from its users and from the voice
    library. *)
Inductive Call :=
| AwaitConnection
| AssignState (st : Status) (reason : DisconnectReason) (net : bool)
| Destroy (adapterAvailable : bool)
| Disconnect
| NetworkingError (msg : string).

Definition call (c : Call) : Op unit :=
  match c with
  | AwaitConnection => await_connection
  | AssignState st reason net => set_state st reason net
  | Destroy adapterAvailable => destroy adapterAvailable
  | Disconnect => disconnect ;;; ret tt
  | NetworkingError msg => onNetworkingError msg
  end.

(** One turn of the event loop: synchronous code makes any number of
    calls, after which the suspended body of [await_connection]
    continues if its promise is settled; or time passes, as in
    [turn (AdvanceTo t)]. *)
Inductive Step :=
| Calls (cs : list Call)
| Advance (t : Z).

Definition step (x : Step) : Op unit :=
  match x with
  | Calls cs => for_each cs call ;;; resume
  | Advance t => turn (AdvanceTo t)
  end.

Definition steps (xs : list Step) : Op unit := for_each xs step.

(** Between two turns of the event loop: the body of
    [await_connection] waits on [this.promise], the timer is set exactly
    while there is such a promise, that promise is pending, and no other
    promise is. *)
Definition session_ok (s : Session) : Prop :=
  awaiting s = promise s
  /\ (timeout s = None <-> promise s = None)
  /\ (forall id, promise s = Some id -> promises s !! id = Some Pending)
  /\ (forall j, promises s !! j = Some Pending -> promise s = Some j).

(** Promises are only added, and a settled promise stays as it is. *)
Definition promises_grow (s s' : Session) : Prop :=
  (length (promises s) <= length (promises s'))%nat
  /\ forall j st, promises s !! j = Some st -> st <> Pending -> promises s' !! j = Some st.

(** After the synchronous code of a turn, before the body of
    [await_connection] continues: as [session_ok], except that
    [this.promise] may be settled already, and then the timer may be
    gone. *)
Definition settling (s : Session) : Prop :=
  awaiting s = promise s
  /\ (timeout s <> None -> promise s <> None)
  /\ (forall id, promise s = Some id ->
        exists st, promises s !! id = Some st /\ (st = Pending -> timeout s <> None))
  /\ (forall j, promises s !! j = Some Pending -> promise s = Some j).

(** [m] does not throw on a session about to settle, and leaves such a
    session with its promises grown. *)
Definition session_safe {A} (m : Op A) : Prop :=
  forall s, settling s -> returns m (fun _ s' => settling s' /\ promises_grow s s') s.


(** The ['error'] events of the session, in order. *)
Definition emitted (e : Z * Event) : option string :=
  match e.2 with
  | Emit_error msg => Some msg
  | _ => None
  end.
Definition errors_of (tr : list (Z * Event)) : list string := omap emitted tr.

(** The warnings logged, in order. *)
Definition warned (e : Z * Event) : option string :=
  match e.2 with
  | ConsoleWarn msg => Some msg
  | _ => None
  end.
Definition warnings_of (tr : list (Z * Event)) : list string := omap warned tr.

(** The states announced by the setter of the voice library, in order. *)
Definition announced (e : Z * Event) : option Status :=
  match e.2 with
  | StateChange _ new => Some new
  | _ => None
  end.
Definition states_of (tr : list (Z * Event)) : list Status := omap announced tr.

(** Two more sessions for examples: one waiting for its first
    connection, as the constructor leaves it, and one that has been
    connected for a while. *)
Definition waiting_session : Session :=
  mkSession Signalling false [Pending] (Some 0%nat) (Some 15000) false (Some 0%nat) true 0 [].

Definition connected_session : Session :=
  mkSession Ready true [Resolved] None None true None true 60000 [].

End Session.

(* ===================================================================== *)
(** * The error classes ([Error.ts])                                      *)
(* ===================================================================== *)

Module Errors.

(** The values the constructors are called with, as far as
    [parseErrorArg] tells them apart.  A value that is not an object is
    known by the text its [toString()] gives; an [Error] by its message
    and its [simpleMessage], if it has one; any other object by its own
    [simpleMessage] and [error] properties. *)
Inductive ErrorProperty :=
| NoError
| ErrorInstance (message : string) (simpleMessage : option string)
| OtherValue (text : string).

Inductive Arg :=
| Undefined
| Null
| Primitive (text : string)
| AnError (message : string) (simpleMessage : option string)
| Info (simpleMessage : option string) (error : ErrorProperty).

Record Parsed := mkParsed {
  parsed_message : option string;
  parsed_simpleMessage : option string
}.

(** [!x] for a string that may be undefined: the empty string is falsy. *)
Definition falsy (x : option string) : bool :=
  match x with
  | None => true
  | Some s => bool_decide (s = ""%string)
  end.

(** [a ?? b] *)
Definition coalesce (a b : option string) : option string :=
  match a with
  | Some _ => a
  | None => b
  end.

Definition parseErrorArg (arg : Arg) (defaultSimpleMessage : option string) : Parsed :=
  match arg with
  | Undefined => mkParsed None defaultSimpleMessage
  | Primitive text => mkParsed (Some text) defaultSimpleMessage
  | AnError message simpleMessage =>
      mkParsed (Some message) (coalesce simpleMessage defaultSimpleMessage)
  | Null =>
      mkParsed (coalesce None defaultSimpleMessage) defaultSimpleMessage
  | Info simpleMessage error =>
      let '(message, simpleMessage) :=
        match error with
        | ErrorInstance m sm =>
            (Some m, if falsy simpleMessage then sm else simpleMessage)
        | OtherValue text => (Some text, simpleMessage)
        | NoError => (simpleMessage, simpleMessage)
        end in
      let simpleMessage :=
        if falsy simpleMessage then defaultSimpleMessage else simpleMessage in
      mkParsed (coalesce message simpleMessage) simpleMessage
  end.

(** An instance of [GenericError] or of one of its subclasses. *)
Record GenericError := mkError {
  name : string;
  message : string;
  simpleMessage : option string
}.

(** The constructor of [GenericError]; [super(message)] turns an
    undefined message into the empty string. *)
Definition construct (class_name : string) (arg : Arg)
           (defaultSimpleMessage : option string) : GenericError :=
  let p := parseErrorArg arg defaultSimpleMessage in
  mkError class_name (default ""%string (parsed_message p)) (parsed_simpleMessage p).

Definition userFriendlyMessage (e : GenericError) : string :=
  default "Unknown error"%string (simpleMessage e).

(** The subclasses and the default each hands to [super]. *)
Inductive Class :=
| ParseError | InternalError | NotFoundError | NetworkError
| UnsupportedError | UnplayableError | NotATrackError.

Definition class_name (c : Class) : string :=
  match c with
  | ParseError => "ParseError"
  | InternalError => "InternalError"
  | NotFoundError => "NotFoundError"
  | NetworkError => "NetworkError"
  | UnsupportedError => "UnsupportedError"
  | UnplayableError => "UnplayableError"
  | NotATrackError => "NotATrackError"
  end.

Definition class_default (c : Class) : string :=
  match c with
  | ParseError => "Error processing input"
  | InternalError => "Internal error"
  | NotFoundError => "Entity not found"
  | NetworkError => "Network error"
  | UnsupportedError => "Function not supported"
  | UnplayableError => "Track is unplayable"
  | NotATrackError => "Link does not lead to a track"
  end.

(** [new C(arg)] for a subclass [C]. *)
Definition new_error (c : Class) (arg : Arg) : GenericError :=
  construct (class_name c) arg (Some (class_default c)).

(** An error object handed on as the argument of another constructor. *)
Definition as_arg (e : GenericError) : Arg := AnError (message e) (simpleMessage e).

(** [new C1(new C2(... new Cn(arg)))], innermost first in the list. *)
Definition wrap (cs : list Class) (e : GenericError) : GenericError :=
  fold_left (fun inner c => new_error c (as_arg inner)) cs e.

End Errors.

(* ===================================================================== *)
(** * Properties of the stream selection                                  *)
(* ===================================================================== *)

Section StreamSelection.
  Import Streams.

  (** The loop with its three [push]es computes the three filters. *)
Lemma classify_acc (l : list TrackStream) (a b c : list TrackStream) :
  fold_left classify_step l (a, b, c)
  = (a ++ opus_part l, b ++ audio_part l, c ++ video_part l).
Proof.
  revert a b c. induction l as [|x l IH]; intros a b c; simpl.
  - by rewrite !app_nil_r.
  - unfold is_opus, is_other_audio.
    destruct (video x); simpl.
    + rewrite IH. by rewrite <- !app_assoc.
    + destruct (bool_decide (codecs x = Some "opus"%string)); simpl;
        rewrite IH; by rewrite <- !app_assoc.
Qed.

Lemma candidates_of_winning (l : list TrackStream) :
  candidates_of l = winning_partition l.
Proof.
  unfold candidates_of, classify, winning_partition.
  rewrite classify_acc. simpl. reflexivity.
Qed.

Lemma first_max_bound (l : list TrackStream) (r : TrackStream) :
  first_max l r -> Forall (fun x => bitrate0 x <= bitrate0 r) l.
Proof.
  intros (l1 & l2 & -> & H1 & H2).
  apply Forall_app. split.
  - eapply Forall_impl; [exact H1|]. simpl. intros. lia.
  - constructor; [lia | exact H2].
Qed.

Lemma first_max_In (l : list TrackStream) (r : TrackStream) :
  first_max l r -> In r l.
Proof.
  intros (l1 & l2 & -> & _). apply in_or_app. right. by left.
Qed.

(** The head of the stably sorted array is the first entry of largest
    bitrate. *)
Lemma sort_head_first_max (l : list TrackStream) :
  l <> [] ->
  exists r, head (sort_by cmp_bitrate l) = Some r /\ first_max l r.
Proof.
  induction l as [|x l IH]; [congruence|]. intros _.
  destruct l as [|y l'].
  - exists x. split; [reflexivity|]. exists [], []. repeat split; constructor.
  - destruct IH as (r & Hh & Hr); [congruence|].
    change (sort_by cmp_bitrate (x :: y :: l'))
      with (insert_by cmp_bitrate x (sort_by cmp_bitrate (y :: l'))).
    destruct (sort_by cmp_bitrate (y :: l')) as [|r' rest] eqn:E; [discriminate|].
    simpl in Hh. injection Hh as ->.
    simpl. unfold cmp_bitrate at 1.
    destruct (0 <? bitrate0 r - bitrate0 x) eqn:C.
    + apply Z.ltb_lt in C. exists r. split; [reflexivity|].
      destruct Hr as (l1 & l2 & El & H1 & H2).
      exists (x :: l1), l2. rewrite El. repeat split; auto.
      constructor; [lia | exact H1].
    + apply Z.ltb_ge in C. exists x. split; [reflexivity|].
      exists [], (y :: l'). repeat split; [constructor|].
      eapply Forall_impl; [exact (first_max_bound _ _ Hr)|].
      simpl. intros. lia.
Qed.

Lemma get_best_stream_one_winning (streams : list TrackStream) :
  match get_best_stream_one streams with
  | Some r => first_max (winning_partition streams) r
  | None => winning_partition streams = []
  end.
Proof.
  unfold get_best_stream_one.
  destruct streams as [|s streams']; [reflexivity|].
  rewrite candidates_of_winning.
  destruct (winning_partition (s :: streams')) as [|c cs] eqn:E; [reflexivity|].
  destruct (sort_head_first_max (c :: cs)) as (r & Hh & Hr); [congruence|].
  rewrite Hh. exact Hr.
Qed.

Lemma opus_part_In (l : list TrackStream) (x : TrackStream) :
  In x (opus_part l) <-> In x l /\ video x = false /\ codecs x = Some "opus"%string.
Proof.
  unfold opus_part. rewrite filter_In. unfold is_opus.
  rewrite andb_true_iff, negb_true_iff, bool_decide_eq_true. tauto.
Qed.

(** Every stream is in one of the three partitions. *)
Lemma winning_partition_nil (l : list TrackStream) :
  winning_partition l = [] -> l = [].
Proof.
  destruct l as [|x l]; [reflexivity|].
  unfold winning_partition, opus_part, audio_part, video_part. simpl.
  unfold is_opus, is_other_audio.
  destruct (video x), (bool_decide (codecs x = Some "opus"%string)); simpl;
    destruct (List.filter _ l); try discriminate;
    destruct (List.filter _ l); discriminate.
Qed.

Lemma get_best_stream_one_None (l : list TrackStream) :
  get_best_stream_one l = None -> l = [].
Proof.
  intros H. pose proof (get_best_stream_one_winning l) as Hw.
  rewrite H in Hw. by apply winning_partition_nil.
Qed.

(** [get_best_stream] is [get_best_stream_one] on the chosen set, with
    the volume of the array put on the result. *)
Lemma get_best_stream_chosen (streams : list TrackStream) (vol : option Z) :
  get_best_stream streams vol
  = with_volume vol <$> get_best_stream_one (chosen_set streams).
Proof.
  unfold get_best_stream, chosen_set.
  destruct (List.filter default_audio_track (List.filter audio streams))
    as [|x l] eqn:E.
  - simpl. destruct (get_best_stream_one (List.filter audio streams)); by destruct vol.
  - destruct (get_best_stream_one (x :: l)) as [r|] eqn:Hr.
    + by destruct vol.
    + apply get_best_stream_one_None in Hr. discriminate.
Qed.



(** The example of the specification, through the whole selector. *)
Example get_best_stream_opus_example :
  get_best_stream [opus_96; aac_128] None = Some opus_96.
Proof. reflexivity. Qed.

(** The chosen set comes first: an opus stream that is not a default
    audio track is not a candidate when another stream is one. *)
Example get_best_stream_default_track_example :
  let aac_default :=
    mkStream (Some "d"%string) false true (Some 128) (Some "aac"%string) true None in
  chosen_set [opus_96; aac_default] = [aac_default]
  /\ get_best_stream [opus_96; aac_default] None = Some aac_default.
Proof. split; reflexivity. Qed.

(** Ties keep the order of the input; an undefined bitrate counts as 0. *)
Example get_best_stream_one_tie_example :
  get_best_stream_one
    [mkStream (Some "x"%string) false true None (Some "opus"%string) false None;
     mkStream (Some "y"%string) false true (Some 64) (Some "opus"%string) false None;
     mkStream (Some "z"%string) false true (Some 64) (Some "opus"%string) false None]
  = Some (mkStream (Some "y"%string) false true (Some 64) (Some "opus"%string) false None).
Proof. reflexivity. Qed.

(** The fallback example as the specification gives it: the only
    candidate is video-flagged and not audio-capable.  The filter on
    [audio] leaves nothing, the selector returns nothing. *)
Lemma get_best_stream_video_only_none :
  get_best_stream [video_only_720] None = None
  /\ get_best_stream [video_only_720] None <> Some video_only_720.
Proof. split; [reflexivity | discriminate]. Qed.

Lemma filter_audio_none (l : list TrackStream) :
  Forall (fun s => audio s = false) l -> List.filter audio l = [].
Proof.
  induction 1 as [|x l Hx _ IH]; simpl; [reflexivity|]. by rewrite Hx.
Qed.

(** C2, amended. A single video-flagged candidate of bitrate 720 is
    returned when it is also audio-capable (the video partition is the
    last one tried among the audio-capable streams); when it is not
    audio-capable the selector returns nothing, as it does for every
    list without an audio-capable stream. *)
Theorem get_best_stream_video_fallback (s : TrackStream) (vol : option Z) :
  video s = true -> bitrate s = Some 720 ->
  (audio s = true ->
     get_best_stream [s] vol
     = Some (match vol with Some v => set_volume v s | None => s end))
  /\ (audio s = false -> get_best_stream [s] vol = None)
  /\ (forall l, Forall (fun x => audio x = false) l -> get_best_stream l vol = None).
Proof.
  intros Hv Hb. split; [|split].
  - intros Ha. unfold get_best_stream. simpl. rewrite Ha. simpl.
    destruct (default_audio_track s) eqn:Hd; simpl.
    + unfold get_best_stream_one, candidates_of, classify. simpl.
      rewrite Hv. simpl. by destruct vol.
    + unfold get_best_stream_one, candidates_of, classify. simpl.
      rewrite Hv. simpl. by destruct vol.
  - intros Ha. unfold get_best_stream. simpl. rewrite Ha. simpl. by destruct vol.
  - intros l Hl. unfold get_best_stream. rewrite (filter_audio_none l Hl). simpl.
    by destruct vol.
Qed.

Lemma get_best_stream_video_fallback_witness :
  get_best_stream [muxed_720] None = Some muxed_720.
Proof.
  apply (proj1 (get_best_stream_video_fallback muxed_720 None eq_refl eq_refl)).
  reflexivity.
Defined.

(** ** What the selector never returns *)

Lemma winning_partition_In (l : list TrackStream) (x : TrackStream) :
  In x (winning_partition l) -> In x l.
Proof.
  unfold winning_partition, opus_part, audio_part, video_part.
  destruct (List.filter is_opus l) eqn:E1.
  - destruct (List.filter is_other_audio l) eqn:E2.
    + intros H. by apply filter_In in H as [H _].
    + rewrite <- E2. intros H. by apply filter_In in H as [H _].
  - rewrite <- E1. intros H. by apply filter_In in H as [H _].
Qed.

Lemma chosen_set_In (l : list TrackStream) (x : TrackStream) :
  In x (chosen_set l) -> In x l /\ audio x = true.
Proof.
  unfold chosen_set.
  destruct (List.filter default_audio_track (List.filter audio l)) as [|y l'] eqn:E.
  - intros H. by apply filter_In in H.
  - rewrite <- E. intros H. apply filter_In in H as [H _]. by apply filter_In in H.
Qed.


Lemma get_best_stream_Some (streams : list TrackStream) (vol : option Z) (r : TrackStream) :
  get_best_stream streams vol = Some r ->
  exists s, In s streams /\ audio s = true /\ r = with_volume vol s.
Proof.
  rewrite get_best_stream_chosen. intros Hr.
  pose proof (get_best_stream_one_winning (chosen_set streams)) as Hw.
  destruct (get_best_stream_one (chosen_set streams)) as [s|]; [|discriminate].
  injection Hr as <-. exists s.
  apply first_max_In, winning_partition_In, chosen_set_In in Hw. tauto.
Qed.

Lemma with_volume_audio (vol : option Z) (s : TrackStream) :
  audio (with_volume vol s) = audio s.
Proof. by destruct vol. Qed.



Lemma winning_partition_video (l : list TrackStream) (r : TrackStream) :
  In r (winning_partition l) -> video r = true ->
  Forall (fun s => video s = true) l.
Proof.
  unfold winning_partition, opus_part, audio_part, video_part.
  destruct (List.filter is_opus l) eqn:E1.
  - destruct (List.filter is_other_audio l) eqn:E2.
    + intros _ _. apply List.Forall_forall. intros s Hs.
      destruct (video s) eqn:Hv; [reflexivity|].
      destruct (bool_decide (codecs s = Some "opus"%string)) eqn:Hc.
      * assert (Hin : In s (List.filter is_opus l)).
        { apply filter_In. split; [exact Hs|]. unfold is_opus. by rewrite Hv, Hc. }
        rewrite E1 in Hin. destruct Hin.
      * assert (Hin : In s (List.filter is_other_audio l)).
        { apply filter_In. split; [exact Hs|]. unfold is_other_audio. by rewrite Hv, Hc. }
        rewrite E2 in Hin. destruct Hin.
    + rewrite <- E2. intros H Hv. apply filter_In in H as [_ H].
      unfold is_other_audio in H. rewrite Hv in H. discriminate.
  - rewrite <- E1. intros H Hv. apply filter_In in H as [_ H].
    unfold is_opus in H. rewrite Hv in H. discriminate.
Qed.

Lemma winning_partition_not_opus (l : list TrackStream) (r : TrackStream) :
  In r (winning_partition l) -> codecs r <> Some "opus"%string ->
  Forall (fun s => video s = true \/ codecs s <> Some "opus"%string) l.
Proof.
  intros Hr Hc. apply List.Forall_forall. intros s Hs.
  destruct (video s) eqn:Hv; [by left|]. right. intros Hopus.
  assert (Hin : In s (opus_part l)) by (apply opus_part_In; auto).
  revert Hr. unfold winning_partition.
  destruct (opus_part l) as [|y l'] eqn:E; [destruct Hin|].
  rewrite <- E. intros Hr. apply opus_part_In in Hr. tauto.
Qed.

(** [get_best_stream_one] returns one of its inputs.  It returns a
    video-flagged stream only when every input is video-flagged, and a
    stream that is not opus-coded only when no input without video is
    opus-coded; an empty input is the only one without a result. *)
Theorem get_best_stream_one_priority (streams : list TrackStream) (r : TrackStream) :
  get_best_stream_one streams = Some r ->
  In r streams
  /\ (video r = true -> Forall (fun s => video s = true) streams)
  /\ (codecs r <> Some "opus"%string ->
      Forall (fun s => video s = true \/ codecs s <> Some "opus"%string) streams)
  /\ (forall l, get_best_stream_one l = None <-> l = []).
Proof.
  intros Hr. pose proof (get_best_stream_one_winning streams) as Hw.
  rewrite Hr in Hw. apply first_max_In in Hw.
  split; [by apply winning_partition_In|].
  split; [by apply winning_partition_video|].
  split; [by apply winning_partition_not_opus|].
  intros l. split; [apply get_best_stream_one_None | by intros ->].
Qed.

Lemma get_best_stream_one_priority_witness :
  In aac_128 [muxed_720; aac_128]
  /\ (video aac_128 = true -> Forall (fun s => video s = true) [muxed_720; aac_128])
  /\ (codecs aac_128 <> Some "opus"%string ->
      Forall (fun s => video s = true \/ codecs s <> Some "opus"%string)
        [muxed_720; aac_128])
  /\ (forall l, get_best_stream_one l = None <-> l = []).
Proof.
  apply (get_best_stream_one_priority [muxed_720; aac_128] aac_128). reflexivity.
Defined.
End StreamSelection.

(* ===================================================================== *)
(** * Reasoning about computations                                        *)
(* ===================================================================== *)

Section PostRules.
Import StateExn.
Context {S E : Type}.
Implicit Types (s : S).

Lemma post_ret {A} (a : A) (Q : A -> S -> Prop) (R : E -> S -> Prop) s :
  Q a s -> post (ret a) Q R s.
Proof. exact id. Qed.

Lemma post_throw {A} (e : E) (Q : A -> S -> Prop) (R : E -> S -> Prop) s :
  R e s -> post (throw e) Q R s.
Proof. exact id. Qed.

Lemma post_get (Q : S -> S -> Prop) (R : E -> S -> Prop) s :
  Q s s -> post get Q R s.
Proof. exact id. Qed.

Lemma post_gets {A} (f : S -> A) (Q : A -> S -> Prop) (R : E -> S -> Prop) s :
  Q (f s) s -> post (gets f) Q R s.
Proof. exact id. Qed.

Lemma post_modify (f : S -> S) (Q : unit -> S -> Prop) (R : E -> S -> Prop) s :
  Q tt (f s) -> post (modify f) Q R s.
Proof. exact id. Qed.

Lemma post_bind {A B} (m : M S E A) (k : A -> M S E B)
      (Q : B -> S -> Prop) (R : E -> S -> Prop) s :
  post m (fun a => post (k a) Q R) R s -> post (bind m k) Q R s.
Proof.
  unfold post, bind. destruct (m s) as [[a|e] s']; auto.
Qed.

Lemma post_try_catch {A} (m : M S E A) (h : E -> M S E A)
      (Q : A -> S -> Prop) (R : E -> S -> Prop) s :
  post m Q (fun e => post (h e) Q R) s -> post (try_catch m h) Q R s.
Proof.
  unfold post, try_catch. destruct (m s) as [[a|e] s']; auto.
Qed.

Lemma post_mono {A} (m : M S E A) (Q Q' : A -> S -> Prop) (R R' : E -> S -> Prop) s :
  post m Q R s ->
  (forall a s', Q a s' -> Q' a s') ->
  (forall e s', R e s' -> R' e s') ->
  post m Q' R' s.
Proof.
  unfold post. destruct (m s) as [[a|e] s']; auto.
Qed.

Lemma returns_eq {A} (m : M S E A) (Q : A -> S -> Prop) s :
  returns m Q s <-> exists a s', m s = (Returned a, s') /\ Q a s'.
Proof.
  unfold returns, post. destruct (m s) as [[a|e] s'].
  - split; [eauto|]. by intros (? & ? & [= -> ->] & ?).
  - split; [tauto|]. by intros (? & ? & [=] & ?).
Qed.

(** A loop keeps what each turn of its body keeps. *)
Lemma post_for_each {A} (xs : list A) (body : A -> M S E unit)
      (I : list A -> S -> Prop) (R : E -> S -> Prop) s :
  I xs s ->
  (forall x xs' s', I (x :: xs') s' ->
     post (body x) (fun _ => I xs') R s') ->
  post (for_each xs body) (fun _ => I []) R s.
Proof.
  intros HI Hbody. revert s HI.
  induction xs as [|x xs IH]; intros s HI; simpl.
  - exact HI.
  - apply post_bind. eapply post_mono; [apply Hbody, HI | | auto].
    intros [] s' H'. apply IH. exact H'.
Qed.

End PostRules.

(** One step of symbolic execution. *)
Ltac post_step :=
  lazymatch goal with
  | |- StateExn.returns _ _ _ => unfold StateExn.returns
  | |- StateExn.post (StateExn.bind _ _) _ _ _ => apply post_bind
  | |- StateExn.post (StateExn.try_catch _ _) _ _ _ => apply post_try_catch
  | |- StateExn.post (StateExn.ret _) _ _ _ => apply post_ret
  | |- StateExn.post (StateExn.throw _) _ _ _ => apply post_throw
  | |- StateExn.post StateExn.get _ _ _ => apply post_get
  | |- StateExn.post (StateExn.gets _) _ _ _ => apply post_gets
  | |- StateExn.post (StateExn.modify _) _ _ _ => apply post_modify
  end.

(* ===================================================================== *)
(** * Properties of the packet codec ([send])                             *)
(* ===================================================================== *)

Section Codec.
Import StateExn Player.

Context (crypto_secretbox_easy : list Z -> list Z -> list Z -> option (list Z)).
Context (randombytes_buf : nat -> list Z).

(** ** The counters *)

Lemma next_sequence_mod (s : Z) :
  0 <= s <= 65535 -> next_sequence s = (s + 1) mod 65536.
Proof.
  intros H. unfold next_sequence.
  destruct (s + 1 >? 65535) eqn:E.
  - apply Z.gtb_lt in E. assert (s = 65535) by lia. subst. reflexivity.
  - rewrite Z.gtb_ltb in E. apply Z.ltb_ge in E.
    rewrite Z.mod_small; lia.
Qed.

Lemma next_sequence_range (s : Z) :
  0 <= s <= 65535 -> 0 <= next_sequence s <= 65535.
Proof.
  intros H. rewrite next_sequence_mod by assumption.
  pose proof (Z.mod_pos_bound (s + 1) 65536). lia.
Qed.

Lemma next_timestamp_range (t f : Z) :
  0 <= t <= 4294967295 -> 0 <= f -> 0 <= next_timestamp t f <= 4294967295.
Proof.
  intros H Hf. unfold next_timestamp.
  destruct (t + f >? 4294967295) eqn:E; [lia|].
  rewrite Z.gtb_ltb in E. apply Z.ltb_ge in E. lia.
Qed.

Lemma next_nonce_mod (n : option Z) :
  0 <= default 0 n <= 4294967295 ->
  next_nonce n = (default 0 n + 1) mod 4294967296.
Proof.
  intros H. unfold next_nonce.
  destruct (default 0 n + 1 >? 4294967295) eqn:E.
  - apply Z.gtb_lt in E. assert (default 0 n = 4294967295) as -> by lia. reflexivity.
  - rewrite Z.gtb_ltb in E. apply Z.ltb_ge in E.
    rewrite Z.mod_small; lia.
Qed.

(** ** Buffers *)

Lemma buf_set_length (buf data b : list Z) (off : nat) :
  buf_set buf data off = Some b -> length b = length buf.
Proof.
  unfold buf_set. destruct (off + length data <=? length buf)%nat eqn:E; [|discriminate].
  apply Nat.leb_le in E. intros [= <-].
  rewrite !length_app, length_take, length_drop. lia.
Qed.

Lemma buf_set_take (buf data b : list Z) (off : nat) :
  buf_set buf data off = Some b -> take (off + length data) b = take off buf ++ data.
Proof.
  unfold buf_set. destruct (off + length data <=? length buf)%nat eqn:E; [|discriminate].
  apply Nat.leb_le in E. intros [= <-].
  rewrite app_assoc. rewrite take_app_le.
  2:{ rewrite length_app, length_take. lia. }
  rewrite take_ge; [reflexivity|].
  rewrite length_app, length_take. lia.
Qed.

Lemma buf_set_take_before (buf data b : list Z) (off k : nat) :
  buf_set buf data off = Some b -> (k <= off)%nat -> take k b = take k buf.
Proof.
  unfold buf_set. destruct (off + length data <=? length buf)%nat eqn:E; [|discriminate].
  apply Nat.leb_le in E. intros [= <-] Hk.
  rewrite take_app_le by (rewrite length_take; lia).
  rewrite take_take. f_equal. lia.
Qed.

Lemma buf_set_fits (buf data : list Z) (off : nat) :
  (off + length data <= length buf)%nat -> is_Some (buf_set buf data off).
Proof.
  intros H. unfold buf_set.
  destruct (off + length data <=? length buf)%nat eqn:E; [eauto|].
  apply Nat.leb_gt in E. lia.
Qed.

(** ** The loop body of [send] *)

Lemma set_connectionData_twice (a b : ConnectionData) (conn : VoiceConnection) :
  set_connectionData a (set_connectionData b conn) = set_connectionData a conn.
Proof. unfold set_connectionData. simpl. by destruct (networking conn). Qed.

Lemma alter_set_connectionData_twice (a b : ConnectionData) (c : nat)
      (m : gmap nat VoiceConnection) :
  alter (set_connectionData a) c (alter (set_connectionData b) c m)
  = alter (set_connectionData a) c m.
Proof.
  apply map_eq. intros k. destruct (decide (c = k)) as [->|Hne].
  - rewrite !lookup_alter_eq. destruct (m !! k); simpl; [|reflexivity].
    by rewrite set_connectionData_twice.
  - by rewrite !lookup_alter_ne.
Qed.

Ltac sim :=
  cbn [tp conns bufs clock rng trace
       with_tp with_conns with_bufs with_clock with_rng with_event
       AUDIO_BUFFER CONNECTION_NONCE AUDIO_NONCE RANDOM_BYTES
       set_AUDIO_BUFFER set_CONNECTION_NONCE set_AUDIO_NONCE set_RANDOM_BYTES] in *.

Ltac op_step :=
  first
    [ post_step
    | lazymatch goal with
      | |- post (emit _) _ _ _ => unfold emit
      | |- post (put_connectionData _ _) _ _ _ => unfold put_connectionData
      | |- post (audio_writeUInt16BE _ _) _ _ _ => unfold audio_writeUInt16BE
      | |- post (audio_writeUInt32BE _ _) _ _ _ => unfold audio_writeUInt32BE
      | |- post (audio_set _ _) _ _ _ => unfold audio_set
      | |- post (nonce_writeUInt32BE _ _) _ _ _ => unfold nonce_writeUInt32BE
      | |- post (secretbox_into_audio _ _ _ _) _ _ _ => unfold secretbox_into_audio
      | |- post (of_option ?o _) _ _ _ =>
          let H := fresh "Ho" in destruct o eqn:H; unfold of_option
      | |- post (match ?o with Some _ => _ | None => _ end) _ _ _ =>
          let H := fresh "Ho" in destruct o eqn:H
      end ];
  sim.

Lemma writeUInt16BE_length (buf b : list Z) (v : Z) (off : nat) :
  writeUInt16BE buf v off = Some b -> length b = length buf.
Proof.
  unfold writeUInt16BE. destruct (_ && _); [apply buf_set_length | discriminate].
Qed.

Lemma writeUInt32BE_length (buf b : list Z) (v : Z) (off : nat) :
  writeUInt32BE buf v off = Some b -> length b = length buf.
Proof.
  unfold writeUInt32BE. destruct (_ && _); [apply buf_set_length | discriminate].
Qed.

Ltac frame_done :=
  repeat split; sim; try reflexivity;
  repeat match goal with
         | H : buf_set _ _ _ = Some _ |- _ => apply buf_set_length in H
         end;
  congruence.

Lemma encrypt_packet_frame (c : nat) (mode : Z) (d : ConnectionData)
      (payload key : list Z) (w : World) :
  post (encrypt_packet crypto_secretbox_easy randombytes_buf c mode d payload key)
       (fun _ => encrypt_frame c mode d w) (fun _ => encrypt_frame c mode d w) w.
Proof.
  unfold encrypt_packet, encrypt_frame.
  destruct (mode =? LITE) eqn:E1; [|destruct (mode =? SUFFIX) eqn:E2;
                                    [|destruct (mode =? DEFAULT) eqn:E3]].
  - repeat op_step; frame_done.
  - repeat op_step; frame_done.
  - repeat op_step; frame_done.
  - repeat op_step; frame_done.
Qed.

Lemma resolve_mode_fields (d d1 : ConnectionData) (mode : Z) :
  resolve_mode d = Some (mode, d1) ->
  sequence d1 = sequence d /\ timestamp d1 = timestamp d /\ ssrc d1 = ssrc d
  /\ secretKey d1 = secretKey d /\ nonce d1 = nonce d
  /\ encryptionMode d1 = encryptionMode d
  /\ encryption_mode d1 = Some mode /\ mode <> 0.
Proof.
  unfold resolve_mode.
  assert (Hd : forall s, mode_of_string s <> 0).
  { intros s. unfold mode_of_string. repeat case_bool_decide; discriminate. }
  destruct (encryption_mode d) as [m|] eqn:Em.
  - destruct (m =? 0) eqn:E0.
    + destruct (encryptionMode d) as [s|] eqn:Es; [|discriminate].
      intros [= <- <-]. simpl. repeat split; auto.
    + intros [= <- <-]. apply Z.eqb_neq in E0. repeat split; auto.
  - destruct (encryptionMode d) as [s|] eqn:Es; [|discriminate].
    intros [= <- <-]. simpl. repeat split; auto.
Qed.

Lemma writeUInt16BE_fits (buf : list Z) (v : Z) (off : nat) :
  0 <= v <= 65535 -> (off + 2 <= length buf)%nat -> is_Some (writeUInt16BE buf v off).
Proof.
  intros Hv Hl. unfold writeUInt16BE.
  replace ((0 <=? v) && (v <=? 65535)) with true by (symmetry; apply andb_true_iff; lia).
  apply buf_set_fits. simpl. lia.
Qed.

Lemma writeUInt32BE_fits (buf : list Z) (v : Z) (off : nat) :
  0 <= v <= 4294967295 -> (off + 4 <= length buf)%nat -> is_Some (writeUInt32BE buf v off).
Proof.
  intros Hv Hl. unfold writeUInt32BE.
  replace ((0 <=? v) && (v <=? 4294967295)) with true by (symmetry; apply andb_true_iff; lia).
  apply buf_set_fits. simpl. lia.
Qed.

Lemma in_range_Some (v max : Z) : in_range (Some v) max = true -> 0 <= v <= max.
Proof. unfold in_range. rewrite andb_true_iff. lia. Qed.

Lemma audio_writeUInt16BE_post (v : Z) (off : nat) (w : World)
      (Q : unit -> World -> Prop) (R : Error -> World -> Prop) :
  0 <= v <= 65535 -> (off + 2 <= length (AUDIO_BUFFER (bufs w)))%nat ->
  (forall b, writeUInt16BE (AUDIO_BUFFER (bufs w)) v off = Some b ->
             Q tt (with_bufs (set_AUDIO_BUFFER b) w)) ->
  post (audio_writeUInt16BE v off) Q R w.
Proof.
  intros Hv Hl HQ. destruct (writeUInt16BE_fits _ v off Hv Hl) as [b Hb].
  unfold audio_writeUInt16BE. apply post_bind, post_gets. cbn beta. rewrite Hb.
  apply post_bind. unfold of_option. apply post_ret, post_modify. by apply HQ.
Qed.

Lemma audio_writeUInt32BE_post (v : Z) (off : nat) (w : World)
      (Q : unit -> World -> Prop) (R : Error -> World -> Prop) :
  0 <= v <= 4294967295 -> (off + 4 <= length (AUDIO_BUFFER (bufs w)))%nat ->
  (forall b, writeUInt32BE (AUDIO_BUFFER (bufs w)) v off = Some b ->
             Q tt (with_bufs (set_AUDIO_BUFFER b) w)) ->
  post (audio_writeUInt32BE v off) Q R w.
Proof.
  intros Hv Hl HQ. destruct (writeUInt32BE_fits _ v off Hv Hl) as [b Hb].
  unfold audio_writeUInt32BE. apply post_bind, post_gets. cbn beta. rewrite Hb.
  apply post_bind. unfold of_option. apply post_ret, post_modify. by apply HQ.
Qed.

Lemma send_connection_post (w : World) (c : nat) (isSilence : bool)
      (buffer : list Z) (frameSize : Z) :
  well_formed w -> 0 <= frameSize ->
  returns (send_connection crypto_secretbox_easy randombytes_buf buffer frameSize isSilence c)
          (fun _ => send_frame isSilence frameSize c w) w.
Proof.
  intros [Hlen Hwf] Hf. unfold send_connection, send_frame.
  op_step. op_step. op_step.
  destruct (conns w !! c) as [conn|] eqn:Hc.
  2:{ op_step. repeat split. symmetry. by apply alter_id'. }
  assert (Hkeep : forall w', tp w' = tp w -> clock w' = clock w ->
            length (AUDIO_BUFFER (bufs w')) = length (AUDIO_BUFFER (bufs w)) ->
            conns w' = conns w ->
            codec_effect (external_encrypt (tp w)) isSilence frameSize conn = conn ->
            tp w' = tp w /\ clock w' = clock w
            /\ length (AUDIO_BUFFER (bufs w')) = length (AUDIO_BUFFER (bufs w))
            /\ conns w' = alter (codec_effect (external_encrypt (tp w)) isSilence frameSize)
                            c (conns w)).
  { intros w' ? ? ? Hcs Hce. repeat split; auto. rewrite Hcs. symmetry.
    apply alter_id. intros x Hx. congruence. }
  assert (Hrange : connection_in_range conn = true) by (eapply Hwf; eauto).
  destruct (bool_decide (status conn = Ready)) eqn:Hs; cbn [negb].
  2:{ op_step. apply Hkeep; auto. unfold codec_effect. by rewrite Hs. }
  op_step. op_step.
  destruct (networking conn) as [[[d|] [u|]]|] eqn:Hn; cbn [connectionData udp];
    try (op_step; apply Hkeep; auto; unfold codec_effect; by rewrite Hs, Hn).
  destruct (external_encrypt (tp w) && negb isSilence) eqn:He.
  { op_step. op_step. apply Hkeep; auto. unfold codec_effect. by rewrite Hs, Hn, He. }
  assert (Hset : set_connectionData d conn = conn).
  { unfold set_connectionData. rewrite Hn. by destruct conn; simpl in *; subst. }
  destruct (resolve_mode d) as [[mode d1]|] eqn:Hm.
  2:{ op_step. apply Hkeep; auto. unfold codec_effect. rewrite Hs, Hn, He.
      unfold advance. by rewrite Hm. }
  destruct (resolve_mode_fields _ _ _ Hm) as (Eseq & Ets & Essrc & Ekey & Enonce & _).
  unfold connection_in_range in Hrange. rewrite Hn in Hrange.
  unfold counters_in_range in Hrange. rewrite !andb_true_iff in Hrange.
  destruct Hrange as [[Rseq Rts] Rssrc].
  assert (Heff : codec_effect (external_encrypt (tp w)) isSilence frameSize conn
                 = set_connectionData (advance frameSize d) conn).
  { unfold codec_effect. by rewrite Hs, Hn, He. }
  op_step. op_step.
  destruct (sequence d1) as [seq|] eqn:Hseq, (timestamp d1) as [ts|] eqn:Hts,
           (ssrc d1) as [ssrc_|] eqn:Hssrc, (secretKey d1) as [key|] eqn:Hkey.
  all: try (repeat op_step; repeat split; auto;
            apply alter_ext; intros x Hx; rewrite Hc in Hx; injection Hx as <-;
            rewrite Heff; unfold advance; rewrite Hm, ?Hseq, ?Hts, ?Hssrc, ?Hkey;
            reflexivity).
  rewrite <- Eseq in Rseq. rewrite <- Ets in Rts. rewrite <- Essrc in Rssrc.
  apply in_range_Some in Rseq, Rts, Rssrc.
  pose proof (next_sequence_range seq Rseq) as Nseq.
  pose proof (next_timestamp_range ts frameSize Rts Hf) as Nts.
  set (d2 := set_timestamp (Some (next_timestamp ts frameSize))
               (set_sequence (Some (next_sequence seq)) d1)).
  op_step. op_step. op_step. op_step. op_step. sim.
  apply post_bind, audio_writeUInt16BE_post; [lia | sim; lia |].
  intros b1 Hb1. apply writeUInt16BE_length in Hb1. sim.
  apply post_bind, audio_writeUInt32BE_post; [lia | sim; lia |].
  intros b2 Hb2. apply writeUInt32BE_length in Hb2. sim.
  apply post_bind, audio_writeUInt32BE_post; [lia | sim; lia |].
  intros b3 Hb3. apply writeUInt32BE_length in Hb3. sim.
  match goal with |- post _ _ _ ?W => set (w3 := W) end.
  assert (Hfin : forall s', encrypt_frame c mode d2 w3 s' ->
            tp s' = tp w /\ clock s' = clock w
            /\ length (AUDIO_BUFFER (bufs s')) = length (AUDIO_BUFFER (bufs w))
            /\ conns s' = alter (codec_effect (external_encrypt (tp w)) isSilence frameSize)
                            c (conns w)).
  { intros s' (Ht & Hcl & Hl & Hcs). subst w3. sim.
    repeat split; [congruence | congruence | congruence |].
    rewrite Hcs.
    assert (Hadv : advance frameSize d
                   = if mode =? LITE then set_nonce (Some (next_nonce (nonce d2))) d2 else d2).
    { unfold advance. rewrite Hm, Hseq, Hts, Hssrc, Hkey. reflexivity. }
    destruct (mode =? LITE); rewrite !alter_set_connectionData_twice;
      apply alter_ext; intros x Hx; rewrite Hc in Hx; injection Hx as <-;
      by rewrite Heff, Hadv. }
  apply post_try_catch, post_bind.
  eapply post_mono; [apply encrypt_packet_frame | |].
  - intros a s' HF. apply Hfin in HF. repeat op_step. exact HF.
  - intros e s' HF. apply Hfin in HF. repeat op_step. exact HF.
Qed.


(** ** The whole [send] *)

Lemma advance_fields (f : Z) (d : ConnectionData) :
  data_ready d = true ->
  exists mode d1,
    resolve_mode d = Some (mode, d1)
    /\ resolve_mode (advance f d) = Some (mode, advance f d)
    /\ data_ready (advance f d) = true
    /\ sequence (advance f d) = next_sequence <$> sequence d
    /\ timestamp (advance f d) = (fun t => next_timestamp t f) <$> timestamp d
    /\ ssrc (advance f d) = ssrc d
    /\ secretKey (advance f d) = secretKey d
    /\ nonce (advance f d) = if mode =? LITE then Some (next_nonce (nonce d)) else nonce d.
Proof.
  unfold data_ready at 1. rewrite !andb_true_iff, !bool_decide_eq_true.
  intros [[[[[[mode d1] Hm] [seq Hseq]] [ts Hts]] [ss Hss]] [key Hkey]].
  destruct (resolve_mode_fields _ _ _ Hm) as (E1 & E2 & E3 & E4 & E5 & E6 & E7 & E8).
  assert (Hadv : advance f d
                 = let d2 := set_timestamp (Some (next_timestamp ts f))
                               (set_sequence (Some (next_sequence seq)) d1) in
                   if mode =? LITE then set_nonce (Some (next_nonce (nonce d2))) d2 else d2).
  { unfold advance. rewrite Hm, E1, E2, E3, E4, Hseq, Hts, Hss, Hkey. reflexivity. }
  assert (Hres : resolve_mode (advance f d) = Some (mode, advance f d)).
  { rewrite Hadv. unfold resolve_mode. apply Z.eqb_neq in E8.
    destruct (mode =? LITE); simpl; by rewrite E7, E8. }
  exists mode, d1. split; [exact Hm|]. split; [exact Hres|].
  split; [|split; [|split; [|split; [|split]]]].
  - unfold data_ready. rewrite Hres.
    rewrite !andb_true_iff, !bool_decide_eq_true. rewrite Hadv. simpl.
    destruct (mode =? LITE); simpl; rewrite ?E3, ?E4, ?Hss, ?Hkey; eauto 10.
  - rewrite Hadv, Hseq. simpl. by destruct (mode =? LITE).
  - rewrite Hadv, Hts. simpl. by destruct (mode =? LITE).
  - rewrite Hadv. simpl. by destruct (mode =? LITE).
  - rewrite Hadv. simpl. by destruct (mode =? LITE).
  - rewrite Hadv. simpl. destruct (mode =? LITE); simpl; congruence.
Qed.

Lemma advance_in_range (f : Z) (d : ConnectionData) :
  0 <= f -> counters_in_range d = true -> counters_in_range (advance f d) = true.
Proof.
  intros Hf. unfold counters_in_range. rewrite !andb_true_iff.
  intros [[Rs Rt] Rss]. unfold advance.
  destruct (resolve_mode d) as [[mode d1]|] eqn:Hm; [|auto].
  destruct (resolve_mode_fields _ _ _ Hm) as (E1 & E2 & E3 & E4 & E5 & E6 & E7 & E8).
  rewrite <- E1 in Rs. rewrite <- E2 in Rt. rewrite <- E3 in Rss.
  destruct (sequence d1) as [seq|] eqn:Hseq, (timestamp d1) as [ts|] eqn:Hts,
           (ssrc d1) as [ss|] eqn:Hss, (secretKey d1) as [key|] eqn:Hkey;
    rewrite ?Hseq, ?Hts, ?Hss; auto.
  apply in_range_Some in Rs, Rt.
  pose proof (next_sequence_range seq Rs). pose proof (next_timestamp_range ts f Rt Hf).
  destruct (mode =? LITE); simpl; rewrite Hss;
    (split; [split|]; [apply andb_true_iff; lia | apply andb_true_iff; lia | exact Rss]).
Qed.

Lemma codec_effect_in_range (ee sil : bool) (f : Z) (conn : VoiceConnection) :
  0 <= f -> connection_in_range conn = true ->
  connection_in_range (codec_effect ee sil f conn) = true.
Proof.
  intros Hf Hr. unfold codec_effect.
  destruct (bool_decide (status conn = Ready)); [|exact Hr].
  destruct (networking conn) as [[[d|] [u|]]|] eqn:Hn; try exact Hr.
  destruct (ee && negb sil); [exact Hr|].
  unfold connection_in_range, set_connectionData. rewrite Hn. simpl.
  apply advance_in_range; [exact Hf|].
  unfold connection_in_range in Hr. by rewrite Hn in Hr.
Qed.

Lemma send_frame_well_formed (sil : bool) (f : Z) (c : nat) (w w' : World) :
  0 <= f -> well_formed w -> send_frame sil f c w w' -> well_formed w'.
Proof.
  intros Hf [Hl Hwf] (_ & _ & Hl' & Hc). split; [lia|].
  rewrite Hc. intros k x Hk. apply lookup_alter_Some in Hk.
  destruct Hk as [[-> (y & Hy & ->)] | [_ Hk]].
  - apply codec_effect_in_range; [exact Hf | by eapply Hwf].
  - by eapply Hwf.
Qed.

(** [send] never throws on a well-formed world; it leaves the player
    and the clock alone and applies [codec_effect] to a connection once
    for each of its subscriptions. *)
Lemma send_post (w : World) (buffer : list Z) (f : Z) (sil : bool) :
  well_formed w -> 0 <= f ->
  returns (send crypto_secretbox_easy randombytes_buf buffer f sil)
    (fun _ w' =>
       tp w' = tp w /\ clock w' = clock w /\ well_formed w'
       /\ forall c, conns w' !! c
                    = Nat.iter (subscribed w c) (codec_effect (external_encrypt (tp w)) sil f)
                        <$> conns w !! c) w.
Proof.
  intros Hwf Hf. unfold send. do 6 op_step.
  set (F := codec_effect (external_encrypt (tp w)) sil f).
  set (all := map connection (subscriptions (tp w))).
  set (occ := fun (c : nat) (cs : list nat) => length (List.filter (Nat.eqb c) cs)).
  eapply post_mono;
    [ apply (post_for_each all _
        (fun rest s => tp s = tp w /\ clock s = clock w /\ well_formed s
           /\ forall c, Nat.iter (occ c rest) F <$> conns s !! c
                        = Nat.iter (occ c all) F <$> conns w !! c)
        (fun _ _ => False)) | | auto ].
  - repeat split; auto; apply Hwf.
  - intros x rest s' (Ht & Hcl & Hw' & Hc).
    eapply post_mono; [apply send_connection_post; [exact Hw' | exact Hf] | | auto].
    intros [] s'' Hfr. pose proof (send_frame_well_formed _ _ _ _ _ Hf Hw' Hfr) as Hw''.
    destruct Hfr as (Ht' & Hcl' & _ & Hcs).
    repeat split; [congruence | congruence | apply Hw'' | apply Hw'' |].
    intros c. rewrite <- Hc. rewrite Hcs, Ht. fold F.
    unfold occ. simpl. destruct (Nat.eqb_spec c x) as [->|Hne].
    + rewrite lookup_alter_eq. cbn [length].
      destruct (conns s' !! x) as [y|]; [|reflexivity].
      cbn [fmap option_fmap option_map]. by rewrite Nat.iter_succ_r.
    + by rewrite lookup_alter_ne.
  - intros [] s' (Ht & Hcl & Hw' & Hc). repeat split; auto; try apply Hw'.
    intros c. unfold subscribed. fold all. fold F.
    change (length (List.filter (Nat.eqb c) all)) with (occ c all).
    rewrite <- (Hc c). unfold occ. cbn [List.filter length Nat.iter nat_rect].
    by destruct (conns s' !! c).
Qed.


Lemma data_of_lookup (w : World) (c : nat) (conn : VoiceConnection) :
  conns w !! c = Some conn ->
  data_of w c = match networking conn with
                | Some n => connectionData n
                | None => None
                end.
Proof. intros H. unfold data_of. by rewrite H. Qed.

(** One [send] on a connection that is subscribed once and reaches the
    codec: its data are advanced once, and it still reaches the codec. *)
Lemma send_advances (w : World) (c : nat) (buffer : list Z) (f : Z) (sil : bool) :
  well_formed w -> 0 <= f -> reaches_codec w c sil -> subscribed w c = 1%nat ->
  exists w' d,
    send crypto_secretbox_easy randombytes_buf buffer f sil w = (Returned tt, w')
    /\ tp w' = tp w /\ clock w' = clock w
    /\ well_formed w' /\ reaches_codec w' c sil /\ subscribed w' c = 1%nat
    /\ data_of w c = Some d /\ data_of w' c = Some (advance f d).
Proof.
  intros Hwf Hf (conn & d & u & Hc & Hs & Hn & He & Hr) Hsub.
  destruct (proj1 (returns_eq _ _ _) (send_post w buffer f sil Hwf Hf))
    as ([] & w' & Hrun & Ht & Hcl & Hwf' & Hcs).
  exists w', d. split; [exact Hrun|].
  specialize (Hcs c). rewrite Hsub, Hc in Hcs. simpl in Hcs.
  assert (Heff : codec_effect (external_encrypt (tp w)) sil f conn
                 = set_connectionData (advance f d) conn).
  { unfold codec_effect. rewrite Hs, Hn, He. by rewrite bool_decide_eq_true_2. }
  rewrite Heff in Hcs.
  destruct (advance_fields f d Hr) as (mode & d1 & _ & _ & Hr' & _).
  split; [exact Ht|]. split; [exact Hcl|]. split; [exact Hwf'|].
  split; [|split; [|split]].
  - exists (set_connectionData (advance f d) conn), (advance f d), u.
    unfold set_connectionData. rewrite Hn. simpl. rewrite Ht.
    unfold set_connectionData in Hcs. rewrite Hn in Hcs. auto.
  - unfold subscribed in *. by rewrite Ht.
  - rewrite (data_of_lookup _ _ _ Hc). by rewrite Hn.
  - rewrite (data_of_lookup _ _ _ Hcs). unfold set_connectionData. by rewrite Hn.
Qed.


Lemma sequence_of_range (w : World) (c : nat) (seq : Z) :
  well_formed w -> sequence_of w c = Some seq -> 0 <= seq <= 65535.
Proof.
  intros [_ Hwf]. unfold sequence_of, data_of.
  destruct (conns w !! c) as [conn|] eqn:Hc; [|discriminate].
  specialize (Hwf c conn Hc). simpl in Hwf. unfold connection_in_range in Hwf.
  destruct (networking conn) as [[[d|] ?]|]; try discriminate.
  simpl. intros Hs. unfold counters_in_range in Hwf. rewrite Hs in Hwf.
  rewrite !andb_true_iff in Hwf. apply in_range_Some. tauto.
Qed.

Lemma timestamp_of_range (w : World) (c : nat) (ts : Z) :
  well_formed w -> timestamp_of w c = Some ts -> 0 <= ts <= 4294967295.
Proof.
  intros [_ Hwf]. unfold timestamp_of, data_of.
  destruct (conns w !! c) as [conn|] eqn:Hc; [|discriminate].
  specialize (Hwf c conn Hc). simpl in Hwf. unfold connection_in_range in Hwf.
  destruct (networking conn) as [[[d|] ?]|]; try discriminate.
  simpl. intros Hs. unfold counters_in_range in Hwf. rewrite Hs in Hwf.
  rewrite !andb_true_iff in Hwf. apply in_range_Some. tauto.
Qed.

Lemma iter_next_sequence (n : nat) (s : Z) :
  0 <= s <= 65535 -> Nat.iter n next_sequence s = (s + Z.of_nat n) mod 65536.
Proof.
  intros Hs. induction n as [|n IH].
  - simpl. rewrite Z.add_0_r, Z.mod_small; lia.
  - rewrite Nat.iter_succ, IH.
    rewrite next_sequence_mod by (pose proof (Z.mod_pos_bound (s + Z.of_nat n) 65536); lia).
    rewrite Zplus_mod_idemp_l. f_equal. lia.
Qed.

Lemma send_times_sequence (n : nat) (w : World) (c : nat) (seq : Z)
      (buffer : list Z) (f : Z) (sil : bool) :
  well_formed w -> 0 <= f -> reaches_codec w c sil -> subscribed w c = 1%nat ->
  sequence_of w c = Some seq ->
  exists w',
    send_times crypto_secretbox_easy randombytes_buf n buffer f sil w = (Returned tt, w')
    /\ sequence_of w' c = Some (Nat.iter n next_sequence seq).
Proof.
  revert w seq. induction n as [|n IH]; intros w seq Hwf Hf Hr Hsub Hseq.
  - exists w. split; [reflexivity | exact Hseq].
  - destruct (send_advances w c buffer f sil Hwf Hf Hr Hsub)
      as (w1 & d & Hrun & _ & _ & Hwf1 & Hr1 & Hsub1 & Hd & Hd1).
    assert (Hseq1 : sequence_of w1 c = Some (next_sequence seq)).
    { unfold sequence_of in *. rewrite Hd in Hseq. rewrite Hd1.
      destruct Hr as (conn & d' & u & Hc & _ & Hn & _ & Hrd).
      rewrite (data_of_lookup _ _ _ Hc), Hn in Hd. injection Hd as ->.
      destruct (advance_fields f d Hrd) as (_ & _ & _ & _ & _ & Es & _).
      rewrite Es, Hseq. reflexivity. }
    destruct (IH w1 (next_sequence seq) Hwf1 Hf Hr1 Hsub1 Hseq1) as (w' & Hrun' & Hseq').
    exists w'. split.
    + simpl. unfold bind. rewrite Hrun. exact Hrun'.
    + rewrite Hseq'. by rewrite Nat.iter_succ_r.
Qed.

(** C6. On a connection the codec sends to, every [send] advances the
    sequence counter by one modulo 65536: it goes from 65535 to 0, it
    stays within 0..65535, and after [n] sends it holds
    [(seq + n) mod 65536], so that it is back at its starting value
    after 65536 sends and at no earlier send. *)
Theorem sequence_counter_period (w : World) (c : nat) (seq : Z) (n : nat)
        (buffer : list Z) (frameSize : Z) (isSilence : bool) :
  well_formed w -> 0 <= frameSize ->
  reaches_codec w c isSilence -> subscribed w c = 1%nat ->
  sequence_of w c = Some seq ->
  exists w' seq',
    send_times crypto_secretbox_easy randombytes_buf n buffer frameSize isSilence w
    = (Returned tt, w')
    /\ sequence_of w' c = Some seq'
    /\ seq' = (seq + Z.of_nat n) mod 65536
    /\ 0 <= seq' <= 65535
    /\ (n = 1%nat -> seq' = if seq =? 65535 then 0 else seq + 1)
    /\ (Z.of_nat n = 65536 -> seq' = seq)
    /\ (0 < Z.of_nat n < 65536 -> seq' <> seq).
Proof.
  intros Hwf Hf Hr Hsub Hseq.
  pose proof (sequence_of_range w c seq Hwf Hseq) as Hrange.
  destruct (send_times_sequence n w c seq buffer frameSize isSilence Hwf Hf Hr Hsub Hseq)
    as (w' & Hrun & Hseq').
  rewrite iter_next_sequence in Hseq' by exact Hrange.
  exists w', ((seq + Z.of_nat n) mod 65536).
  split; [exact Hrun|]. split; [exact Hseq'|]. split; [reflexivity|].
  split; [|split; [|split]].
  - pose proof (Z.mod_pos_bound (seq + Z.of_nat n) 65536). lia.
  - intros ->. change (Z.of_nat 1) with 1.
    destruct (seq =? 65535) eqn:E.
    + apply Z.eqb_eq in E. subst. reflexivity.
    + apply Z.eqb_neq in E. rewrite Z.mod_small; lia.
  - intros ->. rewrite <- (Z.mul_1_l 65536) at 1.
    rewrite Z_mod_plus_full. apply Z.mod_small. lia.
  - intros Hn. Z.div_mod_to_equations. lia.
Qed.

(** C1, amended. On a connection the codec sends to, a [send] with frame
    size [f >= 0] sets the timestamp to [old + f] when that does not
    exceed 4294967295 and to 0 otherwise.  This is [(old + f) mod 2^32]
    as long as [old + f <= 2^32] and differs from it when
    [2^32 < old + f < 2^33]; from 4294967295 every [f >= 1] leads to 0. *)
Theorem timestamp_after_send (w : World) (c : nat) (ts : Z)
        (buffer : list Z) (frameSize : Z) (isSilence : bool) :
  well_formed w -> 0 <= frameSize ->
  reaches_codec w c isSilence -> subscribed w c = 1%nat ->
  timestamp_of w c = Some ts ->
  exists w' ts',
    send crypto_secretbox_easy randombytes_buf buffer frameSize isSilence w
    = (Returned tt, w')
    /\ timestamp_of w' c = Some ts'
    /\ (ts + frameSize <= 4294967295 -> ts' = ts + frameSize)
    /\ (4294967295 < ts + frameSize -> ts' = 0)
    /\ (ts + frameSize <= 4294967296 -> ts' = (ts + frameSize) mod 4294967296)
    /\ (4294967296 < ts + frameSize < 8589934592 ->
        ts' <> (ts + frameSize) mod 4294967296)
    /\ (ts = 4294967295 -> 1 <= frameSize -> ts' = 0).
Proof.
  intros Hwf Hf Hr Hsub Hts.
  pose proof (timestamp_of_range w c ts Hwf Hts) as Hrange.
  destruct (send_advances w c buffer frameSize isSilence Hwf Hf Hr Hsub)
    as (w' & d & Hrun & _ & _ & _ & _ & _ & Hd & Hd').
  assert (Hts' : timestamp_of w' c = Some (next_timestamp ts frameSize)).
  { unfold timestamp_of in *. rewrite Hd in Hts. rewrite Hd'.
    destruct Hr as (conn & d0 & u & Hc & _ & Hn & _ & Hrd).
    rewrite (data_of_lookup _ _ _ Hc), Hn in Hd. injection Hd as ->.
    destruct (advance_fields frameSize d Hrd) as (_ & _ & _ & _ & _ & _ & Et & _).
    rewrite Et, Hts. reflexivity. }
  exists w', (next_timestamp ts frameSize).
  split; [exact Hrun|]. split; [exact Hts'|].
  unfold next_timestamp.
  destruct (ts + frameSize >? 4294967295) eqn:E.
  - apply Z.gtb_lt in E. repeat split; try lia.
    + intros H0. assert (ts + frameSize = 4294967296) as -> by lia. reflexivity.
    + intros H0. Z.div_mod_to_equations. lia.
  - rewrite Z.gtb_ltb in E. apply Z.ltb_ge in E. repeat split; try lia.
    intros _. rewrite Z.mod_small; lia.
Qed.


(** ** LITE mode *)

Lemma writeUInt32BE_at_0 (buf : list Z) (v : Z) :
  0 <= v <= 4294967295 -> (4 <= length buf)%nat ->
  writeUInt32BE buf v 0 = Some (be32 v ++ drop 4 buf).
Proof.
  intros Hv Hl. unfold writeUInt32BE.
  replace ((0 <=? v) && (v <=? 4294967295)) with true by (symmetry; apply andb_true_iff; lia).
  unfold buf_set. simpl length.
  destruct (0 + 4 <=? length buf)%nat eqn:E; [reflexivity|].
  apply Nat.leb_gt in E. lia.
Qed.

Lemma send_connection_lite (w : World) (c : nat) (conn : VoiceConnection)
      (d d1 : ConnectionData) (u : Udp) (key : list Z)
      (buffer : list Z) (f : Z) (sil : bool) :
  well_formed w -> 0 <= f ->
  length (CONNECTION_NONCE (bufs w)) = 24%nat ->
  conns w !! c = Some conn -> status conn = Ready ->
  networking conn = Some (mkNet (Some d) (Some u)) ->
  external_encrypt (tp w) && negb sil = false ->
  resolve_mode d = Some (LITE, d1) ->
  data_ready d = true -> secretKey d = Some key ->
  0 <= default 0 (nonce d) <= 4294967295 ->
  returns (send_connection crypto_secretbox_easy randombytes_buf buffer f sil c)
    (fun _ w' =>
       exists N e,
         nonce_of w' c = Some (next_nonce (nonce d))
         /\ length N = 24%nat /\ take 4 N = be32 (next_nonce (nonce d))
         /\ trace w' = trace w ++ [(clock w, SetSpeaking c);
                                   (clock w, Encrypt buffer N key);
                                   (clock w, e)]
         /\ lite_outcome crypto_secretbox_easy c buffer key N e) w.
Proof.
  intros [Hlen Hwf] Hf HN Hc Hs Hn He Hm Hr Hkey Hnonce.
  assert (Hrange : connection_in_range conn = true) by (eapply Hwf; eauto).
  unfold connection_in_range in Hrange. rewrite Hn in Hrange.
  unfold counters_in_range in Hrange. rewrite !andb_true_iff in Hrange.
  destruct Hrange as [[Rseq Rts] Rssrc].
  destruct (resolve_mode_fields _ _ _ Hm) as (Eseq & Ets & Essrc & Ekey & Enonce & _).
  unfold data_ready in Hr. rewrite !andb_true_iff, !bool_decide_eq_true in Hr.
  destruct Hr as [[[[_ [seq Hseq]] [ts Hts]] [ss Hss]] _].
  rewrite Hseq in Rseq. rewrite Hts in Rts. rewrite Hss in Rssrc.
  apply in_range_Some in Rseq, Rts, Rssrc.
  pose proof (next_sequence_range seq Rseq) as Nseq.
  pose proof (next_timestamp_range ts f Rts Hf) as Nts.
  assert (Nn : 0 <= next_nonce (nonce d) <= 4294967295).
  { rewrite next_nonce_mod by exact Hnonce.
    pose proof (Z.mod_pos_bound (default 0 (nonce d) + 1) 4294967296). lia. }
  unfold send_connection. op_step. op_step. op_step. rewrite Hc.
  rewrite Hs. rewrite bool_decide_eq_true_2 by reflexivity. cbn [negb].
  op_step. op_step. op_step. rewrite Hn. cbn [connectionData udp]. rewrite He, Hm.
  op_step. op_step. op_step.
  rewrite Eseq, Ets, Essrc, Ekey, Hseq, Hts, Hss, Hkey.
  set (d2 := set_timestamp (Some (next_timestamp ts f))
               (set_sequence (Some (next_sequence seq)) d1)).
  op_step. op_step. op_step.
  apply post_bind, audio_writeUInt16BE_post; [lia | sim; lia |].
  intros b1 Hb1. apply writeUInt16BE_length in Hb1. sim.
  apply post_bind, audio_writeUInt32BE_post; [lia | sim; lia |].
  intros b2 Hb2. apply writeUInt32BE_length in Hb2. sim.
  apply post_bind, audio_writeUInt32BE_post; [lia | sim; lia |].
  intros b3 Hb3. apply writeUInt32BE_length in Hb3. sim.
  assert (Hd2 : nonce d2 = nonce d) by (subst d2; simpl; exact Enonce).
  set (N := be32 (next_nonce (nonce d)) ++ drop 4 (CONNECTION_NONCE (bufs w))).
  assert (HlenN : length N = 24%nat).
  { subst N. rewrite length_app, length_drop, HN. reflexivity. }
  assert (Htake : take 4 N = be32 (next_nonce (nonce d))) by reflexivity.
  assert (Hlook : forall m : gmap nat VoiceConnection,
            m !! c = Some conn ->
            match alter (set_connectionData (set_nonce (Some (next_nonce (nonce d))) d2)) c
                    (alter (set_connectionData d2) c (alter (set_connectionData d1) c m)) !! c
            with
            | Some x => match networking x with
                        | Some n => connectionData n
                        | None => None
                        end
            | None => None
            end = Some (set_nonce (Some (next_nonce (nonce d))) d2)).
  { intros m Hm'. rewrite !lookup_alter_eq, Hm'. simpl. by rewrite Hn. }
  apply post_try_catch. unfold encrypt_packet.
  rewrite Z.eqb_refl. rewrite Hd2.
  repeat op_step.
  all: match goal with
       | H : writeUInt32BE (CONNECTION_NONCE _) _ 0 = _ |- _ =>
           rewrite (writeUInt32BE_at_0 _ _ Nn) in H by (rewrite HN; lia);
           fold N in H; first [discriminate H | injection H as <-]
       end.
  all: match goal with
       | |- context [(_, ConsoleError _)] =>
           exists N, (ConsoleError "Encryption/Send error:");
           unfold nonce_of, data_of; sim; rewrite (Hlook _ Hc); simpl;
           repeat split; auto; [by rewrite <- !app_assoc | by left]
       | _ => idtac
       end.
  lazymatch goal with
  | Hb4 : buf_set _ ?ct 12 = Some ?b4,
    Hb5 : buf_set ?b4 _ _ = Some ?b5 |- _ =>
      exists N, (UdpSend c (take (12 + length ct + 4) b5));
      unfold nonce_of, data_of; sim; rewrite (Hlook _ Hc); cbn [nonce set_nonce];
      repeat split; auto; [by rewrite <- !app_assoc|];
      right; exists (take 12 b3), ct; split; [assumption|]; split;
      [ rewrite length_take; lia
      | f_equal; apply buf_set_take in Hb4, Hb5;
        rewrite Htake in Hb5; change (length (be32 _)) with 4%nat in Hb5;
        rewrite Hb5, Hb4, Htake; by rewrite <- app_assoc ]
  end.
Qed.

(** C5. A [send] to a connection in LITE mode advances the 32-bit nonce
    counter by one, from 4294967295 to 0, before it calls the encryption
    primitive: the 24-byte nonce buffer [N] handed to the primitive
    starts with the big-endian bytes of the new counter, and the packet
    that is sent ends, after the ciphertext, with the first four bytes
    of [N].  This holds of the loop body of [send] for each such
    connection, and so of the whole [send] of a player with one
    subscription. *)
Theorem lite_nonce_appended (w : World) (c : nat) (d : ConnectionData)
        (key buffer : list Z) (frameSize : Z) (isSilence : bool) :
  well_formed w -> 0 <= frameSize ->
  length (CONNECTION_NONCE (bufs w)) = 24%nat ->
  reaches_codec w c isSilence -> data_of w c = Some d ->
  (exists d1, resolve_mode d = Some (LITE, d1)) ->
  secretKey d = Some key ->
  0 <= default 0 (nonce d) <= 4294967295 ->
  (exists w' N e,
     send_connection crypto_secretbox_easy randombytes_buf buffer frameSize isSilence c w
     = (Returned tt, w')
     /\ nonce_of w' c = Some ((default 0 (nonce d) + 1) mod 4294967296)
     /\ length N = 24%nat
     /\ take 4 N = be32 ((default 0 (nonce d) + 1) mod 4294967296)
     /\ trace w' = trace w ++ [(clock w, SetSpeaking c);
                               (clock w, Encrypt buffer N key);
                               (clock w, e)]
     /\ lite_outcome crypto_secretbox_easy c buffer key N e)
  /\ (subscriptions (tp w) = [mkSub c] ->
      exists w' N e,
        send crypto_secretbox_easy randombytes_buf buffer frameSize isSilence w
        = (Returned tt, w')
        /\ nonce_of w' c = Some ((default 0 (nonce d) + 1) mod 4294967296)
        /\ length N = 24%nat
        /\ take 4 N = be32 ((default 0 (nonce d) + 1) mod 4294967296)
        /\ trace w' = trace w ++ [(clock w, SendCall buffer frameSize isSilence);
                                  (clock w, SetSpeaking c);
                                  (clock w, Encrypt buffer N key);
                                  (clock w, e)]
        /\ lite_outcome crypto_secretbox_easy c buffer key N e).
Proof.
  intros Hwf Hf HN (conn & d' & u & Hc & Hs & Hn & He & Hr) Hd [d1 Hm] Hkey Hnonce.
  rewrite (data_of_lookup _ _ _ Hc), Hn in Hd. injection Hd as ->.
  split.
  - pose proof (send_connection_lite w c conn d d1 u key buffer frameSize isSilence
                  Hwf Hf HN Hc Hs Hn He Hm Hr Hkey Hnonce) as Hpost.
    apply returns_eq in Hpost.
    destruct Hpost as ([] & w' & Hrun & N & e & Hnon & HlN & HtN & Htr & Hout).
    exists w', N, e. rewrite <- next_nonce_mod by exact Hnonce. auto 10.
  - intros Hsubs.
    set (w1 := with_event (SendCall buffer frameSize isSilence) w).
    assert (Hwf1 : well_formed w1) by exact Hwf.
    pose proof (send_connection_lite w1 c conn d d1 u key buffer frameSize isSilence
                  Hwf1 Hf HN Hc Hs Hn He Hm Hr Hkey Hnonce) as Hpost.
    apply returns_eq in Hpost.
    destruct Hpost as ([] & w' & Hrun & N & e & Hnon & HlN & HtN & Htr & Hout).
    exists w', N, e. rewrite <- next_nonce_mod by exact Hnonce.
    split.
    + unfold send, emit, bind, modify, gets. fold w1.
      change (subscriptions (tp w1)) with (subscriptions (tp w)). rewrite Hsubs.
      cbn [map connection for_each]. unfold bind. rewrite Hrun. reflexivity.
    + repeat split; auto. rewrite Htr. subst w1. sim.
      by rewrite <- app_assoc.
Qed.

(** ** The packet, in every mode *)

Lemma buf_set_None (buf data : list Z) (off : nat) :
  buf_set buf data off = None -> (length buf < off + length data)%nat.
Proof.
  unfold buf_set. destruct (off + length data <=? length buf)%nat eqn:E; [discriminate|].
  intros _. by apply Nat.leb_gt in E.
Qed.

Lemma buf_set_Some (buf data b : list Z) (off : nat) :
  buf_set buf data off = Some b -> (off + length data <= length buf)%nat.
Proof.
  unfold buf_set. destruct (off + length data <=? length buf)%nat eqn:E; [|discriminate].
  intros _. by apply Nat.leb_le in E.
Qed.

Lemma writeUInt16BE_take (buf b : list Z) (v : Z) (off : nat) :
  writeUInt16BE buf v off = Some b -> take (off + 2) b = take off buf ++ be16 v.
Proof.
  unfold writeUInt16BE. destruct (_ && _); [|discriminate].
  intros H. by apply buf_set_take in H.
Qed.

Lemma writeUInt32BE_take (buf b : list Z) (v : Z) (off : nat) :
  writeUInt32BE buf v off = Some b -> take (off + 4) b = take off buf ++ be32 v.
Proof.
  unfold writeUInt32BE. destruct (_ && _); [|discriminate].
  intros H. by apply buf_set_take in H.
Qed.

(** The three writes of the header. *)
Lemma header_written (buf b1 b2 b3 : list Z) (seq ts ssrc_ : Z) :
  take 2 buf = [128; 120] ->
  writeUInt16BE buf seq 2 = Some b1 ->
  writeUInt32BE b1 ts 4 = Some b2 ->
  writeUInt32BE b2 ssrc_ 8 = Some b3 ->
  take 12 b3 = rtp_header seq ts ssrc_.
Proof.
  intros H0 H1 H2 H3.
  apply writeUInt16BE_take in H1. apply writeUInt32BE_take in H2, H3.
  simpl in H1, H2, H3. change 12%nat with (8 + 4)%nat.
  simpl. rewrite H3, H2, H1, H0. reflexivity.
Qed.

Lemma header_constant (b : list Z) (seq ts ssrc_ : Z) :
  take 12 b = rtp_header seq ts ssrc_ -> take 2 b = [128; 120].
Proof.
  intros H. change 2%nat with (2 `min` 12)%nat.
  rewrite <- take_take, H. reflexivity.
Qed.

(** The packet that is cut out of the output buffer once ciphertext and
    suffix are in place. *)
Lemma packet_taken (b3 b4 b5 ct sfx : list Z) :
  buf_set b3 ct 12 = Some b4 ->
  buf_set b4 sfx (12 + length ct) = Some b5 ->
  take (12 + length ct + length sfx) b5 = take 12 b3 ++ ct ++ sfx.
Proof.
  intros H4 H5. apply buf_set_take in H4, H5. rewrite H5, H4.
  by rewrite <- app_assoc.
Qed.

Ltac packet_done Hhdr :=
  split;
  [ lazymatch goal with
    | |- _ ++ [(_, ?ev)] = _ ++ [_; _; (_, ?pe)] =>
        replace pe with ev; [by rewrite <- !app_assoc|]
    end;
    unfold packet_event;
    repeat match goal with
           | H : ?crypto _ _ _ = _ |- context [?crypto _ _ _] => rewrite H
           end;
    try reflexivity;
    lazymatch goal with
    | H4 : buf_set _ ?ct 12 = Some _, H5 : buf_set _ ?sfx (12 + length ?ct) = Some _ |- _ =>
        pose proof (packet_taken _ _ _ _ _ H4 H5) as Hpk;
        apply buf_set_Some in H5; apply buf_set_length in H4;
        replace (12 + length ct + length sfx <=? _)%nat with true
          by (symmetry; apply Nat.leb_le; lia);
        rewrite <- Hhdr, <- Hpk; repeat f_equal; lia
    | H4 : buf_set _ ?ct 12 = Some _, H5 : buf_set _ ?sfx (12 + length ?ct) = None |- _ =>
        apply buf_set_None in H5; apply buf_set_length in H4;
        replace (12 + length ct + length sfx <=? _)%nat with false
          by (symmetry; apply Nat.leb_gt; lia);
        reflexivity
    | H4 : buf_set _ ?ct 12 = Some _ |- _ =>
        pose proof (buf_set_take _ _ _ _ H4) as Hpk;
        apply buf_set_Some in H4;
        replace (12 + length ct + length (@nil Z) <=? _)%nat with true
          by (symmetry; apply Nat.leb_le; simpl; lia);
        rewrite app_nil_r, <- Hhdr, <- Hpk; reflexivity
    | H4 : buf_set _ ?ct 12 = None |- _ =>
        apply buf_set_None in H4;
        match goal with
        | |- context [(?n <=? ?m)%nat] =>
            replace (n <=? m)%nat with false by (symmetry; apply Nat.leb_gt; lia)
        end;
        reflexivity
    end
  | repeat match goal with
           | H : buf_set ?b _ ?off = Some ?b' |- take 2 ?b' = _ =>
               rewrite (buf_set_take_before _ _ _ _ 2 H) by lia
           end;
    exact (header_constant _ _ _ _ Hhdr) ].

Lemma returns_and {A} (m : M World Error A) (Q1 Q2 : A -> World -> Prop) (w : World) :
  returns m Q1 w -> returns m Q2 w ->
  returns m (fun a w' => Q1 a w' /\ Q2 a w') w.
Proof. unfold returns, post. destruct (m w) as [[a|e] w']; auto. Qed.

Lemma send_connection_trace (w : World) (c : nat) (conn : VoiceConnection)
      (d d1 : ConnectionData) (u : Udp) (key : list Z) (seq ts ss mode : Z)
      (buffer : list Z) (f : Z) (sil : bool) :
  well_formed w -> 0 <= f -> buffers_allocated (bufs w) ->
  conns w !! c = Some conn -> status conn = Ready ->
  networking conn = Some (mkNet (Some d) (Some u)) ->
  external_encrypt (tp w) && negb sil = false ->
  resolve_mode d = Some (mode, d1) -> cipher_mode mode ->
  sequence d = Some seq -> timestamp d = Some ts -> ssrc d = Some ss ->
  secretKey d = Some key ->
  (mode = LITE -> 0 <= default 0 (nonce d) <= 4294967295) ->
  (mode = SUFFIX -> length (randombytes_buf (rng w)) = 24%nat) ->
  returns (send_connection crypto_secretbox_easy randombytes_buf buffer f sil c)
    (fun _ w' =>
       let header := rtp_header (next_sequence seq) (next_timestamp ts f) ss in
       let N := cipher_nonce randombytes_buf mode w d header in
       trace w' = trace w
                  ++ [(clock w, SetSpeaking c);
                      (clock w, Encrypt buffer N key);
                      (clock w, packet_event crypto_secretbox_easy c buffer key N header
                                  (packet_suffix mode N) (length (AUDIO_BUFFER (bufs w))))]
       /\ take 2 (AUDIO_BUFFER (bufs w')) = [128; 120]) w.
Proof.
  intros [Hlen Hwf] Hf (HR & HN & HA & HB & H2) Hc Hs Hn He Hm Hmode Hseq Hts Hss Hkey Hnonce Hrand.
  assert (Hrange : connection_in_range conn = true) by (eapply Hwf; eauto).
  unfold connection_in_range in Hrange. rewrite Hn in Hrange.
  unfold counters_in_range in Hrange. rewrite !andb_true_iff in Hrange.
  destruct Hrange as [[Rseq Rts] Rssrc].
  destruct (resolve_mode_fields _ _ _ Hm) as (Eseq & Ets & Essrc & Ekey & Enonce & _).
  rewrite Hseq in Rseq. rewrite Hts in Rts. rewrite Hss in Rssrc.
  apply in_range_Some in Rseq, Rts, Rssrc.
  pose proof (next_sequence_range seq Rseq) as Nseq.
  pose proof (next_timestamp_range ts f Rts Hf) as Nts.
  unfold send_connection. op_step. op_step. op_step. rewrite Hc.
  rewrite Hs. rewrite bool_decide_eq_true_2 by reflexivity. cbn [negb].
  op_step. op_step. op_step. rewrite Hn. cbn [connectionData udp]. rewrite He, Hm.
  op_step. op_step. op_step.
  rewrite Eseq, Ets, Essrc, Ekey, Hseq, Hts, Hss, Hkey.
  set (d2 := set_timestamp (Some (next_timestamp ts f))
               (set_sequence (Some (next_sequence seq)) d1)).
  op_step. op_step. op_step.
  apply post_bind, audio_writeUInt16BE_post; [lia | sim; lia |].
  intros b1 Hb1. pose proof (writeUInt16BE_length _ _ _ _ Hb1) as Lb1. sim.
  apply post_bind, audio_writeUInt32BE_post; [lia | sim; lia |].
  intros b2 Hb2. pose proof (writeUInt32BE_length _ _ _ _ Hb2) as Lb2. sim.
  apply post_bind, audio_writeUInt32BE_post; [lia | sim; lia |].
  intros b3 Hb3. pose proof (writeUInt32BE_length _ _ _ _ Hb3) as Lb3. sim.
  pose proof (header_written _ _ _ _ _ _ _ H2 Hb1 Hb2 Hb3) as Hhdr.
  assert (Hd2 : nonce d2 = nonce d) by (subst d2; simpl; exact Enonce).
  apply post_try_catch. unfold encrypt_packet, cipher_nonce, packet_suffix.
  destruct Hmode as [-> | [-> | ->]].
  - rewrite Z.eqb_refl. specialize (Hnonce eq_refl).
    assert (Nn : 0 <= next_nonce (nonce d) <= 4294967295).
    { rewrite next_nonce_mod by exact Hnonce.
      pose proof (Z.mod_pos_bound (default 0 (nonce d) + 1) 4294967296). lia. }
    rewrite Hd2.
    set (N := be32 (next_nonce (nonce d)) ++ drop 4 (CONNECTION_NONCE (bufs w))).
    assert (Hsfx : length (take 4 N) = 4%nat) by reflexivity.
    repeat op_step.
    all: match goal with
         | H : writeUInt32BE (CONNECTION_NONCE _) _ 0 = _ |- _ =>
             rewrite (writeUInt32BE_at_0 _ _ Nn) in H by (rewrite HN; lia);
             fold N in H; first [discriminate H | injection H as <-]
         end.
    all: packet_done Hhdr.
  - change (SUFFIX =? LITE) with false. rewrite Z.eqb_refl. cbn match.
    specialize (Hrand eq_refl).
    repeat op_step.
    all: packet_done Hhdr.
  - change (DEFAULT =? LITE) with false. change (DEFAULT =? SUFFIX) with false.
    rewrite Z.eqb_refl. cbn match.
    repeat op_step.
    all: rewrite ?Hhdr in *.
    all: packet_done Hhdr.
Qed.

Lemma byte_of_div (v k : Z) :
  0 <= k -> byte_of v k = (v / 2 ^ (8 * k)) mod 256.
Proof.
  intros Hk. unfold byte_of.
  rewrite Z.shiftr_div_pow2 by lia.
  change 255 with (Z.ones 8). rewrite Z.land_ones by lia. reflexivity.
Qed.

Lemma be16_value (v : Z) : 0 <= v <= 65535 -> be_value (be16 v) = v.
Proof.
  intros Hv. unfold be_value, be16. simpl.
  rewrite !byte_of_div by lia. simpl Z.pow.
  Z.div_mod_to_equations. lia.
Qed.

Lemma be32_value (v : Z) : 0 <= v <= 4294967295 -> be_value (be32 v) = v.
Proof.
  intros Hv. unfold be_value, be32. simpl.
  rewrite !byte_of_div by lia. simpl Z.pow.
  Z.div_mod_to_equations. lia.
Qed.

Lemma byte_of_range (v k : Z) : 0 <= k -> 0 <= byte_of v k <= 255.
Proof.
  intros Hk. rewrite byte_of_div by exact Hk.
  pose proof (Z.mod_pos_bound (v / 2 ^ (8 * k)) 256). lia.
Qed.

(** The header is twelve bytes, and the receiver reads the counters
    back from it: bytes 2-3 are the sequence, bytes 4-7 the timestamp
    and bytes 8-11 the SSRC, big-endian. *)
Theorem rtp_header_decodes (seq ts ssrc_ : Z) :
  0 <= seq <= 65535 -> 0 <= ts <= 4294967295 -> 0 <= ssrc_ <= 4294967295 ->
  length (rtp_header seq ts ssrc_) = 12%nat
  /\ Forall (fun b => 0 <= b <= 255) (rtp_header seq ts ssrc_)
  /\ take 2 (rtp_header seq ts ssrc_) = [128; 120]
  /\ be_value (take 2 (drop 2 (rtp_header seq ts ssrc_))) = seq
  /\ be_value (take 4 (drop 4 (rtp_header seq ts ssrc_))) = ts
  /\ be_value (take 4 (drop 8 (rtp_header seq ts ssrc_))) = ssrc_.
Proof.
  intros Hs Ht Hx. split; [reflexivity|]. split.
  - unfold rtp_header, be16, be32. simpl.
    repeat constructor; try lia; apply byte_of_range; lia.
  - split; [reflexivity|].
    split; [exact (be16_value seq Hs)|].
    split; [exact (be32_value ts Ht) | exact (be32_value ssrc_ Hx)].
Qed.

(** A [send] of a player with one subscription, whose connection is
    ready and has what the codec needs: the counters advance, the
    encryption primitive is called once, with the nonce buffer of the
    mode, and what is sent is header, ciphertext and the suffix of the
    mode - or, when the primitive throws or the packet does not fit,
    nothing but a logged error. *)
Theorem send_packet_layout (w : World) (c : nat) (d d1 : ConnectionData)
        (key : list Z) (seq ts ss mode : Z) (buffer : list Z) (f : Z) (sil : bool) :
  well_formed w -> 0 <= f -> buffers_allocated (bufs w) ->
  subscriptions (tp w) = [mkSub c] ->
  reaches_codec w c sil -> data_of w c = Some d ->
  resolve_mode d = Some (mode, d1) -> cipher_mode mode ->
  sequence d = Some seq -> timestamp d = Some ts -> ssrc d = Some ss ->
  secretKey d = Some key ->
  (mode = LITE -> 0 <= default 0 (nonce d) <= 4294967295) ->
  (mode = SUFFIX -> length (randombytes_buf (rng w)) = 24%nat) ->
  let header := rtp_header (next_sequence seq) (next_timestamp ts f) ss in
  let N := cipher_nonce randombytes_buf mode w d header in
  exists w',
    send crypto_secretbox_easy randombytes_buf buffer f sil w = (Returned tt, w')
    /\ trace w' = trace w
                  ++ [(clock w, SendCall buffer f sil);
                      (clock w, SetSpeaking c);
                      (clock w, Encrypt buffer N key);
                      (clock w, packet_event crypto_secretbox_easy c buffer key N header
                                  (packet_suffix mode N) (Z.to_nat 8192))]
    /\ sequence_of w' c = Some (next_sequence seq)
    /\ timestamp_of w' c = Some (next_timestamp ts f)
    /\ nonce_of w' c = (if mode =? LITE then Some (next_nonce (nonce d)) else nonce d)
    /\ take 2 (AUDIO_BUFFER (bufs w')) = [128; 120].
Proof.
  intros Hwf Hf Hbuf Hsubs (conn & d' & u & Hc & Hs & Hn & He & Hr) Hd Hm Hmode
         Hseq Hts Hss Hkey Hnonce Hrand header N.
  rewrite (data_of_lookup _ _ _ Hc), Hn in Hd. injection Hd as ->.
  set (w1 := with_event (SendCall buffer f sil) w).
  assert (Hwf1 : well_formed w1) by exact Hwf.
  pose proof (returns_and _ _ _ _
                (send_connection_trace w1 c conn d d1 u key seq ts ss mode buffer f sil
                   Hwf1 Hf Hbuf Hc Hs Hn He Hm Hmode Hseq Hts Hss Hkey Hnonce Hrand)
                (send_connection_post w1 c sil buffer f Hwf1 Hf)) as Hpost.
  apply returns_eq in Hpost.
  destruct Hpost as ([] & w' & Hrun & (Htr & H2) & (_ & _ & _ & Hcs)).
  assert (Hdata : data_of w' c = Some (advance f d)).
  { unfold data_of. rewrite Hcs. subst w1. sim. rewrite lookup_alter_eq, Hc. simpl.
    unfold codec_effect. rewrite Hs, Hn, He.
    rewrite bool_decide_eq_true_2 by reflexivity.
    unfold set_connectionData. by rewrite Hn. }
  destruct (advance_fields f d Hr) as (mode' & d1' & Hm' & _ & _ & As & At & _ & _ & An).
  rewrite Hm in Hm'. injection Hm' as <- <-.
  exists w'. split.
  - unfold send, emit, bind, modify, gets. fold w1.
    change (subscriptions (tp w1)) with (subscriptions (tp w)). rewrite Hsubs.
    cbn [map connection for_each]. unfold bind. rewrite Hrun. reflexivity.
  - split.
    + rewrite Htr. subst w1. sim. destruct Hbuf as (_ & _ & _ & -> & _).
      by rewrite <- app_assoc.
    + unfold sequence_of, timestamp_of, nonce_of. rewrite Hdata, As, At, An, Hseq, Hts.
      auto.
Qed.
End Codec.

(** ** The codec on a concrete world *)

Section CodecExamples.
Import StateExn Player.

Lemma example_world_well_formed (d : ConnectionData) :
  counters_in_range d = true -> well_formed (example_world d).
Proof.
  intros Hd. split.
  - apply Nat.leb_le. vm_compute. reflexivity.
  - apply map_Forall_singleton. exact Hd.
Qed.

Lemma example_world_reaches_codec (d : ConnectionData) (isSilence : bool) :
  data_ready d = true -> reaches_codec (example_world d) 0 isSilence.
Proof.
  intros Hd. eexists _, d, _. split; [apply lookup_singleton_eq|].
  repeat split. exact Hd.
Qed.

Lemma sequence_counter_period_witness :
  exists w' seq',
    send_times toy_secretbox toy_random 3 SILENCE 960 true
      (example_world (example_data "xsalsa20_poly1305_lite" 65534 0 None))
    = (Returned tt, w')
    /\ sequence_of w' 0 = Some seq'
    /\ seq' = (65534 + Z.of_nat 3) mod 65536
    /\ 0 <= seq' <= 65535
    /\ (3%nat = 1%nat -> seq' = if 65534 =? 65535 then 0 else 65534 + 1)
    /\ (Z.of_nat 3 = 65536 -> seq' = 65534)
    /\ (0 < Z.of_nat 3 < 65536 -> seq' <> 65534).
Proof.
  apply (sequence_counter_period toy_secretbox toy_random
           (example_world (example_data "xsalsa20_poly1305_lite" 65534 0 None))
           0 65534 3 SILENCE 960 true).
  - apply example_world_well_formed. reflexivity.
  - lia.
  - apply example_world_reaches_codec. reflexivity.
  - reflexivity.
  - reflexivity.
Defined.

(** The sequence counter wraps from 65535 to 0 on the next send. *)
Example sequence_wraps_example :
  sequence_of
    (snd (send toy_secretbox toy_random SILENCE 960 true
            (example_world (example_data "xsalsa20_poly1305_lite" 65535 0 None)))) 0
  = Some 0.
Proof. vm_compute. reflexivity. Qed.

(** C1 as stated fails: from 4294967295 a frame of 960 samples leads to
    0, while [(4294967295 + 960) mod 2^32] is 959. *)
Lemma timestamp_reset_not_modular :
  let w := example_world (example_data "xsalsa20_poly1305_lite" 7 4294967295 None) in
  let w' := snd (send toy_secretbox toy_random SILENCE 960 true w) in
  timestamp_of w 0 = Some 4294967295
  /\ timestamp_of w' 0 = Some 0
  /\ timestamp_of w' 0 <> Some ((4294967295 + 960) mod 4294967296).
Proof.
  vm_compute. repeat split; congruence.
Qed.

Lemma timestamp_after_send_witness :
  exists w' ts',
    send toy_secretbox toy_random SILENCE 960 true
      (example_world (example_data "xsalsa20_poly1305_lite" 7 4294967295 None))
    = (Returned tt, w')
    /\ timestamp_of w' 0 = Some ts'
    /\ (4294967295 + 960 <= 4294967295 -> ts' = 4294967295 + 960)
    /\ (4294967295 < 4294967295 + 960 -> ts' = 0)
    /\ (4294967295 + 960 <= 4294967296 -> ts' = (4294967295 + 960) mod 4294967296)
    /\ (4294967296 < 4294967295 + 960 < 8589934592 ->
        ts' <> (4294967295 + 960) mod 4294967296)
    /\ (4294967295 = 4294967295 -> 1 <= 960 -> ts' = 0).
Proof.
  apply (timestamp_after_send toy_secretbox toy_random
           (example_world (example_data "xsalsa20_poly1305_lite" 7 4294967295 None))
           0 4294967295 SILENCE 960 true).
  - apply example_world_well_formed. reflexivity.
  - lia.
  - apply example_world_reaches_codec. reflexivity.
  - reflexivity.
  - reflexivity.
Defined.

Lemma lite_nonce_appended_witness :
  exists w' N e,
    send toy_secretbox toy_random SILENCE 960 true
      (example_world (example_data "xsalsa20_poly1305_lite" 7 0 (Some 4294967295)))
    = (Returned tt, w')
    /\ nonce_of w' 0 = Some ((default 0 (Some 4294967295) + 1) mod 4294967296)
    /\ length N = 24%nat
    /\ take 4 N = be32 ((default 0 (Some 4294967295) + 1) mod 4294967296)
    /\ trace w' = [(0, SendCall SILENCE 960 true);
                   (0, SetSpeaking 0);
                   (0, Encrypt SILENCE N (replicate 32 7));
                   (0, e)]
    /\ lite_outcome toy_secretbox 0 SILENCE (replicate 32 7) N e.
Proof.
  apply (lite_nonce_appended toy_secretbox toy_random
           (example_world (example_data "xsalsa20_poly1305_lite" 7 0 (Some 4294967295)))
           0 (example_data "xsalsa20_poly1305_lite" 7 0 (Some 4294967295))
           (replicate 32 7) SILENCE 960 true).
  - apply example_world_well_formed. reflexivity.
  - lia.
  - reflexivity.
  - apply example_world_reaches_codec. reflexivity.
  - reflexivity.
  - eexists. reflexivity.
  - reflexivity.
  - simpl. lia.
  - reflexivity.
Defined.

(** The packet of the example: header, tag and payload of the stand-in
    cipher, and the four bytes of the nonce counter, which has wrapped
    to 0. *)
Example lite_packet_example :
  trace (snd (send toy_secretbox toy_random SILENCE 960 true
                (example_world (example_data "xsalsa20_poly1305_lite" 7 0 (Some 4294967295)))))
  = [(0, SendCall SILENCE 960 true);
     (0, SetSpeaking 0);
     (0, Encrypt SILENCE (replicate 24 0) (replicate 32 7));
     (0, UdpSend 0 ([128; 120; 0; 8; 0; 0; 3; 192; 0; 0; 0; 42]
                    ++ replicate 16 0 ++ SILENCE ++ [0; 0; 0; 0]))].
Proof. vm_compute. reflexivity. Qed.

Example lite_packet_example_2 :
  trace (snd (send toy_secretbox toy_random SILENCE 960 true
                (example_world (example_data "xsalsa20_poly1305_lite" 7 0 (Some 258)))))
  = [(0, SendCall SILENCE 960 true);
     (0, SetSpeaking 0);
     (0, Encrypt SILENCE ([0; 0; 1; 3] ++ replicate 20 0) (replicate 32 7));
     (0, UdpSend 0 ([128; 120; 0; 8; 0; 0; 3; 192; 0; 0; 0; 42]
                    ++ replicate 16 0 ++ SILENCE ++ [0; 0; 1; 3]))].
Proof. vm_compute. reflexivity. Qed.

Lemma initial_globals_allocated : buffers_allocated initial_globals.
Proof. unfold buffers_allocated. vm_compute. auto. Qed.

Lemma rtp_header_decodes_witness :
  length (rtp_header 65535 4294967295 42) = 12%nat
  /\ Forall (fun b => 0 <= b <= 255) (rtp_header 65535 4294967295 42)
  /\ take 2 (rtp_header 65535 4294967295 42) = [128; 120]
  /\ be_value (take 2 (drop 2 (rtp_header 65535 4294967295 42))) = 65535
  /\ be_value (take 4 (drop 4 (rtp_header 65535 4294967295 42))) = 4294967295
  /\ be_value (take 4 (drop 8 (rtp_header 65535 4294967295 42))) = 42.
Proof. apply rtp_header_decodes; lia. Defined.

Lemma send_packet_layout_witness :
  let d := example_data "xsalsa20_poly1305_suffix" 7 100 None in
  let w := example_world d in
  let header := rtp_header (next_sequence 7) (next_timestamp 100 960) 42 in
  let N := cipher_nonce toy_random SUFFIX w d header in
  exists w',
    send toy_secretbox toy_random SILENCE 960 true w = (Returned tt, w')
    /\ trace w' = trace w
                  ++ [(clock w, SendCall SILENCE 960 true);
                      (clock w, SetSpeaking 0);
                      (clock w, Encrypt SILENCE N (replicate 32 7));
                      (clock w, packet_event toy_secretbox 0 SILENCE (replicate 32 7) N header
                                  (packet_suffix SUFFIX N) (Z.to_nat 8192))]
    /\ sequence_of w' 0 = Some (next_sequence 7)
    /\ timestamp_of w' 0 = Some (next_timestamp 100 960)
    /\ nonce_of w' 0 = (if SUFFIX =? LITE then Some (next_nonce (nonce d)) else nonce d)
    /\ take 2 (AUDIO_BUFFER (bufs w')) = [128; 120].
Proof.
  intros d w.
  apply (send_packet_layout toy_secretbox toy_random w 0 d
           (set_encryption_mode (Some SUFFIX) d) (replicate 32 7) 7 100 42 SUFFIX
           SILENCE 960 true).
  - apply example_world_well_formed. reflexivity.
  - lia.
  - exact initial_globals_allocated.
  - reflexivity.
  - apply example_world_reaches_codec. reflexivity.
  - reflexivity.
  - reflexivity.
  - right. by left.
  - reflexivity.
  - reflexivity.
  - reflexivity.
  - reflexivity.
  - discriminate.
  - reflexivity.
Defined.

(** The packets of the other two modes on the example world: the
    random fill ends the packet in SUFFIX mode, nothing follows the
    ciphertext in DEFAULT mode, whose nonce is the header followed by
    twelve zero bytes; a mode string that is not known means DEFAULT. *)
Example suffix_packet_example :
  trace (snd (send toy_secretbox toy_random SILENCE 960 true
                (example_world (example_data "xsalsa20_poly1305_suffix" 7 0 None))))
  = [(0, SendCall SILENCE 960 true);
     (0, SetSpeaking 0);
     (0, Encrypt SILENCE (replicate 24 0) (replicate 32 7));
     (0, UdpSend 0 ([128; 120; 0; 8; 0; 0; 3; 192; 0; 0; 0; 42]
                    ++ replicate 16 0 ++ SILENCE ++ replicate 24 0))].
Proof. vm_compute. reflexivity. Qed.

Example default_packet_example :
  trace (snd (send toy_secretbox toy_random SILENCE 960 true
                (example_world (example_data "aead_aes256_gcm_rtpsize" 7 0 None))))
  = [(0, SendCall SILENCE 960 true);
     (0, SetSpeaking 0);
     (0, Encrypt SILENCE ([128; 120; 0; 8; 0; 0; 3; 192; 0; 0; 0; 42] ++ replicate 12 0)
           (replicate 32 7));
     (0, UdpSend 0 ([128; 120; 0; 8; 0; 0; 3; 192; 0; 0; 0; 42]
                    ++ replicate 16 0 ++ SILENCE))].
Proof. vm_compute. reflexivity. Qed.
End CodecExamples.

(* ===================================================================== *)
(** * Properties of the player: retry policy, subscriptions, keepalive    *)
(* ===================================================================== *)

Section PlayerProps.
Import StateExn Player.

Context (crypto_secretbox_easy : list Z -> list Z -> list Z -> option (list Z)).
Context (randombytes_buf : nat -> list Z).

Ltac simp :=
  cbn [tp conns bufs clock rng trace
       with_tp with_conns with_bufs with_clock with_rng with_event
       normalize_volume external_encrypt external_packet_send last_error track
       stream subscriptions play_id silence_frames_interval silence_frames_left
       silence_frames_needed player
       set_last_error set_track set_stream set_subscriptions set_play_id
       set_silence_frames_interval set_silence_frames_left
       set_silence_frames_needed set_player] in *.

Ltac run_step :=
  first
    [ post_step
    | lazymatch goal with
      | |- post (emit _) _ _ _ => unfold emit
      | |- post (put_connectionData _ _) _ _ _ => unfold put_connectionData
      | |- post (update_ffplayer _) _ _ _ => unfold update_ffplayer
      | |- post clear_interval _ _ _ => unfold clear_interval
      | |- post get_connection _ _ _ => unfold get_connection
      | |- post get_connection_data _ _ _ => unfold get_connection_data
      | |- post get_connection_udp _ _ _ => unfold get_connection_udp
      | |- post restore_secretbox _ _ _ => unfold restore_secretbox
      | |- post update_secretbox _ _ _ => unfold update_secretbox
      | |- post cleanup _ _ _ => unfold cleanup
      | |- post check_destroyed _ _ _ => unfold check_destroyed
      | |- post getTime _ _ _ => unfold getTime
      | |- post isPaused _ _ _ => unfold isPaused
      | |- post (of_option ?o _) _ _ _ =>
          let H := fresh "Ho" in destruct o eqn:H; unfold of_option
      | |- post (if ?b then _ else _) _ _ _ =>
          let H := fresh "Hb" in destruct b eqn:H
      | |- post (match ?x with _ => _ end) _ _ _ =>
          let H := fresh "Hm" in destruct x eqn:H
      | |- post (let '(_, _) := ?r in _) _ _ _ => destruct r
      end ];
  simp.

Lemma errors_emitted_snoc (tr : list (Z * Event)) (t : Z) (e : Event) :
  errors_emitted (tr ++ [(t, e)])
  = errors_emitted tr ++ match e with Emit_error x => [x] | _ => [] end.
Proof.
  unfold errors_emitted. rewrite omap_app. f_equal. by destruct e.
Qed.

Lemma start_silence_frames_post (w : World) :
  returns start_silence_frames (fun _ => keeps_engine w) w.
Proof.
  unfold start_silence_frames, keeps_engine, keeps_track.
  repeat run_step.
  all: rewrite ?errors_emitted_snoc, ?app_nil_r; auto.
Qed.

Lemma destroy_player_post (w : World) :
  returns destroy_player
    (fun _ w' => keeps_track w w' /\ player (tp w') = None
                 /\ errors_emitted (trace w') = errors_emitted (trace w)) w.
Proof.
  unfold destroy_player. run_step. run_step. run_step.
  destruct (player (tp w)) as [a|] eqn:Hp.
  2:{ run_step. unfold keeps_track. auto. }
  run_step. eapply post_mono; [apply start_silence_frames_post | | auto].
  intros [] w1 ((Ht & Hid & Hle & Hcl) & _ & Herr).
  repeat run_step. unfold keeps_track.
  rewrite !errors_emitted_snoc, !app_nil_r. auto.
Qed.

(** ** The retry policy *)

Lemma error_post (w : World) (err : option string) (retryable : option bool)
      (now_check now_record : Z) :
  returns (error err retryable now_check now_record)
    (fun fatal w' =>
       (fatal = true <->
        retryable = Some false \/ now_check - last_error (tp w) < 300000)
       /\ (fatal = true ->
           player (tp w') = None
           /\ last_error (tp w') = last_error (tp w)
           /\ track (tp w') = track (tp w)
           /\ errors_emitted (trace w')
              = errors_emitted (trace w)
                ++ [InternalError (default "Unknown playback error"%string err)])
       /\ (fatal = false -> w' = with_tp (set_last_error now_record) w)) w.
Proof.
  assert (Hcond : bool_decide (retryable = Some false)
                  || (now_check - last_error (tp w) <? ERROR_INTERVAL) = true
                  <-> retryable = Some false \/ now_check - last_error (tp w) < 300000).
  { rewrite orb_true_iff, bool_decide_eq_true, Z.ltb_lt. reflexivity. }
  unfold error. run_step. run_step. run_step.
  destruct (bool_decide (retryable = Some false)
            || (now_check - last_error (tp w) <? ERROR_INTERVAL)) eqn:Hb.
  - run_step. eapply post_mono; [apply destroy_player_post | | auto].
    intros [] w1 ((Ht & _ & Hle & _) & Hp & Herr).
    repeat run_step. split; [|split].
    + split; [intros _; by apply Hcond | reflexivity].
    + intros _. rewrite errors_emitted_snoc, Herr. auto.
    + discriminate.
  - repeat run_step. split; [|split].
    + split; [discriminate|]. intros H. apply Hcond in H. congruence.
    + discriminate.
    + reflexivity.
Qed.

(** C3. [error] reports a fatal error exactly when [retryable] is
    [false] or fewer than 300000 ms lie between the recorded error time
    and now.  A fatal error leaves no decode engine, emits exactly one
    error event and keeps the recorded time; otherwise the only change
    is that the current time becomes the recorded error time, and the
    caller is told to go on (and restart playback). *)
Theorem error_fatal_iff (w : World) (err : option string) (retryable : option bool)
        (now_check now_record : Z) :
  exists fatal w',
    error err retryable now_check now_record w = (Returned fatal, w')
    /\ (fatal = true <->
        retryable = Some false \/ now_check - last_error (tp w) < 300000)
    /\ (fatal = true ->
        player (tp w') = None
        /\ last_error (tp w') = last_error (tp w)
        /\ errors_emitted (trace w')
           = errors_emitted (trace w)
             ++ [InternalError (default "Unknown playback error"%string err)])
    /\ (fatal = false -> w' = with_tp (set_last_error now_record) w).
Proof.
  destruct (proj1 (returns_eq _ _ _) (error_post w err retryable now_check now_record))
    as (fatal & w' & Hrun & Hiff & Hfatal & Hgo).
  exists fatal, w'. repeat split; try tauto.
  all: intros H; apply Hfatal in H; tauto.
Qed.

(** ** Recreating the decode engine *)

Ltac split_player :=
  repeat match goal with
         | |- context [match player ?p with _ => _ end] => destruct (player p); simp
         | H : context [match player ?p with _ => _ end] |- _ => destruct (player p); simp
         end.

Lemma init_secretbox_post (w : World) :
  returns init_secretbox (fun _ => keeps_track w) w.
Proof.
  unfold init_secretbox, keeps_track.
  repeat run_step.
  all: try (eapply post_mono; [apply destroy_player_post | | auto];
            intros [] w1 ((Ht & Hid & Hle & Hcl) & _); repeat run_step;
            revert Ht Hid Hle Hcl).
  all: split_player; auto.
Qed.

Lemma keeps_track_trans (w w1 w2 : World) :
  keeps_track w w1 -> keeps_track w1 w2 -> keeps_track w w2.
Proof.
  unfold keeps_track. intros (? & ? & ? & ?) (? & ? & ? & ?). repeat split; congruence.
Qed.

Lemma create_player_post (w : World) (fresh : Construction) (startTime : option Z) :
  returns (create_player fresh startTime) (fun _ => keeps_track w) w.
Proof.
  unfold create_player. run_step. run_step.
  eapply post_mono; [apply destroy_player_post | | auto].
  intros [] w1 (Hk & _).
  assert (Hinit : forall w2, keeps_track w1 w2 ->
            post init_secretbox (fun _ => keeps_track w) (fun _ _ => False) w2).
  { intros w2 Hk2. eapply post_mono; [apply init_secretbox_post | | auto].
    intros [] w3 Hk3. simpl in Hk3.
    eapply keeps_track_trans; [exact Hk|]. eapply keeps_track_trans; eauto. }
  repeat run_step.
  all: first [ apply Hinit; unfold keeps_track; simp; by auto
             | revert Hk; unfold keeps_track; simp; by auto ].
Qed.

Lemma start_post (w : World) :
  returns start
    (fun r w' =>
       track (tp w') = track (tp w)
       /\ player (tp w') = player (tp w)
       /\ ((forall t, track (tp w) = Some t -> streams t = None) ->
           (r = NotStarted /\ trace w' = trace w
            /\ (player (tp w) = None \/ track (tp w) = None))
           \/ (r = AwaitGetStreams (play_id (tp w))
               /\ trace w' = trace w ++ [(clock w, TrackGetStreams)]
               /\ is_Some (player (tp w)) /\ is_Some (track (tp w))))) w.
Proof.
  unfold start. run_step. run_step. run_step.
  destruct (player (tp w)) as [a|] eqn:Hp.
  2:{ run_step. split; [congruence|]. split; [congruence|]. intros _. left. auto. }
  destruct (track (tp w)) as [t|] eqn:Ht.
  2:{ run_step. split; [congruence|]. split; [congruence|]. intros _. left. auto. }
  unfold load_streams. apply post_bind, post_get. cbn beta. rewrite Ht.
  destruct (streams t) as [ss|] eqn:Hss.
  - repeat run_step.
    all: split; [assumption|]; split; [assumption|];
      intros Hnone; specialize (Hnone t eq_refl); congruence.
  - repeat run_step. split; [assumption|]. split; [assumption|]. intros _. right. eauto.
Qed.

Lemma clear_streams_track (p : TrackPlayer) (t : Track) :
  track (clear_streams p) = Some t -> streams t = None.
Proof.
  unfold clear_streams. destruct (track p) as [t0|] eqn:E; simpl.
  - intros [= <-]. reflexivity.
  - rewrite E. discriminate.
Qed.

Lemma clear_streams_keeps (p : TrackPlayer) :
  player (clear_streams p) = player p /\ play_id (clear_streams p) = play_id p.
Proof. unfold clear_streams. by destruct (track p). Qed.

(** C10. When the engine's error hook classifies an error as fatal it
    stops there and the cached streams of the track are as before.
    When the error is transient the cache is cleared first and the
    engine is recreated from the state without the cache; nothing on the
    way puts it back, and the restart asks the track for its streams
    again: [getStreams] is called whenever there is a track and the
    player has an engine after [create_player], and playback is not
    started only when one of the two is missing. *)
Theorem onerror_clears_stream_cache (w : World) (err : option string)
        (retryable : option bool) (now_check now_record : Z)
        (fresh : Construction) :
  exists r w',
    onerror err retryable now_check now_record fresh w = (Returned r, w')
    /\ (retryable = Some false \/ now_check - last_error (tp w) < 300000 ->
        r = NotStarted /\ track (tp w') = track (tp w))
    /\ (~ (retryable = Some false \/ now_check - last_error (tp w) < 300000) ->
        let w1 := with_tp clear_streams (with_tp (set_last_error now_record) w) in
        let seekTime := match player (tp w) with Some a => time a | None => 0 end in
        (forall t, track (tp w1) = Some t -> streams t = None)
        /\ bind (create_player fresh (Some seekTime)) (fun _ => start) w1 = (Returned r, w')
        /\ track (tp w') = track (tp w1)
        /\ (r = NotStarted /\ (player (tp w') = None \/ track (tp w) = None)
            \/ r = AwaitGetStreams (play_id (tp w))
               /\ is_Some (player (tp w')) /\ is_Some (track (tp w))
               /\ exists tr, trace w' = tr ++ [(clock w, TrackGetStreams)])).
Proof.
  destruct (proj1 (returns_eq _ _ _) (error_post w err retryable now_check now_record))
    as (fatal & w0 & Herr & Hiff & Hfatal & Hgo).
  unfold onerror, bind at 1. rewrite Herr.
  destruct fatal.
  - exists NotStarted, w0. split; [reflexivity|]. split.
    + intros _. split; [reflexivity|]. by apply Hfatal.
    + intros Hn. exfalso. apply Hn. by apply Hiff.
  - specialize (Hgo eq_refl). subst w0.
    set (w1 := with_tp clear_streams (with_tp (set_last_error now_record) w)).
    set (seekTime := match player (tp w) with Some a => time a | None => 0 end).
    assert (Hclr : forall t, track (tp w1) = Some t -> streams t = None).
    { intros t. apply clear_streams_track. }
    assert (Hseek : bind (modify (with_tp clear_streams))
                      (fun _ => bind get (fun w2 =>
                         bind (match player (tp w2) with
                               | Some _ => getTime
                               | None => ret 0
                               end)
                           (fun seekTime => bind (create_player fresh (Some seekTime))
                                              (fun _ => start))))
                      (with_tp (set_last_error now_record) w)
                    = bind (create_player fresh (Some seekTime)) (fun _ => start) w1).
    { unfold bind at 1, modify. fold w1. unfold bind at 1, get.
      assert (Hp : player (tp w1) = player (tp w)).
      { exact (proj1 (clear_streams_keeps (set_last_error now_record (tp w)))). }
      rewrite Hp. subst seekTime. unfold bind at 1.
      destruct (player (tp w)) as [a|] eqn:Hpw; [|reflexivity].
      unfold getTime, check_destroyed, bind, get, of_option, ret. rewrite Hp.
      reflexivity. }
    assert (Htrack : track (tp w1) = None <-> track (tp w) = None).
    { subst w1. unfold clear_streams. cbn.
      destruct (track (tp w)) as [t|] eqn:Htw; cbn; [split; discriminate|].
      by rewrite Htw. }
    assert (Hpost : returns (bind (create_player fresh (Some seekTime)) (fun _ => start))
              (fun r w' =>
                 track (tp w') = track (tp w1)
                 /\ (r = NotStarted /\ (player (tp w') = None \/ track (tp w) = None)
                     \/ r = AwaitGetStreams (play_id (tp w))
                        /\ is_Some (player (tp w')) /\ is_Some (track (tp w))
                        /\ exists tr, trace w' = tr ++ [(clock w, TrackGetStreams)])) w1).
    { unfold returns. apply post_bind.
      eapply post_mono; [apply create_player_post | | auto].
      intros [] w2 (Ht2 & Hid2 & _ & Hcl2). cbn beta.
      eapply post_mono; [apply start_post | | auto].
      intros r w3 (Ht3 & Hp3 & Hr3). cbn beta. split; [congruence|].
      assert (Hnone : forall t, track (tp w2) = Some t -> streams t = None).
      { intros t Ht. apply Hclr. congruence. }
      destruct (Hr3 Hnone) as [(-> & _ & Hmiss)|(-> & Htr & Hsp & Hst)].
      - left. split; [reflexivity|]. destruct Hmiss as [Hm|Hm].
        + left. congruence.
        + right. apply Htrack. congruence.
      - right. split; [|split; [|split]].
        + f_equal. rewrite Hid2.
          exact (proj2 (clear_streams_keeps (set_last_error now_record (tp w)))).
        + by rewrite Hp3.
        + destruct (track (tp w)) as [t|] eqn:Htw; [eauto|].
          rewrite Ht2, (proj2 Htrack eq_refl) in Hst. by destruct Hst.
        + exists (trace w2). rewrite Htr, Hcl2. reflexivity. }
    apply returns_eq in Hpost. destruct Hpost as (r & w' & Hrun & Ht' & Hr').
    exists r, w'. split; [rewrite Hseek; exact Hrun|]. split.
    + intros Hf. apply Hiff in Hf. discriminate.
    + intros _. auto.
Qed.

(** ** The keepalive *)

Lemma send_calls_snoc (tr : list (Z * Event)) (t : Z) (e : Event) :
  send_calls (tr ++ [(t, e)])
  = send_calls tr ++ match e with SendCall b f s => [(t, b, f, s)] | _ => [] end.
Proof.
  unfold send_calls. rewrite omap_app. f_equal. by destruct e.
Qed.

Lemma post_conj {S E A} (m : M S E A) (Q Q' : A -> S -> Prop) (R R' : E -> S -> Prop) s :
  post m Q R s -> post m Q' R' s ->
  post m (fun a s' => Q a s' /\ Q' a s') (fun e s' => R e s' /\ R' e s') s.
Proof. unfold post. destruct (m s) as [[a|e] s']; auto. Qed.

Ltac codec_step :=
  first
    [ post_step
    | lazymatch goal with
      | |- post (emit _) _ _ _ => unfold emit
      | |- post (put_connectionData _ _) _ _ _ => unfold put_connectionData
      | |- post (audio_writeUInt16BE _ _) _ _ _ => unfold audio_writeUInt16BE
      | |- post (audio_writeUInt32BE _ _) _ _ _ => unfold audio_writeUInt32BE
      | |- post (audio_set _ _) _ _ _ => unfold audio_set
      | |- post (nonce_writeUInt32BE _ _) _ _ _ => unfold nonce_writeUInt32BE
      | |- post (secretbox_into_audio _ _ _ _) _ _ _ => unfold secretbox_into_audio
      | |- post (encrypt_packet _ _ _ _ _ _ _) _ _ _ => unfold encrypt_packet
      | |- post (of_option ?o _) _ _ _ =>
          let H := fresh "Ho" in destruct o eqn:H; unfold of_option
      | |- post (if ?b then _ else _) _ _ _ =>
          let H := fresh "Hb" in destruct b eqn:H
      | |- post (match ?x with _ => _ end) _ _ _ =>
          let H := fresh "Hm" in destruct x eqn:H
      | |- post (let '(_, _) := ?r in _) _ _ _ => destruct r
      end ];
  simp.

(** The loop body of [send] is not a call of [send], whatever it does. *)
Lemma send_connection_calls (w : World) (c : nat) (buffer : list Z) (f : Z) (sil : bool) :
  post (send_connection crypto_secretbox_easy randombytes_buf buffer f sil c)
       (fun _ w' => send_calls (trace w') = send_calls (trace w))
       (fun _ w' => send_calls (trace w') = send_calls (trace w)) w.
Proof.
  unfold send_connection.
  repeat codec_step.
  all: rewrite ?send_calls_snoc, ?app_nil_r; reflexivity.
Qed.

Lemma send_calls_post (w : World) (buffer : list Z) (f : Z) (sil : bool) :
  post (send crypto_secretbox_easy randombytes_buf buffer f sil)
       (fun _ w' => send_calls (trace w') = send_calls (trace w) ++ [(clock w, buffer, f, sil)])
       (fun _ w' => send_calls (trace w') = send_calls (trace w) ++ [(clock w, buffer, f, sil)])
       w.
Proof.
  unfold send. apply post_bind. unfold emit. apply post_modify.
  apply post_bind, post_gets. cbn beta. simp.
  set (tr := send_calls (trace w) ++ [(clock w, buffer, f, sil)]).
  eapply post_mono;
    [ apply (post_for_each _ _ (fun _ s => send_calls (trace s) = tr)
               (fun _ s => send_calls (trace s) = tr)) | auto | auto ].
  - subst tr. cbn beta. simp. by rewrite send_calls_snoc.
  - intros x rest s' Hs'. cbn beta in Hs'.
    eapply post_mono; [apply send_connection_calls | |]; simpl; congruence.
Qed.

Lemma advance_counters_defined (f : Z) (d : ConnectionData) :
  counters_defined d = true -> counters_defined (advance f d) = true.
Proof.
  unfold counters_defined. rewrite !andb_true_iff, !bool_decide_eq_true.
  intros [[Hs Ht] Hn]. unfold advance.
  destruct (resolve_mode d) as [[mode d1]|] eqn:Hm; [|auto].
  destruct (resolve_mode_fields _ _ _ Hm) as (E1 & E2 & _ & _ & E5 & _).
  rewrite <- E1 in Hs. rewrite <- E2 in Ht. rewrite <- E5 in Hn.
  destruct (sequence d1) as [seq|] eqn:Hseq, (timestamp d1) as [ts|] eqn:Hts,
           (ssrc d1), (secretKey d1); rewrite ?Hseq, ?Hts; auto.
  destruct (mode =? LITE); simpl; eauto.
Qed.

Lemma codec_effect_shape (ee sil : bool) (f : Z) (conn : VoiceConnection) :
  status (codec_effect ee sil f conn) = status conn
  /\ (connection_counters_defined conn = true ->
      connection_counters_defined (codec_effect ee sil f conn) = true).
Proof.
  unfold codec_effect.
  destruct (bool_decide (status conn = Ready)); [|auto].
  destruct (networking conn) as [[[d|] [u|]]|] eqn:Hn; auto.
  destruct (ee && negb sil); [auto|].
  split; [reflexivity|].
  unfold connection_counters_defined, set_connectionData. rewrite Hn. simpl.
  apply advance_counters_defined.
Qed.

Lemma iter_codec_effect_shape (k : nat) (ee sil : bool) (f : Z) (conn : VoiceConnection) :
  status (Nat.iter k (codec_effect ee sil f) conn) = status conn
  /\ (connection_counters_defined conn = true ->
      connection_counters_defined (Nat.iter k (codec_effect ee sil f) conn) = true).
Proof.
  induction k as [|k [IH1 IH2]]; [auto|].
  rewrite Nat.iter_succ.
  destruct (codec_effect_shape ee sil f (Nat.iter k (codec_effect ee sil f) conn))
    as [H1 H2].
  split; [congruence | auto].
Qed.

Lemma sync_possible_alt (w : World) :
  sync_possible w <->
  (engine_owns_counters w = true ->
   is_Some (current_ffplayer w)
   /\ exists conn, first_connection w = Some conn
                   /\ connection_counters_defined conn = true).
Proof.
  unfold sync_possible, first_data, connection_counters_defined.
  split; intros H Ho; destruct (H Ho) as [Hff Hd]; (split; [exact Hff|]).
  - destruct Hd as (d & Hd & Hc).
    destruct (first_connection w) as [conn|]; [|discriminate].
    exists conn. split; [reflexivity|].
    destruct (networking conn) as [[[d'|] ?]|]; simpl in Hd; try discriminate.
    congruence.
  - destruct Hd as (conn & -> & Hc).
    destruct (networking conn) as [[[d'|] ?]|]; try discriminate.
    exists d'. auto.
Qed.

(** A [send] keeps the counter synchronisation possible. *)
Lemma send_keeps_sync (w w' : World) (sil : bool) (f : Z) :
  tp w' = tp w ->
  (forall c, conns w' !! c
             = Nat.iter (subscribed w c) (codec_effect (external_encrypt (tp w)) sil f)
                 <$> conns w !! c) ->
  engine_owns_counters w' = engine_owns_counters w
  /\ (sync_possible w -> sync_possible w').
Proof.
  intros Ht Hc.
  assert (Hfirst : first_connection w'
                   = match first_connection w with
                     | Some conn =>
                         Some (Nat.iter
                                 (match subscriptions (tp w) with
                                  | s :: _ => subscribed w (connection s)
                                  | [] => 0
                                  end)
                                 (codec_effect (external_encrypt (tp w)) sil f) conn)
                     | None => None
                     end).
  { unfold first_connection. rewrite Ht.
    destruct (subscriptions (tp w)) as [|s rest]; [reflexivity|].
    rewrite Hc. by destruct (conns w !! connection s). }
  assert (Hready : secretbox_ready w' = secretbox_ready w).
  { unfold secretbox_ready. rewrite Hfirst.
    destruct (first_connection w) as [conn|]; [|reflexivity].
    by rewrite (proj1 (iter_codec_effect_shape _ _ _ _ conn)). }
  assert (Howns : engine_owns_counters w' = engine_owns_counters w).
  { unfold engine_owns_counters. by rewrite Ht, Hready. }
  split; [exact Howns|].
  rewrite !sync_possible_alt. rewrite Howns. intros H Ho.
  destruct (H Ho) as (Hff & conn & Hconn & Hdef). split.
  - unfold current_ffplayer in *. by rewrite Ht.
  - rewrite Hfirst, Hconn. eexists. split; [reflexivity|].
    by apply iter_codec_effect_shape.
Qed.

(** What [engine_owns_counters] and [sync_possible] say about the first
    subscription. *)
Lemma first_subscription_ready (w : World) :
  engine_owns_counters w = true -> sync_possible w ->
  exists a ff s rest conn n d,
    player (tp w) = Some a /\ ffplayer a = Some ff
    /\ external_encrypt (tp w) = true
    /\ subscriptions (tp w) = s :: rest
    /\ conns w !! connection s = Some conn /\ status conn = Ready
    /\ networking conn = Some n /\ connectionData n = Some d
    /\ counters_defined d = true.
Proof.
  intros Ho Hs. destruct (Hs Ho) as ([ff Hff] & d & Hd & Hdef).
  unfold engine_owns_counters in Ho. unfold current_ffplayer in Hff.
  destruct (player (tp w)) as [a|]; [|discriminate].
  apply andb_true_iff in Ho. destruct Ho as [Hext Hready].
  unfold secretbox_ready in Hready. unfold first_data in Hd.
  unfold first_connection in *.
  destruct (subscriptions (tp w)) as [|s rest]; [discriminate|].
  destruct (conns w !! connection s) as [conn|] eqn:Hc; [|discriminate].
  apply bool_decide_eq_true in Hready.
  destruct (networking conn) as [n|] eqn:Hn; [|discriminate].
  exists a, ff, s, rest, conn, n, d. auto 10.
Qed.

Lemma post_returned {S E A} (m : M S E A) (a : A) (s s' : S)
      (Q : A -> S -> Prop) (R : E -> S -> Prop) :
  m s = (Returned a, s') -> Q a s' -> post m Q R s.
Proof. intros Hm HQ. unfold post. by rewrite Hm. Qed.

Lemma get_connection_data_eq (w : World) (s : Subscription) (rest : list Subscription)
      (conn : VoiceConnection) (d : ConnectionData) (u : option Udp) :
  subscriptions (tp w) = s :: rest ->
  conns w !! connection s = Some conn -> status conn = Ready ->
  networking conn = Some (mkNet (Some d) u) ->
  get_connection_data w = (Returned (connection s, d), w).
Proof.
  intros Hsub Hc Hst Hn.
  unfold get_connection_data, get_connection, bind, get, of_option, ret.
  rewrite Hsub, Hc. simpl. by rewrite Hst, Hn.
Qed.

Lemma update_secretbox_ok (w : World) :
  engine_owns_counters w = true -> sync_possible w ->
  returns update_secretbox
    (fun _ w' => exists a, w' = with_tp (set_player (Some a)) w /\ is_Some (ffplayer a)) w.
Proof.
  intros Ho Hs.
  destruct (first_subscription_ready w Ho Hs)
    as (a & ff & s & rest & conn & n & d & Hp & Hff & _ & Hsub & Hc & Hst & Hn & Hd & Hdef).
  unfold counters_defined in Hdef. rewrite !andb_true_iff, !bool_decide_eq_true in Hdef.
  destruct Hdef as [[[sq Hsq] [ts Hts]] [nn Hnn]].
  destruct n as [cd ud]. simpl in Hd. subst cd.
  unfold update_secretbox, returns. apply post_bind, post_get. cbn beta.
  unfold current_ffplayer. rewrite Hp, Hff. apply post_bind, post_ret.
  apply post_bind.
  eapply post_returned; [exact (get_connection_data_eq w s rest conn d ud Hsub Hc Hst Hn)|].
  cbn beta iota. rewrite Hsq, Hts, Hnn.
  unfold update_ffplayer. apply post_modify. unfold with_tp at 1. rewrite Hp.
  eexists. split; [reflexivity|]. simpl. rewrite Hff. simpl. eauto.
Qed.

Lemma silence_tick_post (w : World) (k : Z) (iv : Interval) :
  well_formed w -> sync_possible w ->
  silence_frames_left (tp w) = k ->
  silence_frames_interval (tp w) = Some iv ->
  returns (silence_tick crypto_secretbox_easy randombytes_buf)
    (fun _ w' =>
       well_formed w' /\ sync_possible w' /\ clock w' = clock w
       /\ silence_frames_needed (tp w') = silence_frames_needed (tp w)
       /\ silence_frames_left (tp w') = k - 1
       /\ silence_frames_interval (tp w')
          = (if k - 1 =? 0 then None else Some iv)
       /\ send_calls (trace w')
          = send_calls (trace w) ++ [(clock w, SILENCE, 960, true)]) w.
Proof.
  intros Hwf Hs Hk Hiv.
  unfold silence_tick, returns. apply post_bind, post_modify.
  set (w0 := with_tp _ w).
  assert (Hwf0 : well_formed w0) by exact Hwf.
  apply post_bind.
  eapply post_mono;
    [ apply (post_conj _ _ _ _ _ _
               (send_post crypto_secretbox_easy randombytes_buf w0 SILENCE 960 true
                  Hwf0 ltac:(lia))
               (send_calls_post w0 SILENCE 960 true)) | | intros ? ? [[] _] ].
  intros [] w1 ((Ht & Hcl & Hwf1 & Hcs) & Hcalls). cbn beta.
  assert (Hs0 : sync_possible w0).
  { apply sync_possible_alt. intros Ho.
    apply (proj1 (sync_possible_alt w)) in Hs; [exact Hs | exact Ho]. }
  destruct (send_keeps_sync w0 w1 true 960 Ht Hcs) as [Howns Hsync].
  specialize (Hsync Hs0).
  assert (Hleft : silence_frames_left (tp w1) = k - 1).
  { rewrite Ht. subst w0. simp. by rewrite Hk. }
  assert (Hint : silence_frames_interval (tp w1) = Some iv).
  { rewrite Ht. subst w0. simp. exact Hiv. }
  assert (Hneed : silence_frames_needed (tp w1) = silence_frames_needed (tp w)).
  { rewrite Ht. subst w0. simp. reflexivity. }
  assert (Hclk : clock w1 = clock w) by exact Hcl.
  assert (Hcalls' : send_calls (trace w1)
                    = send_calls (trace w) ++ [(clock w, SILENCE, 960, true)])
    by exact Hcalls.
  clearbody w0. clear Hcalls Hcl.
  assert (Hend : forall w2,
            tp w2 = tp w1 \/ (exists a, w2 = with_tp (set_player (Some a)) w1) ->
            well_formed w2 -> sync_possible w2 -> clock w2 = clock w1 ->
            trace w2 = trace w1 ->
            post (bind get (fun w3 =>
                    if silence_frames_left (tp w3) =? 0 then clear_interval else ret tt))
              (fun _ w' =>
                 well_formed w' /\ sync_possible w' /\ clock w' = clock w
                 /\ silence_frames_needed (tp w') = silence_frames_needed (tp w)
                 /\ silence_frames_left (tp w') = k - 1
                 /\ silence_frames_interval (tp w')
                    = (if k - 1 =? 0 then None else Some iv)
                 /\ send_calls (trace w')
                    = send_calls (trace w) ++ [(clock w, SILENCE, 960, true)])
              (fun _ _ => False) w2).
  { intros w2 Htp Hwf2 Hs2 Hcl2 Htr2.
    assert (Hsame : silence_frames_left (tp w2) = k - 1
                    /\ silence_frames_interval (tp w2) = Some iv
                    /\ silence_frames_needed (tp w2) = silence_frames_needed (tp w)).
    { destruct Htp as [Htp|[a ->]]; [rewrite Htp|simp]; auto. }
    destruct Hsame as (Hl2 & Hi2 & Hn2).
    apply post_bind, post_get. cbn beta. rewrite Hl2.
    destruct (k - 1 =? 0) eqn:Hz.
    - unfold clear_interval. apply post_bind, post_get. cbn beta. rewrite Hi2.
      apply post_modify.
      assert (Hs3 : sync_possible (with_tp (set_silence_frames_interval None) w2)).
      { apply sync_possible_alt. intros Ho'.
        apply (proj1 (sync_possible_alt w2) Hs2). exact Ho'. }
      refine (conj Hwf2 (conj Hs3 _)). repeat split; simp; congruence.
    - apply post_ret. refine (conj Hwf2 (conj Hs2 _)). repeat split; congruence. }
  unfold returns. apply post_bind, post_get. cbn beta.
  destruct (engine_owns_counters w1) eqn:Ho.
  - apply post_bind, post_try_catch, post_bind.
    eapply post_mono; [apply (update_secretbox_ok w1 Ho Hsync) | | intros ? ? []].
    intros [] w2 (a & -> & Hff). cbn beta. apply post_ret. cbn beta iota.
    apply Hend; auto.
    + right. eauto.
    + apply sync_possible_alt. intros _.
      destruct (proj1 (sync_possible_alt w1) Hsync Ho) as (_ & conn & Hconn & Hdef).
      split; [exact Hff|]. exists conn. split; [exact Hconn | exact Hdef].
  - apply post_bind, post_ret. cbn beta iota. apply Hend; auto.
Qed.

(** One firing of the timer during the countdown. *)
Lemma fire_interval_post (w : World) (k t : Z) :
  ticking w k t -> 0 < k ->
  returns (fire_interval crypto_secretbox_easy randombytes_buf)
    (fun _ w' =>
       clock w' = t
       /\ send_calls (trace w') = send_calls (trace w) ++ [(t, SILENCE, 960, true)]
       /\ (if k =? 1 then idle_done w' else ticking w' (k - 1) (t + 20))) w.
Proof.
  intros (Hwf & Hs & Hneed & Hleft & Hint) Hk.
  unfold fire_interval, returns. apply post_bind, post_get. cbn beta. rewrite Hint.
  apply post_bind, post_modify. apply post_bind, post_modify.
  cbn [period due].
  match goal with |- post _ _ _ ?W => set (w0 := W) end.
  assert (Hs0 : sync_possible w0).
  { apply sync_possible_alt. intros Ho.
    apply (proj1 (sync_possible_alt w) Hs). exact Ho. }
  eapply post_mono;
    [ apply (silence_tick_post w0 k (mkInterval 20 (t + 20)) Hwf Hs0 Hleft eq_refl)
    | | intros ? ? [] ].
  intros [] w' (Hwf' & Hs' & Hcl & Hn' & Hl' & Hi' & Hcalls).
  split; [exact Hcl|]. split; [exact Hcalls|].
  assert (Hn'' : silence_frames_needed (tp w') = false) by (rewrite Hn'; exact Hneed).
  destruct (k =? 1) eqn:E1.
  - apply Z.eqb_eq in E1. rewrite E1 in Hi', Hl'. simpl in Hi', Hl'.
    unfold idle_done. auto.
  - apply Z.eqb_neq in E1.
    replace (k - 1 =? 0) with false in Hi' by (symmetry; apply Z.eqb_neq; lia).
    unfold ticking. auto 10.
Qed.

Lemma fire_interval_idle (w : World) :
  silence_frames_interval (tp w) = None ->
  fire_interval crypto_secretbox_easy randombytes_buf w = (Returned tt, w).
Proof. intros H. unfold fire_interval, bind, get. by rewrite H. Qed.

Lemma run_idle_done (n : nat) (w : World) :
  silence_frames_interval (tp w) = None ->
  run_idle crypto_secretbox_easy randombytes_buf n w = (Returned tt, w).
Proof.
  intros H. induction n as [|n IH]; [reflexivity|].
  simpl. unfold bind. by rewrite (fire_interval_idle w H).
Qed.

Lemma run_idle_app (a b : nat) (w : World) :
  run_idle crypto_secretbox_easy randombytes_buf (a + b) w
  = bind (run_idle crypto_secretbox_easy randombytes_buf a)
         (fun _ => run_idle crypto_secretbox_easy randombytes_buf b) w.
Proof.
  revert w. induction a as [|a IH]; intros w; [reflexivity|].
  simpl. unfold bind.
  destruct (fire_interval _ _ w) as [[[]|e] w1]; [|reflexivity].
  rewrite IH. reflexivity.
Qed.

Lemma run_countdown (k : nat) (w : World) (t : Z) :
  ticking w (Z.of_nat (S k)) t ->
  exists w',
    run_idle crypto_secretbox_easy randombytes_buf (S k) w = (Returned tt, w')
    /\ idle_done w'
    /\ send_calls (trace w') = send_calls (trace w) ++ frame_times (S k) t.
Proof.
  revert w t. induction k as [|k IH]; intros w t Htick.
  - pose proof (fire_interval_post w _ t Htick ltac:(lia)) as Hf.
    apply returns_eq in Hf. destruct Hf as ([] & w' & Hrun & _ & Hcalls & Hdone).
    exists w'. simpl. unfold bind. rewrite Hrun. auto.
  - pose proof (fire_interval_post w _ t Htick ltac:(lia)) as Hf.
    apply returns_eq in Hf. destruct Hf as ([] & w1 & Hrun & _ & Hcalls & Hnext).
    replace (Z.of_nat (S (S k)) =? 1) with false in Hnext
      by (symmetry; apply Z.eqb_neq; lia).
    replace (Z.of_nat (S (S k)) - 1) with (Z.of_nat (S k)) in Hnext by lia.
    destruct (IH w1 (t + 20) Hnext) as (w' & Hrun' & Hdone & Hcalls').
    exists w'. split; [|split; [exact Hdone|]].
    + change (run_idle _ _ (S (S k)) w)
        with (bind (fire_interval crypto_secretbox_easy randombytes_buf)
                (fun _ => run_idle crypto_secretbox_easy randombytes_buf (S k)) w).
      unfold bind. rewrite Hrun. exact Hrun'.
    + rewrite Hcalls', Hcalls. rewrite <- app_assoc. reflexivity.
Qed.

Lemma first_subscription_data (w : World) (d : ConnectionData) :
  engine_owns_counters w = true -> first_data w = Some d ->
  exists a s rest conn u,
    player (tp w) = Some a /\ external_encrypt (tp w) = true
    /\ subscriptions (tp w) = s :: rest
    /\ conns w !! connection s = Some conn /\ status conn = Ready
    /\ networking conn = Some (mkNet (Some d) u).
Proof.
  intros Ho Hd. unfold engine_owns_counters in Ho.
  destruct (player (tp w)) as [a|]; [|discriminate].
  apply andb_true_iff in Ho. destruct Ho as [Hext Hready].
  unfold secretbox_ready in Hready. unfold first_data in Hd.
  unfold first_connection in *.
  destruct (subscriptions (tp w)) as [|s rest]; [discriminate|].
  destruct (conns w !! connection s) as [conn|] eqn:Hc; [|discriminate].
  apply bool_decide_eq_true in Hready.
  destruct (networking conn) as [[cd u]|] eqn:Hn; [|discriminate].
  simpl in Hd. subst cd.
  exists a, s, rest, conn, u. auto 10.
Qed.

Lemma restore_secretbox_ok (w : World) :
  well_formed w -> engine_owns_counters w = true -> engine_counters_ok w ->
  returns restore_secretbox
    (fun _ w' =>
       tp w' = tp w /\ clock w' = clock w /\ trace w' = trace w
       /\ well_formed w' /\ sync_possible w') w.
Proof.
  intros Hwf Ho Hok.
  destruct (Hok Ho) as (ff & d & sq & ts & nn & Hff & Hd & Hsq & Hts & Hnn & Rsq & Rts).
  destruct (first_subscription_data w d Ho Hd)
    as (a & s & rest & conn & u & Hp & Hext & Hsub & Hc & Hst & Hn).
  unfold restore_secretbox, returns. apply post_bind, post_get. cbn beta.
  rewrite Hff. apply post_bind, post_ret. apply post_bind.
  eapply post_returned; [exact (get_connection_data_eq w s rest conn d u Hsub Hc Hst Hn)|].
  cbn beta iota. rewrite Hnn, Hts, Hsq. unfold put_connectionData. apply post_modify.
  set (d' := set_sequence (Some sq) (set_timestamp (Some ts) (set_nonce (Some nn) d))).
  assert (Hc' : conns (with_conns (alter (set_connectionData d') (connection s)) w)
                !! connection s = Some (set_connectionData d' conn)).
  { simpl. rewrite lookup_alter_eq, Hc. reflexivity. }
  assert (Hn' : networking (set_connectionData d' conn) = Some (mkNet (Some d') u)).
  { unfold set_connectionData. rewrite Hn. reflexivity. }
  split; [reflexivity|]. split; [reflexivity|]. split; [reflexivity|]. split.
  - destruct Hwf as [Hlen Hall]. split; [exact Hlen|].
    intros k x Hk. simpl in Hk. apply lookup_alter_Some in Hk.
    destruct Hk as [[<- (y & Hy & ->)] | [_ Hk]]; [|by eapply Hall].
    rewrite Hc in Hy. injection Hy as <-.
    pose proof (Hall _ _ Hc) as Hr. simpl in Hr.
    unfold connection_in_range in *. rewrite Hn in Hr. rewrite Hn'.
    unfold counters_in_range in *. rewrite !andb_true_iff in *.
    change (sequence d') with (Some sq). change (timestamp d') with (Some ts).
    change (ssrc d') with (ssrc d). unfold in_range at 1 2.
    repeat split; try (apply andb_true_iff; lia). tauto.
  - intros Ho'. split.
    + unfold current_ffplayer in *. simpl. rewrite Hff. eauto.
    + exists d'. split.
      * unfold first_data, first_connection. simpl. rewrite Hsub.
        simpl in Hc'. rewrite Hc', Hn'. reflexivity.
      * reflexivity.
Qed.

(** Arming pays off: from an armed keepalive [start_silence_frames]
    starts the countdown of five frames, the first one 20 ms later. *)
Lemma start_silence_frames_armed (w : World) :
  well_formed w -> armed w -> engine_counters_ok w ->
  returns start_silence_frames
    (fun _ w' =>
       ticking w' 5 (clock w + 20)
       /\ clock w' = clock w /\ trace w' = trace w
       /\ player (tp w') = player (tp w)) w.
Proof.
  intros Hwf (Hneed & Hleft & Hint) Hok.
  unfold start_silence_frames, returns. apply post_bind, post_get. cbn beta.
  rewrite Hneed, Hint. simpl negb. rewrite bool_decide_eq_false_2 by (intros H; by apply H).
  cbn [orb]. apply post_bind, post_modify. apply post_bind, post_get. cbn beta.
  set (w0 := with_tp (set_silence_frames_needed false) w).
  assert (Hfin : forall w2,
            tp w2 = tp w0 -> clock w2 = clock w -> trace w2 = trace w ->
            well_formed w2 -> sync_possible w2 ->
            post (E := Error)
              (bind get (fun w3 =>
                    modify (with_tp (set_silence_frames_interval
                              (Some (mkInterval 20 (clock w3 + 20)))))))
              (fun _ w' =>
                 ticking w' 5 (clock w + 20)
                 /\ clock w' = clock w /\ trace w' = trace w
                 /\ player (tp w') = player (tp w))
              (fun _ _ => False) w2).
  { intros w2 Ht Hcl Htr Hwf2 Hs2. apply post_bind, post_get. cbn beta.
    apply post_modify. rewrite Hcl.
    assert (Hs3 : sync_possible
                    (with_tp (set_silence_frames_interval
                                (Some (mkInterval 20 (clock w + 20)))) w2)).
    { apply sync_possible_alt. intros Ho'.
      apply (proj1 (sync_possible_alt w2) Hs2). exact Ho'. }
    split; [|simp; rewrite Ht; subst w0; simp; auto].
    refine (conj Hwf2 (conj Hs3 _)). simp. rewrite Ht. subst w0. simp. auto. }
  destruct (engine_owns_counters w0) eqn:Ho.
  - apply post_bind, post_try_catch, post_bind.
    eapply post_mono;
      [ apply (restore_secretbox_ok w0 Hwf Ho)
      | | intros ? ? [] ].
    + intros Ho'. apply Hok. exact Ho'.
    + intros [] w1 (Ht & Hcl & Htr & Hwf1 & Hs1). cbn beta.
      apply post_ret. cbn beta iota. apply Hfin; auto.
  - apply post_bind, post_ret. cbn beta iota. apply Hfin; auto.
    intros Ho'. congruence.
Qed.

Lemma go_idle_post (w : World) (cause : IdleCause) :
  well_formed w -> armed w -> engine_counters_ok w ->
  (cause = Pause -> is_Some (player (tp w))) ->
  returns (go_idle cause)
    (fun _ w' =>
       ticking w' 5 (clock w + 20)
       /\ send_calls (trace w') = send_calls (trace w)) w.
Proof.
  intros Hwf Harm Hok Hpl. destruct cause; unfold go_idle, returns.
  - unfold onfinish. apply post_bind. unfold emit. apply post_modify.
    eapply post_mono;
      [ apply (start_silence_frames_armed (with_event Emit_finish w) Hwf Harm)
      | | intros ? ? [] ].
    + intros Ho. apply Hok. exact Ho.
    + intros [] w' (Ht & _ & Htr & _). split; [exact Ht|].
      rewrite Htr. simp. rewrite send_calls_snoc. by rewrite app_nil_r.
  - destruct (Hpl eq_refl) as [a Ha].
    unfold setPaused. apply post_bind. unfold check_destroyed.
    apply post_bind, post_get. cbn beta. rewrite Ha. apply post_ret.
    apply post_bind.
    eapply post_mono; [apply (start_silence_frames_armed w Hwf Harm Hok) | | intros ? ? []].
    intros [] w' ((Hwf' & Hs' & Hn' & Hl' & Hi') & _ & Htr & Hp').
    rewrite Ha in Hp'.
    apply post_bind. unfold emit. apply post_modify. apply post_modify.
    unfold with_tp at 1. simp. rewrite Hp'. split.
    + refine (conj Hwf' (conj _ _)); [|simp; auto].
      apply sync_possible_alt. intros Ho.
      assert (Ho' : engine_owns_counters w' = true).
      { revert Ho. unfold engine_owns_counters. simp. by rewrite Hp'. }
      destruct (proj1 (sync_possible_alt w') Hs' Ho') as (Hff & Hconn).
      split; [|exact Hconn].
      revert Hff. unfold current_ffplayer. simp. by rewrite Hp'.
    + simp. rewrite send_calls_snoc, Htr. by rewrite app_nil_r.
Qed.

(** C8. With the keepalive armed, once the stream goes idle (the engine
    reports the end, or the player is paused) the timer is set with a
    period of 20 ms; left alone, it fires five times, 20 ms apart, each
    firing sends one silence frame, and with the fifth the timer is
    cleared: further turns of the event loop send nothing, and
    [start_silence_frames] does nothing until the keepalive is armed
    again. *)
Theorem keepalive_five_frames (w : World) (cause : IdleCause) (n : nat) :
  well_formed w -> armed w -> engine_counters_ok w ->
  (cause = Pause -> is_Some (player (tp w))) ->
  (5 <= n)%nat ->
  exists w1 w2,
    go_idle cause w = (Returned tt, w1)
    /\ silence_frames_interval (tp w1) = Some (mkInterval 20 (clock w + 20))
    /\ send_calls (trace w1) = send_calls (trace w)
    /\ run_idle crypto_secretbox_easy randombytes_buf n w1 = (Returned tt, w2)
    /\ send_calls (trace w2)
       = send_calls (trace w)
         ++ [(clock w + 20, SILENCE, 960, true); (clock w + 40, SILENCE, 960, true);
             (clock w + 60, SILENCE, 960, true); (clock w + 80, SILENCE, 960, true);
             (clock w + 100, SILENCE, 960, true)]
    /\ silence_frames_interval (tp w2) = None
    /\ silence_frames_needed (tp w2) = false
    /\ start_silence_frames w2 = (Returned tt, w2).
Proof.
  intros Hwf Harm Hok Hpl Hn.
  pose proof (go_idle_post w cause Hwf Harm Hok Hpl) as Hgo.
  apply returns_eq in Hgo. destruct Hgo as ([] & w1 & Hrun1 & Htick & Hcalls1).
  destruct (run_countdown 4 w1 (clock w + 20) Htick) as (w2 & Hrun2 & Hdone & Hcalls2).
  destruct Hdone as (_ & Hneed2 & _ & Hint2).
  exists w1, w2. split; [exact Hrun1|].
  split; [apply Htick|]. split; [exact Hcalls1|]. split; [|split; [|split; [|split]]].
  - replace n with (5 + (n - 5))%nat by lia. rewrite run_idle_app.
    unfold bind. rewrite Hrun2. apply run_idle_done. exact Hint2.
  - rewrite Hcalls2, Hcalls1. f_equal. simpl.
    repeat (f_equal; try lia).
  - exact Hint2.
  - exact Hneed2.
  - unfold start_silence_frames, bind, get. rewrite Hneed2. reflexivity.
Qed.

(** ** Subscriptions *)

(** C4. With external encryption and a subscription in place,
    [subscribe] throws an [UnsupportedError] and leaves the world as it
    was: the list of subscriptions is the one from before, and the
    connection that was to be subscribed has no listener more than
    before. *)
Theorem subscribe_second_unsupported (w : World) (c : nat) :
  external_encrypt (tp w) = true -> subscriptions (tp w) <> [] ->
  exists msg w',
    subscribe c w = (Thrown (UnsupportedError msg), w')
    /\ w' = w
    /\ subscriptions (tp w') = subscriptions (tp w)
    /\ listeners <$> conns w' !! c = listeners <$> conns w !! c.
Proof.
  intros Hext Hsubs. eexists _, w.
  split; [|auto].
  unfold subscribe, bind, get. rewrite Hext.
  destruct (subscriptions (tp w)) as [|s rest]; [congruence|]. reflexivity.
Qed.

(** ** Whom a [send] reaches *)

Lemma reaches_snoc (c : nat) (tr : list (Z * Event)) (t : Z) (e : Event) :
  List.filter (reaches c) (tr ++ [(t, e)])
  = List.filter (reaches c) tr ++ (if reaches c (t, e) then [(t, e)] else []).
Proof. by rewrite List.filter_app. Qed.

Lemma send_connection_skip (w : World) (c : nat) (buffer : list Z) (f : Z) (sil : bool) :
  (forall conn, conns w !! c = Some conn -> status conn <> Ready) ->
  send_connection crypto_secretbox_easy randombytes_buf buffer f sil c w = (Returned tt, w).
Proof.
  intros H. unfold send_connection, bind, get.
  destruct (conns w !! c) as [conn|]; [|reflexivity].
  rewrite bool_decide_eq_false_2 by (by apply H). reflexivity.
Qed.

(** The loop body for one connection leaves every other connection
    alone, whatever it does. *)
Lemma send_connection_other (w : World) (c x : nat) (buffer : list Z) (f : Z) (sil : bool) :
  x <> c ->
  post (send_connection crypto_secretbox_easy randombytes_buf buffer f sil x)
       (fun _ w' => conns w' !! c = conns w !! c
                    /\ List.filter (reaches c) (trace w') = List.filter (reaches c) (trace w))
       (fun _ w' => conns w' !! c = conns w !! c
                    /\ List.filter (reaches c) (trace w') = List.filter (reaches c) (trace w))
       w.
Proof.
  intros Hx. unfold send_connection.
  repeat codec_step.
  all: rewrite ?lookup_alter_ne by exact Hx.
  all: rewrite ?reaches_snoc; unfold reaches; cbn [snd];
    rewrite ?(bool_decide_eq_false_2 (x = c)) by exact Hx;
    rewrite ?app_nil_r; split; reflexivity.
Qed.

(** [send] reaches the subscribed connections that are ready, and no
    other: a connection that is not subscribed or not ready is left as
    it is, and neither [setSpeaking] nor a packet goes to it. *)
Theorem send_reaches_ready_only (w : World) (c : nat) (buffer : list Z) (f : Z) (sil : bool) :
  well_formed w -> 0 <= f ->
  (forall conn, conns w !! c = Some conn ->
                In c (map connection (subscriptions (tp w))) -> status conn <> Ready) ->
  exists w',
    send crypto_secretbox_easy randombytes_buf buffer f sil w = (Returned tt, w')
    /\ conns w' !! c = conns w !! c
    /\ List.filter (reaches c) (trace w') = List.filter (reaches c) (trace w).
Proof.
  intros Hwf Hf Hskip.
  pose proof (send_post crypto_secretbox_easy randombytes_buf w buffer f sil Hwf Hf) as Hret.
  assert (Hpost : post (send crypto_secretbox_easy randombytes_buf buffer f sil)
            (fun _ w' => conns w' !! c = conns w !! c
               /\ List.filter (reaches c) (trace w') = List.filter (reaches c) (trace w))
            (fun _ _ => True) w).
  { unfold send. apply post_bind. unfold emit. apply post_modify.
    apply post_bind, post_gets. cbn beta. simp.
    set (all := map connection (subscriptions (tp w))).
    eapply post_mono;
      [ apply (post_for_each all _
          (fun rest s => (forall x, In x rest -> In x all)
             /\ conns s !! c = conns w !! c
             /\ List.filter (reaches c) (trace s) = List.filter (reaches c) (trace w))
          (fun _ _ => True)) | | auto ].
    - split; [auto|]. split; [reflexivity|]. simp.
      rewrite reaches_snoc. unfold reaches. simpl. by rewrite app_nil_r.
    - intros x rest s (Hin & Hcs & Htr).
      destruct (decide (x = c)) as [->|Hne].
      + unfold post. rewrite send_connection_skip.
        * split; [|auto]. intros y Hy. apply Hin. by right.
        * intros conn Hconn. rewrite Hcs in Hconn. apply Hskip; [exact Hconn|].
          apply Hin. by left.
      + eapply post_mono; [apply (send_connection_other s c x); exact Hne | | auto].
        intros [] s' (Hcs' & Htr'). split; [|split; congruence].
        intros y Hy. apply Hin. by right.
    - intros [] s (_ & Hcs & Htr). auto. }
  apply returns_eq in Hret. destruct Hret as ([] & w' & Hrun & _).
  exists w'. split; [exact Hrun|].
  unfold post in Hpost. rewrite Hrun in Hpost. exact Hpost.
Qed.

(** With external encryption, a frame that is not a silence frame is
    forwarded as the decode engine delivered it: no header is written,
    nothing is encrypted and no counter moves. *)
Theorem send_external_passthrough (w : World) (c : nat) (conn : VoiceConnection)
        (d : ConnectionData) (u : Udp) (buffer : list Z) (f : Z) :
  external_encrypt (tp w) = true ->
  subscriptions (tp w) = [mkSub c] ->
  conns w !! c = Some conn -> status conn = Ready ->
  networking conn = Some (mkNet (Some d) (Some u)) ->
  send crypto_secretbox_easy randombytes_buf buffer f false w
  = (Returned tt,
     with_event (UdpSend c buffer)
       (with_event (SetSpeaking c) (with_event (SendCall buffer f false) w))).
Proof.
  intros He Hsubs Hc Hs Hn.
  unfold send, emit, bind, modify, gets. simp. rewrite Hsubs.
  cbn [map connection for_each]. unfold send_connection, bind, get, emit, modify. simp.
  rewrite Hc, Hs. rewrite bool_decide_eq_true_2 by reflexivity. cbn [negb].
  rewrite Hn. cbn [connectionData udp]. rewrite He. reflexivity.
Qed.

(** ** The invariant of the keepalive *)

Lemma preserves_ret {A} (I : World -> Prop) (a : A) : preserves I (ret a).
Proof. intros w H. exact H. Qed.

Lemma preserves_throw {A} (I : World -> Prop) (e : Error) : preserves I (throw (A := A) e).
Proof. intros w H. exact H. Qed.

Lemma preserves_get (I : World -> Prop) : preserves I get.
Proof. intros w H. exact H. Qed.

Lemma preserves_gets {A} (I : World -> Prop) (f : World -> A) : preserves I (gets f).
Proof. intros w H. exact H. Qed.

Lemma preserves_modify (I : World -> Prop) (f : World -> World) :
  (forall w, I w -> I (f w)) -> preserves I (modify f).
Proof. intros Hf w H. apply Hf, H. Qed.

Lemma preserves_bind {A B} (I : World -> Prop) (m : M World Error A) (k : A -> M World Error B) :
  preserves I m -> (forall a, preserves I (k a)) -> preserves I (bind m k).
Proof.
  intros Hm Hk w H. apply post_bind.
  eapply post_mono; [apply Hm, H | | auto].
  intros a w' H'. apply Hk, H'.
Qed.

Lemma preserves_try_catch {A} (I : World -> Prop) (m : M World Error A) (h : Error -> M World Error A) :
  preserves I m -> (forall e, preserves I (h e)) -> preserves I (try_catch m h).
Proof.
  intros Hm Hh w H. apply post_try_catch.
  eapply post_mono; [apply Hm, H | auto |].
  intros e w' H'. apply Hh, H'.
Qed.

Lemma preserves_for_each {A} (I : World -> Prop) (xs : list A) (body : A -> M World Error unit) :
  (forall x, preserves I (body x)) -> preserves I (for_each xs body).
Proof.
  intros Hb. induction xs as [|x xs IH]; simpl.
  - apply preserves_ret.
  - apply preserves_bind; [apply Hb | intros _; exact IH].
Qed.

(** The structure of an operation decides: what is left are the
    operations that write the three fields. *)
Ltac preserves_step_by unf :=
  lazymatch goal with
  | |- preserves _ (bind _ _) => apply preserves_bind; [|intro]
  | |- preserves _ (try_catch _ _) => apply preserves_try_catch; [|intro]
  | |- preserves _ (for_each _ _) => apply preserves_for_each; intro
  | |- preserves _ (ret _) => apply preserves_ret
  | |- preserves _ (throw _) => apply preserves_throw
  | |- preserves _ get => apply preserves_get
  | |- preserves _ (gets _) => apply preserves_gets
  | |- preserves _ (modify _) =>
      apply preserves_modify; let H := fresh in intros ? H;
      first [ exact H
            | unf; simp;
              repeat match goal with
                     | |- context [match ?x with _ => _ end] => destruct x
                     end;
              exact H ]
  | |- preserves _ (emit _) => unfold emit
  | |- preserves _ (of_option ?o _) => destruct o; unfold of_option
  | |- preserves _ (put_connectionData _ _) => unfold put_connectionData
  | |- preserves _ (update_ffplayer _) =>
      unfold update_ffplayer; apply preserves_modify;
      let H := fresh in intros ? H; unf; simp;
      match goal with |- context [player ?p] => destruct (player p) end; exact H
  | |- preserves _ (audio_writeUInt16BE _ _) => unfold audio_writeUInt16BE
  | |- preserves _ (audio_writeUInt32BE _ _) => unfold audio_writeUInt32BE
  | |- preserves _ (audio_set _ _) => unfold audio_set
  | |- preserves _ (nonce_writeUInt32BE _ _) => unfold nonce_writeUInt32BE
  | |- preserves _ (secretbox_into_audio _ _ _ _) => unfold secretbox_into_audio
  | |- preserves _ (encrypt_packet _ _ _ _ _ _ _) => unfold encrypt_packet
  | |- preserves _ get_connection => unfold get_connection
  | |- preserves _ get_connection_data => unfold get_connection_data
  | |- preserves _ get_connection_udp => unfold get_connection_udp
  | |- preserves _ restore_secretbox => unfold restore_secretbox
  | |- preserves _ update_secretbox => unfold update_secretbox
  | |- preserves _ cleanup => unfold cleanup
  | |- preserves _ check_destroyed => unfold check_destroyed
  | |- preserves _ getTime => unfold getTime
  | |- preserves _ isPaused => unfold isPaused
  | |- preserves _ (add_listener _) => unfold add_listener
  | |- preserves _ (if ?b then _ else _) => destruct b
  | |- preserves _ (match ?x with _ => _ end) => destruct x
  | |- preserves _ (let '(_, _) := ?r in _) => destruct r
  end.

Ltac preserves_step := preserves_step_by ltac:(unfold timer_ok, clear_streams in *).

Lemma send_connection_timer (buffer : list Z) (f : Z) (sil : bool) (c : nat) :
  preserves timer_ok (send_connection crypto_secretbox_easy randombytes_buf buffer f sil c).
Proof. unfold send_connection. repeat preserves_step. Qed.

Lemma send_timer (buffer : list Z) (f : Z) (sil : bool) :
  preserves timer_ok (send crypto_secretbox_easy randombytes_buf buffer f sil).
Proof.
  unfold send. repeat preserves_step. apply send_connection_timer.
Qed.

Lemma clear_interval_timer : preserves timer_ok clear_interval.
Proof.
  intros w (H1 & H2 & H3). unfold clear_interval.
  run_step. run_step.
  destruct (silence_frames_interval (tp w)) as [iv|] eqn:E.
  - run_step. unfold timer_ok. simp.
    split; [|split; [discriminate | exact H3]].
    intros Hn. destruct (H1 Hn). auto.
  - run_step. unfold timer_ok. rewrite E. auto.
Qed.

Lemma stop_silence_frames_timer : preserves timer_ok stop_silence_frames.
Proof.
  intros w (H1 & H2 & H3). unfold stop_silence_frames.
  run_step. run_step.
  destruct (silence_frames_needed (tp w)) eqn:Hn.
  - run_step. unfold timer_ok. rewrite Hn. auto.
  - repeat run_step.
    all: unfold timer_ok; simp.
    all: repeat match goal with
                | H : silence_frames_interval _ = _ |- _ => rewrite H; clear H
                end.
    all: repeat split; auto; try discriminate; lia.
Qed.

Lemma start_silence_frames_timer : preserves timer_ok start_silence_frames.
Proof.
  intros w (H1 & H2 & H3). unfold start_silence_frames.
  run_step. run_step.
  destruct (silence_frames_needed (tp w)) eqn:Hn; cbn [negb orb].
  2:{ run_step. unfold timer_ok. rewrite Hn. auto. }
  destruct (H1 eq_refl) as [Hl Hi]. rewrite Hi.
  rewrite bool_decide_eq_false_2 by (intros H; by apply H).
  repeat run_step; unfold timer_ok; simp.
  all: rewrite ?Hl, ?Hi.
  all: repeat split; try discriminate; try lia.
  all: match goal with H : Some _ = Some _ |- _ => injection H as <- end; reflexivity.
Qed.

Create HintDb timer.
#[local] Hint Resolve send_timer clear_interval_timer stop_silence_frames_timer
  start_silence_frames_timer : timer.

Ltac timer_auto := repeat first [ preserves_step | solve [auto with timer] ].

Lemma destroy_player_timer : preserves timer_ok destroy_player.
Proof. unfold destroy_player. timer_auto. Qed.
#[local] Hint Resolve destroy_player_timer : timer.

Lemma init_secretbox_timer : preserves timer_ok init_secretbox.
Proof. unfold init_secretbox. timer_auto. Qed.
#[local] Hint Resolve init_secretbox_timer : timer.

Lemma create_player_timer (fresh : Construction) (startTime : option Z) :
  preserves timer_ok (create_player fresh startTime).
Proof. unfold create_player. timer_auto. Qed.
#[local] Hint Resolve create_player_timer : timer.

Lemma error_timer (err : option string) (retryable : option bool) (t1 t2 : Z) :
  preserves timer_ok (error err retryable t1 t2).
Proof. unfold error. timer_auto. Qed.
#[local] Hint Resolve error_timer : timer.

Lemma start_timer : preserves timer_ok start.
Proof. unfold start, load_streams. timer_auto. Qed.
#[local] Hint Resolve start_timer : timer.

Lemma getStreams_settled_timer (playId : Z) (result : Settlement) :
  preserves timer_ok (getStreams_settled playId result).
Proof. unfold getStreams_settled, select_stream. timer_auto. Qed.

Lemma onerror_timer (err : option string) (retryable : option bool) (t1 t2 : Z)
      (fresh : Construction) :
  preserves timer_ok (onerror err retryable t1 t2 fresh).
Proof. unfold onerror. timer_auto. Qed.

Lemma play_timer (t : Track) (fresh : Construction) :
  preserves timer_ok (play t fresh).
Proof. unfold play. timer_auto. Qed.

Lemma subscribe_timer (c : nat) :
  preserves timer_ok (subscribe c).
Proof. unfold subscribe. timer_auto. Qed.

Lemma onpacket_timer (packet : list Z) (len : nat) (f : Z) :
  preserves timer_ok (onpacket crypto_secretbox_easy randombytes_buf packet len f).
Proof. unfold onpacket. timer_auto. Qed.

Lemma setPaused_timer (p : bool) : preserves timer_ok (setPaused p).
Proof. unfold setPaused. timer_auto. Qed.

Lemma onstatechange_timer (cur : Status) : preserves timer_ok (onstatechange cur).
Proof. unfold onstatechange. timer_auto. Qed.

(** What the timer callback does after its [send]. *)
Lemma silence_tick_tail (w : World) (iv : Interval) (k : Z) :
  silence_frames_interval (tp w) = Some iv ->
  silence_frames_left (tp w) = k ->
  returns
    (bind get (fun w0 =>
     bind (if engine_owns_counters w0 then
             try_catch (bind update_secretbox (fun _ => ret true))
               (fun _ => bind (emit (ConsoleError "Error updating secret box state:"))
                           (fun _ => bind clear_interval (fun _ => ret false)))
           else ret true)
       (fun proceed : bool =>
          if proceed then
            bind get (fun w1 =>
              if silence_frames_left (tp w1) =? 0 then clear_interval else ret tt)
          else ret tt)))
    (fun _ w' =>
       conns w' = conns w /\ bufs w' = bufs w /\ clock w' = clock w
       /\ send_calls (trace w') = send_calls (trace w)
       /\ silence_frames_needed (tp w') = silence_frames_needed (tp w)
       /\ silence_frames_left (tp w') = k
       /\ (silence_frames_interval (tp w') = None
           \/ silence_frames_interval (tp w') = Some iv /\ k <> 0)) w.
Proof.
  intros Hi Hl.
  repeat run_step.
  all: split_player.
  all: rewrite ?send_calls_snoc, ?app_nil_r.
  all: repeat match goal with
              | H : (_ =? 0) = true |- _ => apply Z.eqb_eq in H
              | H : (_ =? 0) = false |- _ => apply Z.eqb_neq in H
              end.
  all: try congruence.
  all: repeat split; auto.
  all: try (right; split; congruence).
Qed.

(** One firing of the timer: one frame, one frame less to send, and
    the invariant holds again. *)
Lemma fire_interval_timer (w : World) (iv : Interval) :
  well_formed w -> timer_ok w ->
  silence_frames_interval (tp w) = Some iv ->
  returns (fire_interval crypto_secretbox_easy randombytes_buf)
    (fun _ w' =>
       well_formed w' /\ timer_ok w' /\ clock w' = due iv
       /\ send_calls (trace w') = send_calls (trace w) ++ [(due iv, SILENCE, 960, true)]
       /\ silence_frames_left (tp w') = silence_frames_left (tp w) - 1
       /\ (silence_frames_interval (tp w') = None
           \/ silence_frames_interval (tp w') = Some (mkInterval 20 (due iv + 20)))) w.
Proof.
  intros Hwf (H1 & H2 & H3) Hi.
  destruct (H2 iv Hi) as [Hp Hl].
  assert (Hneed : silence_frames_needed (tp w) = false).
  { destruct (silence_frames_needed (tp w)); [|reflexivity].
    destruct (H1 eq_refl) as [_ Hnone]. congruence. }
  unfold fire_interval, returns. apply post_bind, post_get. cbn beta. rewrite Hi.
  apply post_bind, post_modify. apply post_bind, post_modify. rewrite Hp.
  unfold silence_tick. apply post_bind, post_modify.
  match goal with |- post _ _ _ ?W => set (w0 := W) end.
  assert (Hwf0 : well_formed w0) by exact Hwf.
  apply post_bind.
  eapply post_mono;
    [ apply (post_conj _ _ _ _ _ _
               (send_post crypto_secretbox_easy randombytes_buf w0 SILENCE 960 true
                  Hwf0 ltac:(lia))
               (send_calls_post w0 SILENCE 960 true)) | | intros ? ? [[] _] ].
  intros [] w1 ((Ht & Hcl & Hwf1 & _) & Hcalls). cbn beta.
  eapply post_mono;
    [ apply (silence_tick_tail w1 (mkInterval 20 (due iv + 20))
               (silence_frames_left (tp w) - 1))
    | | intros ? ? [] ].
  - rewrite Ht. reflexivity.
  - rewrite Ht. reflexivity.
  - intros [] w2 (Hc2 & Hb2 & Hcl2 & Hcalls2 & Hn2 & Hl2 & Hi2).
    rewrite Ht in Hn2. subst w0. simp.
    split; [|split; [|split; [|split; [|split]]]].
    + destruct Hwf1 as [Ha Hb]. split; [by rewrite Hb2 | by rewrite Hc2].
    + unfold timer_ok. rewrite Hn2, Hneed, Hl2.
      split; [discriminate|]. split; [|lia].
      intros iv' Hiv'. destruct Hi2 as [Hi2 | [Hi2 Hne]]; [congruence|].
      rewrite Hi2 in Hiv'. injection Hiv' as <-. simpl. lia.
    + congruence.
    + rewrite Hcalls2, Hcalls. reflexivity.
    + exact Hl2.
    + destruct Hi2 as [Hi2 | [Hi2 _]]; auto.
Qed.

(** The keepalive keeps its invariant under everything that can be done
    to the player; the firing of the timer needs a world in which its
    [send] does not fail. *)
Theorem timer_invariant (k : Action) (w : World) :
  well_formed w -> timer_ok w ->
  post (act crypto_secretbox_easy randombytes_buf k)
       (fun _ w' => timer_ok w') (fun _ w' => timer_ok w') w.
Proof.
  intros Hwf Hok.
  assert (Hdone : forall m : M World Error unit, preserves timer_ok m ->
            post m (fun _ w' => timer_ok w') (fun _ w' => timer_ok w') w).
  { intros m Hm. apply Hm, Hok. }
  assert (Hdrop : forall A (m : M World Error A), preserves timer_ok m ->
            preserves timer_ok (bind m (fun _ => ret tt))).
  { intros A m Hm. apply preserves_bind; [exact Hm | intros _; apply preserves_ret]. }
  destruct k; cbn [act].
  - apply Hdone, Hdrop, subscribe_timer.
  - apply Hdone, onstatechange_timer.
  - apply Hdone, onpacket_timer.
  - apply Hdone. unfold onfinish. timer_auto.
  - apply Hdone, Hdrop, onerror_timer.
  - apply Hdone, Hdrop, play_timer.
  - apply Hdone, Hdrop, start_timer.
  - apply Hdone, Hdrop, getStreams_settled_timer.
  - apply Hdone, setPaused_timer.
  - apply Hdone. unfold stop. timer_auto.
  - apply Hdone. unfold seek. timer_auto.
  - apply Hdone, create_player_timer.
  - apply Hdone, destroy_player_timer.
  - apply Hdone, init_secretbox_timer.
  - apply Hdone, send_timer.
  - apply Hdone, start_silence_frames_timer.
  - apply Hdone, stop_silence_frames_timer.
  - apply Hdone, Hdrop, error_timer.
  - destruct (silence_frames_interval (tp w)) as [iv|] eqn:Hi.
    + eapply post_mono; [apply (fire_interval_timer w iv Hwf Hok Hi) | | intros ? ? []].
      intros [] w' (_ & H & _). exact H.
    + unfold post. rewrite fire_interval_idle by exact Hi. exact Hok.
Qed.

Lemma run_idle_bounded (n : nat) (w : World) :
  well_formed w -> timer_ok w -> frames_pending w <= Z.of_nat n ->
  exists w',
    run_idle crypto_secretbox_easy randombytes_buf n w = (Returned tt, w')
    /\ silence_frames_interval (tp w') = None
    /\ (length (send_calls (trace w')) <= length (send_calls (trace w))
                                          + Z.to_nat (frames_pending w))%nat.
Proof.
  revert w. induction n as [|n IH]; intros w Hwf Hok Hn.
  - exists w. split; [reflexivity|]. split; [|lia].
    unfold frames_pending in Hn. destruct Hok as (_ & H2 & _).
    destruct (silence_frames_interval (tp w)) as [iv|]; [|reflexivity].
    destruct (H2 iv eq_refl). lia.
  - destruct (silence_frames_interval (tp w)) as [iv|] eqn:Hi.
    + pose proof (fire_interval_timer w iv Hwf Hok Hi) as Hfire.
      apply returns_eq in Hfire.
      destruct Hfire as ([] & w1 & Hrun & Hwf1 & Hok1 & _ & Hcalls & Hl1 & Hi1).
      assert (Hp : frames_pending w = silence_frames_left (tp w))
        by (unfold frames_pending; by rewrite Hi).
      assert (Hp1 : frames_pending w1 <= frames_pending w - 1).
      { unfold frames_pending at 1. destruct (silence_frames_interval (tp w1)); [lia|].
        destruct Hok as (_ & H2 & _). destruct (H2 iv Hi). lia. }
      destruct (IH w1 Hwf1 Hok1 ltac:(lia)) as (w' & Hrun' & Hnone & Hlen).
      exists w'. split; [|split; [exact Hnone|]].
      * simpl. unfold bind. rewrite Hrun. exact Hrun'.
      * rewrite Hcalls, length_app in Hlen. simpl in Hlen.
        assert (0 <= frames_pending w1).
        { unfold frames_pending. destruct Hok1 as (_ & _ & H3).
          destruct (silence_frames_interval (tp w1)); lia. }
        lia.
    + exists w. split; [by apply run_idle_done|]. split; [exact Hi | lia].
Qed.

(** A countdown never runs away: whatever state the operations have
    left the keepalive in, left alone the timer is gone after five
    firings at the latest, and has sent no more frames than were
    pending. *)
Theorem keepalive_bounded (n : nat) (w : World) :
  well_formed w -> timer_ok w -> (5 <= n)%nat ->
  exists w',
    run_idle crypto_secretbox_easy randombytes_buf n w = (Returned tt, w')
    /\ silence_frames_interval (tp w') = None
    /\ (length (send_calls (trace w')) <= length (send_calls (trace w))
                                          + Z.to_nat (frames_pending w))%nat
    /\ frames_pending w <= 5.
Proof.
  intros Hwf Hok Hn.
  assert (Hp : 0 <= frames_pending w <= 5).
  { unfold frames_pending. destruct Hok as (_ & _ & H3).
    destruct (silence_frames_interval (tp w)); lia. }
  destruct (run_idle_bounded n w Hwf Hok ltac:(lia)) as (w' & Hrun & Hnone & Hlen).
  exists w'. repeat split; auto. lia.
Qed.

(** ** The hooks of the decode engine and the guarded calls *)

Lemma stop_silence_frames_arms (w : World) :
  timer_ok w ->
  returns stop_silence_frames
    (fun _ w' =>
       armed w' /\ conns w' = conns w /\ bufs w' = bufs w /\ clock w' = clock w
       /\ trace w' = trace w
       /\ external_packet_send (tp w') = external_packet_send (tp w)
       /\ external_encrypt (tp w') = external_encrypt (tp w)
       /\ subscriptions (tp w') = subscriptions (tp w)
       /\ player (tp w') = player (tp w)) w.
Proof.
  intros (H1 & H2 & H3). unfold stop_silence_frames.
  run_step. run_step. run_step.
  destruct (silence_frames_needed (tp w)) eqn:Hn.
  - run_step. destruct (H1 eq_refl). unfold armed. auto 10.
  - repeat run_step. all: unfold armed; simp; auto 10.
Qed.

(** A packet from the decode engine, while the player is not paused:
    the keepalive is armed again (a countdown that was running is
    cancelled), the packet, cut to the length the engine reports, is sent
    once unless the engine sends by itself, and the ['packet'] event
    follows the send. *)
Theorem onpacket_effect (w : World) (a : AudioPlayer) (packet : list Z) (len : nat)
        (frameSize : Z) :
  well_formed w -> timer_ok w -> 0 <= frameSize ->
  player (tp w) = Some a -> paused a = false ->
  (len <= length packet)%nat ->
  exists w' tr,
    onpacket crypto_secretbox_easy randombytes_buf packet len frameSize w = (Returned tt, w')
    /\ armed w'
    /\ trace w' = tr ++ [(clock w, Emit_packet (take len packet) frameSize)]
    /\ send_calls (trace w')
       = send_calls (trace w)
         ++ (if external_packet_send (tp w) then []
             else [(clock w, take len packet, frameSize, false)]).
Proof.
  intros Hwf Hok Hf Hp Hpa Hlen.
  assert (Hfinal : (if (length packet =? len)%nat then ret packet
                    else if (len <=? length packet)%nat then ret (take len packet)
                    else throw RangeError)
                   = ret (S := World) (E := Error) (take len packet)).
  { destruct (Nat.eqb_spec (length packet) len) as [<-|_]; [by rewrite take_ge|].
    by rewrite (proj2 (Nat.leb_le _ _) Hlen). }
  cut (returns (onpacket crypto_secretbox_easy randombytes_buf packet len frameSize)
         (fun _ w' =>
            armed w'
            /\ (exists tr, trace w' = tr ++ [(clock w, Emit_packet (take len packet) frameSize)])
            /\ send_calls (trace w')
               = send_calls (trace w)
                 ++ (if external_packet_send (tp w) then []
                     else [(clock w, take len packet, frameSize, false)])) w).
  { intros H. apply returns_eq in H. destruct H as ([] & w' & Hrun & Ha & [tr Htr] & Hc).
    exists w', tr. auto. }
  unfold onpacket. rewrite Hfinal.
  apply post_bind. unfold isPaused, check_destroyed.
  apply post_bind, post_bind, post_get. cbn beta. rewrite Hp. unfold of_option.
  apply post_ret, post_ret. rewrite Hpa. cbn [negb].
  apply post_bind.
  eapply post_mono; [apply (stop_silence_frames_arms w Hok) | | intros ? ? []].
  intros [] w1 (Harm & Hc1 & Hb1 & Hcl1 & Htr1 & Hx1 & _ & _ & _). cbn beta.
  assert (Hwf1 : well_formed w1).
  { destruct Hwf as [Ha Hb]. split; [by rewrite Hb1 | by rewrite Hc1]. }
  apply post_bind, post_ret.
  apply post_bind, post_get. cbn beta. rewrite Hx1.
  destruct (external_packet_send (tp w)); cbn [negb].
  - apply post_bind, post_ret. unfold emit. apply post_modify. simp.
    split; [exact Harm|]. split.
    + exists (trace w1). by rewrite Hcl1.
    + rewrite send_calls_snoc, Htr1. reflexivity.
  - apply post_bind.
    eapply post_mono;
      [ apply (post_conj _ _ _ _ _ _
                 (send_post crypto_secretbox_easy randombytes_buf w1 (take len packet)
                    frameSize false Hwf1 Hf)
                 (send_calls_post w1 (take len packet) frameSize false))
      | | intros ? ? [[] _] ].
    intros [] w2 ((Ht2 & Hcl2 & _) & Hcalls). cbn beta.
    unfold emit. apply post_modify. simp.
    split; [|split].
    + unfold armed in *. simp. by rewrite Ht2.
    + exists (trace w2). by rewrite Hcl2, Hcl1.
    + rewrite send_calls_snoc, app_nil_r, Hcalls, Htr1, Hcl1. reflexivity.
Qed.

(** Once the decode engine is gone, the calls that need it throw a
    [GenericError] and change nothing - also the packet hook, should
    the engine still call it. *)
Theorem destroyed_player_throws (w : World) (p : bool) (t : Z)
        (packet : list Z) (len : nat) (frameSize : Z) :
  player (tp w) = None ->
  let gone := GenericError "Player was destroyed or nothing was playing" in
  isPaused w = (Thrown gone, w)
  /\ getTime w = (Thrown gone, w)
  /\ setPaused p w = (Thrown gone, w)
  /\ seek t w = (Thrown gone, w)
  /\ onpacket crypto_secretbox_easy randombytes_buf packet len frameSize w = (Thrown gone, w)
  /\ stop w = (Returned tt, w)
  /\ destroy_player w = (Returned tt, w).
Proof.
  intros Hp gone.
  assert (Hcheck : check_destroyed w = (Thrown gone, w)).
  { unfold check_destroyed, bind, get, of_option. by rewrite Hp. }
  assert (Hpaused : isPaused w = (Thrown gone, w)).
  { unfold isPaused, bind. by rewrite Hcheck. }
  split; [exact Hpaused|].
  split; [unfold getTime, bind; by rewrite Hcheck|].
  split; [unfold setPaused, bind; by rewrite Hcheck|].
  split; [unfold seek, bind; by rewrite Hcheck|].
  split; [unfold onpacket, bind; by rewrite Hpaused|].
  split; [unfold stop, bind, get; by rewrite Hp|].
  unfold destroy_player, bind, get. by rewrite Hp.
Qed.

(** ** Errors, one after the other *)

(** An error that was let pass starts the window of five minutes: the
    next error within it is fatal, whatever it is. *)
Theorem error_second_is_fatal (w w1 : World) (err1 err2 : option string)
        (retryable1 retryable2 : option bool) (check1 record1 check2 record2 : Z) :
  error err1 retryable1 check1 record1 w = (Returned false, w1) ->
  check2 - record1 < 300000 ->
  exists w2,
    error err2 retryable2 check2 record2 w1 = (Returned true, w2)
    /\ player (tp w2) = None
    /\ last_error (tp w2) = record1
    /\ errors_emitted (trace w2)
       = errors_emitted (trace w1)
         ++ [InternalError (default "Unknown playback error"%string err2)].
Proof.
  intros H1 Hlt.
  destruct (proj1 (returns_eq _ _ _) (error_post w err1 retryable1 check1 record1))
    as (fatal & w1' & Hrun & _ & _ & Hgo).
  rewrite H1 in Hrun. injection Hrun as <- <-. specialize (Hgo eq_refl).
  destruct (proj1 (returns_eq _ _ _) (error_post w1 err2 retryable2 check2 record2))
    as (fatal2 & w2 & Hrun2 & Hiff & Hfatal & _).
  assert (Hle : last_error (tp w1) = record1) by (rewrite Hgo; reflexivity).
  assert (fatal2 = true) as -> by (apply Hiff; right; lia).
  exists w2. split; [exact Hrun2|].
  destruct (Hfatal eq_refl) as (Hp & Hl & _ & He). rewrite Hl. auto.
Qed.

Lemma start_keeps (w : World) :
  returns start
    (fun r w' =>
       keeps_track w w'
       /\ (r = NotStarted \/ r = AwaitGetStreams (play_id (tp w))
           \/ r = AwaitGetUrl (play_id (tp w)) \/ exists b, r = AwaitLoadStreams b)) w.
Proof.
  unfold start, load_streams, keeps_track.
  repeat run_step.
  all: split; [repeat split; congruence | eauto 10].
Qed.

Lemma play_post (w : World) (t : Track) (fresh : Construction) :
  returns (play t fresh)
    (fun r w' =>
       track (tp w') = Some t /\ last_error (tp w') = 0
       /\ play_id (tp w')
          = (if play_id (tp w) + 1 >? MAX_PLAY_ID then 0 else play_id (tp w) + 1)
       /\ (r = NotStarted \/ r = AwaitGetStreams (play_id (tp w'))
           \/ r = AwaitGetUrl (play_id (tp w')) \/ exists b, r = AwaitLoadStreams b)) w.
Proof.
  unfold play.
  apply post_bind, post_modify. apply post_bind, post_get. cbn beta. simp.
  set (id' := if play_id (tp w) + 1 >? MAX_PLAY_ID then 0 else play_id (tp w) + 1).
  assert (Hgoal : forall w0,
            play_id (tp w0) = id' -> 
            post (bind (modify (with_tp (set_last_error 0)))
                    (fun _ => bind (modify (with_tp (set_stream None)))
                       (fun _ => bind (modify (with_tp (set_track (Some t))))
                          (fun _ => bind (create_player fresh None) (fun _ => start)))))
              (fun r w' =>
                 track (tp w') = Some t /\ last_error (tp w') = 0
                 /\ play_id (tp w') = id'
                 /\ (r = NotStarted \/ r = AwaitGetStreams (play_id (tp w'))
                     \/ r = AwaitGetUrl (play_id (tp w'))
                     \/ exists b, r = AwaitLoadStreams b))
              (fun _ _ => False) w0).
  { intros w0 Hid.
    apply post_bind, post_modify. apply post_bind, post_modify.
    apply post_bind, post_modify. apply post_bind.
    eapply post_mono; [apply create_player_post | | intros ? ? []].
    intros [] w1 (Ht1 & Hid1 & Hl1 & _). cbn beta. simp.
    eapply post_mono; [apply start_keeps | | intros ? ? []].
    intros r w2 ((Ht2 & Hid2 & Hl2 & _) & Hr). cbn beta.
    rewrite Hid2. repeat split; [congruence | congruence | congruence | exact Hr]. }
  subst id'.
  destruct (play_id (tp w) + 1 >? MAX_PLAY_ID) eqn:E.
  - apply post_bind, post_modify. apply Hgoal. reflexivity.
  - apply post_bind, post_ret. apply Hgoal. reflexivity.
Qed.

Lemma next_play_id (id : Z) :
  0 <= id <= MAX_PLAY_ID ->
  (if id + 1 >? MAX_PLAY_ID then 0 else id + 1) = (id + 1) mod 2 ^ 32
  /\ (if id + 1 >? MAX_PLAY_ID then 0 else id + 1) <> id
  /\ 0 <= (if id + 1 >? MAX_PLAY_ID then 0 else id + 1) <= MAX_PLAY_ID.
Proof.
  intros Hrange. unfold MAX_PLAY_ID in *.
  destruct (id + 1 >? 2 ^ 32 - 1) eqn:E.
  - apply Z.gtb_lt in E. replace (id + 1) with (2 ^ 32) by lia.
    split; [reflexivity | lia].
  - rewrite Z.gtb_ltb in E. apply Z.ltb_ge in E. rewrite Z.mod_small; lia.
Qed.

(** [play] takes the next token, from [MAX_PLAY_ID] back to 0, forgets
    the last error and the selected stream of the track before, and
    starts on the new track with that token; an error soon after is not
    held against the new track, unless it is marked as not retryable. *)
Theorem play_effect (w : World) (t : Track) (fresh : Construction) :
  exists r w',
    play t fresh w = (Returned r, w')
    /\ track (tp w') = Some t
    /\ last_error (tp w') = 0
    /\ play_id (tp w') = (if play_id (tp w) + 1 >? MAX_PLAY_ID then 0 else play_id (tp w) + 1)
    /\ (0 <= play_id (tp w) <= MAX_PLAY_ID ->
        play_id (tp w') = (play_id (tp w) + 1) mod 2 ^ 32)
    /\ (r = NotStarted \/ r = AwaitGetStreams (play_id (tp w'))
        \/ r = AwaitGetUrl (play_id (tp w')) \/ exists b, r = AwaitLoadStreams b)
    /\ (forall err retryable check record,
          retryable <> Some false -> 300000 <= check ->
          exists w'', error err retryable check record w' = (Returned false, w'')).
Proof.
  destruct (proj1 (returns_eq _ _ _) (play_post w t fresh))
    as (r & w' & Hrun & Ht & Hl & Hid & Hr).
  exists r, w'. split; [exact Hrun|]. split; [exact Ht|]. split; [exact Hl|].
  split; [exact Hid|]. split; [|split; [exact Hr|]].
  - intros Hrange. rewrite Hid. apply next_play_id, Hrange.
  - intros err retryable check record Hr' Hc.
    destruct (proj1 (returns_eq _ _ _) (error_post w' err retryable check record))
      as (fatal & w'' & Hrun' & Hiff & _).
    exists w''. destruct fatal; [|exact Hrun'].
    destruct (proj1 Hiff eq_refl) as [?|?]; [congruence | lia].
Qed.

(** ** The streams arrive *)

Lemma getStreams_settled_stale (w : World) (playId : Z)
      (result : Settlement) :
  play_id (tp w) <> playId ->
  getStreams_settled playId result w = (Returned (AwaitLoadStreams false), w).
Proof.
  intros Hne. apply Z.eqb_neq in Hne.
  unfold getStreams_settled, try_catch, bind, get, ret, throw.
  destruct result as [value | reason]; rewrite ?Hne; cbn; rewrite ?Hne; reflexivity.
Qed.

(** A result of [getStreams] that arrives after [play] was called again
    is dropped: whether the promise resolved or was rejected, and
    whatever it brought, nothing is emitted, nothing is cached on the
    new track, no stream is selected. *)
Theorem superseded_streams_discarded (w w' : World) (t : Track)
        (fresh : Construction) (r : Suspension)
        (result : Settlement) :
  0 <= play_id (tp w) <= MAX_PLAY_ID ->
  play t fresh w = (Returned r, w') ->
  getStreams_settled (play_id (tp w)) result w' = (Returned (AwaitLoadStreams false), w').
Proof.
  intros Hrange Hplay.
  destruct (proj1 (returns_eq _ _ _) (play_post w t fresh))
    as (r0 & w0 & Hrun & _ & _ & Hid & _).
  rewrite Hplay in Hrun. injection Hrun as <- <-.
  apply getStreams_settled_stale. rewrite Hid.
  apply next_play_id, Hrange.
Qed.





(** ** Creating the decode engine *)






(** ** The invariant of the player *)

Ltac keeps_step :=
  preserves_step_by ltac:(unfold player_ok, options_of, clear_streams in *).

Lemma send_connection_keeps (o : bool * bool * bool) (buffer : list Z) (f : Z) (sil : bool)
      (c : nat) :
  preserves (player_ok o)
    (send_connection crypto_secretbox_easy randombytes_buf buffer f sil c).
Proof. unfold send_connection. repeat keeps_step. Qed.

Lemma send_keeps (o : bool * bool * bool) (buffer : list Z) (f : Z) (sil : bool) :
  preserves (player_ok o) (send crypto_secretbox_easy randombytes_buf buffer f sil).
Proof. unfold send. repeat keeps_step. apply send_connection_keeps. Qed.

Create HintDb keeps.
#[local] Hint Resolve send_keeps : keeps.

Ltac keeps_auto := repeat first [ keeps_step | solve [auto with keeps] ].

Lemma clear_interval_keeps (o : bool * bool * bool) : preserves (player_ok o) clear_interval.
Proof. unfold clear_interval. keeps_auto. Qed.
#[local] Hint Resolve clear_interval_keeps : keeps.

Lemma stop_silence_frames_keeps (o : bool * bool * bool) :
  preserves (player_ok o) stop_silence_frames.
Proof. unfold stop_silence_frames. keeps_auto. Qed.
#[local] Hint Resolve stop_silence_frames_keeps : keeps.

Lemma start_silence_frames_keeps (o : bool * bool * bool) :
  preserves (player_ok o) start_silence_frames.
Proof. unfold start_silence_frames. keeps_auto. Qed.
#[local] Hint Resolve start_silence_frames_keeps : keeps.

Lemma fire_interval_keeps (o : bool * bool * bool) :
  preserves (player_ok o) (fire_interval crypto_secretbox_easy randombytes_buf).
Proof. unfold fire_interval, silence_tick. keeps_auto. Qed.

Lemma destroy_player_keeps (o : bool * bool * bool) : preserves (player_ok o) destroy_player.
Proof. unfold destroy_player. keeps_auto. Qed.
#[local] Hint Resolve destroy_player_keeps : keeps.

Lemma init_secretbox_keeps (o : bool * bool * bool) : preserves (player_ok o) init_secretbox.
Proof. unfold init_secretbox. keeps_auto. Qed.
#[local] Hint Resolve init_secretbox_keeps : keeps.

Lemma create_player_keeps (o : bool * bool * bool) (fresh : Construction)
      (startTime : option Z) :
  preserves (player_ok o) (create_player fresh startTime).
Proof. unfold create_player. keeps_auto. Qed.
#[local] Hint Resolve create_player_keeps : keeps.

Lemma error_keeps (o : bool * bool * bool) (err : option string) (retryable : option bool)
      (t1 t2 : Z) :
  preserves (player_ok o) (error err retryable t1 t2).
Proof. unfold error. keeps_auto. Qed.
#[local] Hint Resolve error_keeps : keeps.

Lemma set_best_stream_keeps (o : bool * bool * bool) (ss : TrackStreams) :
  preserves (player_ok o)
    (modify (with_tp (set_stream
               (Streams.get_best_stream (items ss) (streams_volume ss))))).
Proof.
  apply preserves_modify. intros w (H1 & H2 & H3 & H4).
  unfold player_ok, options_of in *. simp.
  split; [exact H1|]. split; [exact H2|]. split; [exact H3|].
  intros s Hs. apply get_best_stream_Some in Hs as (s0 & _ & Ha & ->).
  by rewrite with_volume_audio.
Qed.
#[local] Hint Resolve set_best_stream_keeps : keeps.

Lemma select_stream_keeps (o : bool * bool * bool) (playId : Z) (ss : TrackStreams) :
  preserves (player_ok o) (select_stream playId ss).
Proof. unfold select_stream. keeps_auto. Qed.
#[local] Hint Resolve select_stream_keeps : keeps.

Lemma start_keeps_player (o : bool * bool * bool) : preserves (player_ok o) start.
Proof. unfold start, load_streams. keeps_auto. Qed.
#[local] Hint Resolve start_keeps_player : keeps.

Lemma getStreams_settled_keeps (o : bool * bool * bool) (playId : Z) (result : Settlement) :
  preserves (player_ok o) (getStreams_settled playId result).
Proof. unfold getStreams_settled. keeps_auto. Qed.

Lemma onerror_keeps (o : bool * bool * bool) (err : option string) (retryable : option bool)
      (t1 t2 : Z) (fresh : Construction) :
  preserves (player_ok o) (onerror err retryable t1 t2 fresh).
Proof. unfold onerror. keeps_auto. Qed.

Lemma onpacket_keeps (o : bool * bool * bool) (packet : list Z) (len : nat) (f : Z) :
  preserves (player_ok o) (onpacket crypto_secretbox_easy randombytes_buf packet len f).
Proof. unfold onpacket. keeps_auto. Qed.

Lemma setPaused_keeps (o : bool * bool * bool) (p : bool) :
  preserves (player_ok o) (setPaused p).
Proof. unfold setPaused. keeps_auto. Qed.

Lemma onstatechange_keeps (o : bool * bool * bool) (cur : Status) :
  preserves (player_ok o) (onstatechange cur).
Proof. unfold onstatechange. keeps_auto. Qed.

Lemma set_stream_None_keeps (o : bool * bool * bool) :
  preserves (player_ok o) (modify (with_tp (set_stream None))).
Proof.
  apply preserves_modify. intros w (H1 & H2 & H3 & H4).
  unfold player_ok, options_of in *. simp.
  split; [exact H1|]. split; [exact H2|]. split; [exact H3|]. discriminate.
Qed.
#[local] Hint Resolve set_stream_None_keeps : keeps.

Lemma play_keeps (o : bool * bool * bool) (t : Track) (fresh : Construction) :
  preserves (player_ok o) (play t fresh).
Proof.
  intros w (H1 & H2 & H3 & H4). unfold play.
  apply post_bind, post_modify. apply post_bind, post_get. cbn beta. simp.
  destruct (next_play_id _ H2) as (_ & _ & Hnext).
  destruct (play_id (tp w) + 1 >? MAX_PLAY_ID) eqn:E.
  - apply post_bind, post_modify.
    match goal with |- post ?m _ _ _ => assert (Hrest : preserves (player_ok o) m) end.
    { keeps_auto. }
    apply Hrest. unfold player_ok, options_of in *. simp. auto.
  - apply post_bind, post_ret.
    match goal with |- post ?m _ _ _ => assert (Hrest : preserves (player_ok o) m) end.
    { keeps_auto. }
    apply Hrest. unfold player_ok, options_of in *. simp. auto.
Qed.

Lemma subscribe_keeps (o : bool * bool * bool) (c : nat) :
  preserves (player_ok o) (subscribe c).
Proof.
  intros w (H1 & H2 & H3 & H4). unfold subscribe.
  apply post_bind, post_get. cbn beta.
  assert (Hrest : forall w1,
            tp w1 = tp w ->
            (external_encrypt (tp w) = true -> subscriptions (tp w) = []) ->
            post (bind (modify (with_tp (fun p =>
                          set_subscriptions (subscriptions p ++ [mkSub c]) p)))
                    (fun _ => bind init_secretbox (fun _ => ret (mkSub c))))
                 (fun _ => player_ok o) (fun _ => player_ok o) w1).
  { intros w1 Htp Hnil.
    apply post_bind, post_modify.
    match goal with |- post ?m _ _ _ => assert (Hm : preserves (player_ok o) m) end.
    { keeps_auto. }
    apply Hm. unfold player_ok, options_of in *. simp. rewrite Htp.
    split; [exact H1|]. split; [exact H2|]. split; [|exact H4].
    intros He. rewrite (Hnil He). simpl. lia. }
  destruct (external_encrypt (tp w)) eqn:He.
  - destruct (subscriptions (tp w)) as [|s0 l] eqn:Hs.
    + apply post_bind. apply post_bind, post_ret.
      unfold add_listener. apply post_modify.
      apply Hrest; [reflexivity | auto].
    + apply post_bind. apply post_bind, post_throw.
      unfold player_ok. split; [exact H1|]. split; [exact H2|]. split; [|exact H4].
      rewrite Hs. intros _. apply H3. reflexivity.
  - apply post_bind, post_ret. apply Hrest; [reflexivity | discriminate].
Qed.

(** The player keeps its invariant under everything that can be done to
    it, whether the operation returns or throws: the options stay as
    the constructor set them, the token of [play] stays between 0 and
    [MAX_PLAY_ID], with external encryption there is never more than
    one subscription, and the selected stream is one with audio. *)
Theorem player_invariant (k : Action) (o : bool * bool * bool) (w : World) :
  player_ok o w ->
  post (act crypto_secretbox_easy randombytes_buf k)
       (fun _ w' => player_ok o w') (fun _ w' => player_ok o w') w.
Proof.
  intros Hok.
  assert (Hdone : forall m : M World Error unit, preserves (player_ok o) m ->
            post m (fun _ w' => player_ok o w') (fun _ w' => player_ok o w') w).
  { intros m Hm. apply Hm, Hok. }
  assert (Hdrop : forall A (m : M World Error A), preserves (player_ok o) m ->
            preserves (player_ok o) (bind m (fun _ => ret tt))).
  { intros A m Hm. apply preserves_bind; [exact Hm | intros _; apply preserves_ret]. }
  destruct k; cbn [act].
  - apply Hdone, Hdrop, subscribe_keeps.
  - apply Hdone, onstatechange_keeps.
  - apply Hdone, onpacket_keeps.
  - apply Hdone. unfold onfinish. keeps_auto.
  - apply Hdone, Hdrop, onerror_keeps.
  - apply Hdone, Hdrop, play_keeps.
  - apply Hdone, Hdrop, start_keeps_player.
  - apply Hdone, Hdrop, getStreams_settled_keeps.
  - apply Hdone, setPaused_keeps.
  - apply Hdone. unfold stop. keeps_auto.
  - apply Hdone. unfold seek. keeps_auto.
  - apply Hdone, create_player_keeps.
  - apply Hdone, destroy_player_keeps.
  - apply Hdone, init_secretbox_keeps.
  - apply Hdone, send_keeps.
  - apply Hdone, start_silence_frames_keeps.
  - apply Hdone, stop_silence_frames_keeps.
  - apply Hdone, Hdrop, error_keeps.
  - apply Hdone, fire_interval_keeps.
Qed.
End PlayerProps.

(** ** The player on concrete worlds *)

Section PlayerExamples.
Import StateExn Player.

Lemma subscribe_second_unsupported_witness :
  exists msg w',
    subscribe 1 (external_world (example_data "xsalsa20_poly1305_lite" 7 0 (Some 0)))
    = (Thrown (UnsupportedError msg), w')
    /\ w' = external_world (example_data "xsalsa20_poly1305_lite" 7 0 (Some 0))
    /\ subscriptions (tp w') = [mkSub 0]
    /\ listeners <$> conns w' !! 1%nat = Some 0%nat.
Proof.
  apply (subscribe_second_unsupported
           (external_world (example_data "xsalsa20_poly1305_lite" 7 0 (Some 0))) 1).
  - reflexivity.
  - discriminate.
Defined.

(** For comparison, the first subscription under external encryption:
    it is accepted, the listener is attached and the subscription is
    recorded. *)
Example subscribe_first_example :
  let w := with_tp (set_subscriptions [])
             (external_world (example_data "xsalsa20_poly1305_lite" 7 0 (Some 0))) in
  let r := subscribe 1 w in
  fst r = Returned (mkSub 1)
  /\ subscriptions (tp (snd r)) = [mkSub 1]
  /\ listeners <$> conns (snd r) !! 1%nat = Some 1%nat.
Proof. vm_compute. auto. Qed.

Lemma armed_world_engine_counters_ok (d : ConnectionData) :
  engine_counters_ok (armed_world d).
Proof. intros Ho. vm_compute in Ho. discriminate. Qed.

Lemma keepalive_five_frames_witness :
  exists w1 w2,
    go_idle Finish (armed_world (example_data "xsalsa20_poly1305_lite" 7 0 (Some 0)))
    = (Returned tt, w1)
    /\ silence_frames_interval (tp w1) = Some (mkInterval 20 (0 + 20))
    /\ send_calls (trace w1) = []
    /\ run_idle toy_secretbox toy_random 8 w1 = (Returned tt, w2)
    /\ send_calls (trace w2)
       = [] ++ [(0 + 20, SILENCE, 960, true); (0 + 40, SILENCE, 960, true);
                (0 + 60, SILENCE, 960, true); (0 + 80, SILENCE, 960, true);
                (0 + 100, SILENCE, 960, true)]
    /\ silence_frames_interval (tp w2) = None
    /\ silence_frames_needed (tp w2) = false
    /\ start_silence_frames w2 = (Returned tt, w2).
Proof.
  apply (keepalive_five_frames toy_secretbox toy_random
           (armed_world (example_data "xsalsa20_poly1305_lite" 7 0 (Some 0))) Finish 8).
  - apply (example_world_well_formed (example_data "xsalsa20_poly1305_lite" 7 0 (Some 0))).
    reflexivity.
  - repeat split.
  - apply armed_world_engine_counters_ok.
  - discriminate.
  - lia.
Defined.

(** The five packets of the example, 20 ms apart, and nothing after
    them although the event loop goes on for three more turns. *)
Example keepalive_packets_example :
  let w := armed_world (example_data "xsalsa20_poly1305_lite" 7 0 (Some 0)) in
  let w2 := snd (run_idle toy_secretbox toy_random 8 (snd (go_idle Finish w))) in
  omap (fun e => match e.2 with UdpSend _ _ => Some e.1 | _ => None end) (trace w2)
  = [20; 40; 60; 80; 100]
  /\ sequence_of w2 0 = Some 12.
Proof. vm_compute. auto. Qed.

(** The same with external encryption: the counters of the engine
    (sequence 1, timestamp 2, nonce 3) are taken over first, and handed
    back after every frame. *)
Lemma external_world_engine_counters_ok (d : ConnectionData) :
  engine_counters_ok
    (with_tp (fun p => set_silence_frames_left 5 (set_silence_frames_needed true p))
       (external_world d)).
Proof.
  intros _. eexists _, d, 1, 2, 3. repeat split; try reflexivity; lia.
Qed.

Example keepalive_external_example :
  let w := with_tp (fun p => set_silence_frames_left 5 (set_silence_frames_needed true p))
             (external_world (example_data "xsalsa20_poly1305_lite" 7 0 (Some 0))) in
  let w2 := snd (run_idle toy_secretbox toy_random 8 (snd (go_idle Pause w))) in
  map (fun c => c.1.1.1) (send_calls (trace w2)) = [20; 40; 60; 80; 100]
  /\ sequence_of w2 0 = Some 6
  /\ (box_sequence <$> current_ffplayer w2) = Some (Some 6)
  /\ silence_frames_interval (tp w2) = None.
Proof. vm_compute. auto. Qed.

(** Where the engine cannot report its counters the countdown is given
    up before the first frame. *)
Example keepalive_aborted_example :
  let w := with_tp (fun p => set_player (Some broken_engine)
                               (set_silence_frames_left 5 (set_silence_frames_needed true p)))
             (external_world (example_data "xsalsa20_poly1305_lite" 7 0 (Some 0))) in
  let w2 := snd (run_idle toy_secretbox toy_random 8 (snd (go_idle Finish w))) in
  send_calls (trace w2) = [] /\ silence_frames_interval (tp w2) = None.
Proof. vm_compute. auto. Qed.

(** A fatal and a transient error on a player with an engine. *)
Example error_fatal_example :
  let w := external_world (example_data "xsalsa20_poly1305_lite" 7 0 (Some 0)) in
  let r := error (Some "boom"%string) (Some false) 1700000000000 1700000000000 w in
  fst r = Returned true
  /\ player (tp (snd r)) = None
  /\ errors_emitted (trace (snd r)) = [InternalError "boom"].
Proof. vm_compute. auto. Qed.

Lemma onerror_clears_stream_cache_witness :
  let w := with_tp (set_track (Some (mkTrack "t"%string
                                       (Some (mkStreams [Streams.mkStream
                                          (Some "u"%string) false true (Some 96)
                                          (Some "opus"%string) false None] None false))
                                       None)))
             (external_world (example_data "xsalsa20_poly1305_lite" 7 0 (Some 0))) in
  exists r w',
    onerror (Some "read"%string) (Some true) 1700000000000 1700000000001
            (Constructed example_engine) w = (Returned r, w')
    /\ (Some true = Some false \/ 1700000000000 - last_error (tp w) < 300000 ->
        r = NotStarted /\ track (tp w') = track (tp w))
    /\ (~ (Some true = Some false \/ 1700000000000 - last_error (tp w) < 300000) ->
        let w1 := with_tp clear_streams (with_tp (set_last_error 1700000000001) w) in
        let seekTime := match player (tp w) with Some a => time a | None => 0 end in
        (forall t, track (tp w1) = Some t -> streams t = None)
        /\ bind (create_player (Constructed example_engine) (Some seekTime)) (fun _ => start) w1
           = (Returned r, w')
        /\ track (tp w') = track (tp w1)
        /\ (r = NotStarted /\ (player (tp w') = None \/ track (tp w) = None)
            \/ r = AwaitGetStreams (play_id (tp w))
               /\ is_Some (player (tp w')) /\ is_Some (track (tp w))
               /\ exists tr, trace w' = tr ++ [(clock w, TrackGetStreams)])).
Proof.
  intros w.
  exact (onerror_clears_stream_cache w (Some "read"%string) (Some true)
           1700000000000 1700000000001 (Constructed example_engine)).
Defined.

(** The transient error of the example: the cache is gone, the engine
    is recreated and sought to the last position, and the streams are
    asked for again. *)
Example onerror_transient_example :
  let w := with_tp (set_track (Some (mkTrack "t"%string
                                       (Some (mkStreams [] None false)) None)))
             (external_world (example_data "xsalsa20_poly1305_lite" 7 0 (Some 0))) in
  let r := onerror (Some "read"%string) (Some true) 1700000000000 1700000000001
                   (Constructed example_engine) w in
  fst r = Returned (AwaitGetStreams 0)
  /\ track (tp (snd r)) = Some (mkTrack "t"%string None None)
  /\ last_error (tp (snd r)) = 1700000000001
  /\ omap (fun e => match e.2 with
                    | NewAudioPlayer | EngineSeek _ | TrackGetStreams | EngineDestroy => Some e.2
                    | _ => None
                    end) (trace (snd r))
     = [EngineDestroy; NewAudioPlayer; EngineSeek 1500; TrackGetStreams].
Proof. vm_compute. auto. Qed.

Lemma external_world_well_formed (d : ConnectionData) :
  counters_in_range d = true -> well_formed (external_world d).
Proof.
  intros Hd. split; [apply Nat.leb_le; vm_compute; reflexivity|].
  apply map_Forall_insert_2; [exact Hd|].
  apply map_Forall_singleton. exact Hd.
Qed.

Lemma send_reaches_ready_only_witness :
  exists w',
    send toy_secretbox toy_random SILENCE 960 true
      (external_world (example_data "xsalsa20_poly1305_lite" 7 0 (Some 0)))
    = (Returned tt, w')
    /\ conns w' !! 1%nat
       = conns (external_world (example_data "xsalsa20_poly1305_lite" 7 0 (Some 0))) !! 1%nat
    /\ List.filter (reaches 1) (trace w')
       = List.filter (reaches 1)
           (trace (external_world (example_data "xsalsa20_poly1305_lite" 7 0 (Some 0)))).
Proof.
  apply (send_reaches_ready_only toy_secretbox toy_random
           (external_world (example_data "xsalsa20_poly1305_lite" 7 0 (Some 0)))
           1 SILENCE 960 true).
  - apply external_world_well_formed. reflexivity.
  - lia.
  - intros conn _ Hin. simpl in Hin. destruct Hin as [Hin|[]]. discriminate.
Defined.

Lemma send_external_passthrough_witness :
  send toy_secretbox toy_random [1; 2; 3] 960 false
    (external_world (example_data "xsalsa20_poly1305_lite" 7 0 (Some 0)))
  = (Returned tt,
     with_event (UdpSend 0 [1; 2; 3])
       (with_event (SetSpeaking 0)
          (with_event (SendCall [1; 2; 3] 960 false)
             (external_world (example_data "xsalsa20_poly1305_lite" 7 0 (Some 0)))))).
Proof.
  apply (send_external_passthrough toy_secretbox toy_random
           (external_world (example_data "xsalsa20_poly1305_lite" 7 0 (Some 0)))
           0 (example_connection (example_data "xsalsa20_poly1305_lite" 7 0 (Some 0)))
           (example_data "xsalsa20_poly1305_lite" 7 0 (Some 0))
           (mkUdp (Some "10.0.0.1"%string) (Some 50000)) [1; 2; 3] 960);
    reflexivity.
Defined.

Lemma armed_world_timer_ok (d : ConnectionData) : timer_ok (armed_world d).
Proof. unfold timer_ok. simpl. repeat split; try discriminate; lia. Qed.

Lemma external_world_timer_ok (d : ConnectionData) : timer_ok (external_world d).
Proof. unfold timer_ok. simpl. repeat split; try discriminate; lia. Qed.

Lemma timer_invariant_witness :
  post (act toy_secretbox toy_random AOnfinish)
       (fun _ w' => timer_ok w') (fun _ w' => timer_ok w')
       (armed_world (example_data "xsalsa20_poly1305_lite" 7 0 (Some 0))).
Proof.
  apply (timer_invariant toy_secretbox toy_random AOnfinish
           (armed_world (example_data "xsalsa20_poly1305_lite" 7 0 (Some 0)))).
  - apply (example_world_well_formed (example_data "xsalsa20_poly1305_lite" 7 0 (Some 0))).
    reflexivity.
  - apply armed_world_timer_ok.
Defined.

Lemma keepalive_bounded_witness :
  let w := with_tp (fun p => set_silence_frames_interval (Some (mkInterval 20 40))
                               (set_silence_frames_left 3 p))
             (example_world (example_data "xsalsa20_poly1305_lite" 7 0 (Some 0))) in
  exists w',
    run_idle toy_secretbox toy_random 6 w = (Returned tt, w')
    /\ silence_frames_interval (tp w') = None
    /\ (length (send_calls (trace w')) <= length (send_calls (trace w))
                                          + Z.to_nat (frames_pending w))%nat
    /\ frames_pending w <= 5.
Proof.
  intros w.
  apply (keepalive_bounded toy_secretbox toy_random 6 w).
  - apply (example_world_well_formed (example_data "xsalsa20_poly1305_lite" 7 0 (Some 0))).
    reflexivity.
  - unfold timer_ok. simpl. repeat split; try discriminate; try lia.
    all: match goal with H : Some _ = Some _ |- _ => injection H as <- end; simpl; lia.
  - lia.
Defined.

Lemma onpacket_effect_witness :
  let w := external_world (example_data "xsalsa20_poly1305_lite" 7 0 (Some 0)) in
  exists w' tr,
    onpacket toy_secretbox toy_random [1; 2; 3; 4] 3 960 w = (Returned tt, w')
    /\ armed w'
    /\ trace w' = tr ++ [(clock w, Emit_packet (take 3 [1; 2; 3; 4]) 960)]
    /\ send_calls (trace w')
       = send_calls (trace w)
         ++ (if external_packet_send (tp w) then []
             else [(clock w, take 3 [1; 2; 3; 4], 960, false)]).
Proof.
  intros w.
  apply (onpacket_effect toy_secretbox toy_random w example_engine [1; 2; 3; 4] 3 960).
  - apply external_world_well_formed. reflexivity.
  - apply external_world_timer_ok.
  - lia.
  - reflexivity.
  - reflexivity.
  - simpl. lia.
Defined.

Lemma destroyed_player_throws_witness :
  let w := example_world (example_data "xsalsa20_poly1305_lite" 7 0 (Some 0)) in
  let gone := GenericError "Player was destroyed or nothing was playing" in
  isPaused w = (Thrown gone, w)
  /\ getTime w = (Thrown gone, w)
  /\ setPaused true w = (Thrown gone, w)
  /\ seek 30 w = (Thrown gone, w)
  /\ onpacket toy_secretbox toy_random [1; 2; 3] 3 960 w = (Thrown gone, w)
  /\ stop w = (Returned tt, w)
  /\ destroy_player w = (Returned tt, w).
Proof.
  intros w.
  apply (destroyed_player_throws toy_secretbox toy_random w true 30 [1; 2; 3] 3 960).
  reflexivity.
Defined.

Lemma error_second_is_fatal_witness :
  let w := external_world (example_data "xsalsa20_poly1305_lite" 7 0 (Some 0)) in
  let w1 := with_tp (set_last_error 1700000000001) w in
  exists w2,
    error (Some "again"%string) (Some true) 1700000060000 1700000060001 w1
    = (Returned true, w2)
    /\ player (tp w2) = None
    /\ last_error (tp w2) = 1700000000001
    /\ errors_emitted (trace w2)
       = errors_emitted (trace w1)
         ++ [InternalError (default "Unknown playback error"%string (Some "again"%string))].
Proof.
  intros w w1.
  apply (error_second_is_fatal w w1 (Some "read"%string) (Some "again"%string)
           (Some true) (Some true) 1700000000000 1700000000001
           1700000060000 1700000060001).
  - reflexivity.
  - lia.
Defined.

Lemma superseded_streams_discarded_witness :
  let w := external_world (example_data "xsalsa20_poly1305_lite" 7 0 (Some 0)) in
  let w' := snd (play (mkTrack "next" None None) (Constructed example_engine) w) in
  getStreams_settled (play_id (tp w)) (Failed (OtherReason (Some "gone"%string))) w'
  = (Returned (AwaitLoadStreams false), w').
Proof.
  intros w w'.
  apply (superseded_streams_discarded w w' (mkTrack "next" None None) (Constructed example_engine)
           (AwaitGetStreams (play_id (tp w'))) (Failed (OtherReason (Some "gone"%string)))).
  - vm_compute. split; discriminate.
  - vm_compute. reflexivity.
Defined.


Lemma external_world_player_ok (d : ConnectionData) :
  player_ok (false, true, false) (external_world d).
Proof.
  unfold player_ok, options_of, external_world, MAX_PLAY_ID. simpl.
  split; [reflexivity|]. split; [lia|]. split; [intros _; lia | discriminate].
Qed.

Lemma player_invariant_witness :
  post (act toy_secretbox toy_random (APlay (mkTrack "next" None None) (Constructed example_engine)))
       (fun _ w' => player_ok (false, true, false) w')
       (fun _ w' => player_ok (false, true, false) w')
       (external_world (example_data "xsalsa20_poly1305_lite" 7 0 (Some 0))).
Proof.
  apply (player_invariant toy_secretbox toy_random
           (APlay (mkTrack "next" None None) (Constructed example_engine)) (false, true, false)
           (external_world (example_data "xsalsa20_poly1305_lite" 7 0 (Some 0)))).
  apply external_world_player_ok.
Defined.

(** A constructor that throws is reported with the message of what it
    threw; an engine of the track's own that has no [setTrack] is
    reported and stays assigned, here without [ffplayer]. *)
Example create_player_failures_example :
  let w := external_world (example_data "xsalsa20_poly1305_lite" 7 0 (Some 0)) in
  let bare := mkAP None false 0 in
  let custom := mkTrack "t" None (Some (mkCustom (Constructed bare) SetTrackMissing)) in
  let r1 := create_player (ConstructorThrows (CaughtError "no codec")) None w in
  let r2 := create_player (ConstructorThrows (CaughtValue None)) None w in
  let r3 := create_player (Constructed example_engine) None
              (with_tp (set_track (Some custom)) w) in
  (player (tp (snd r1)) = None
   /\ errors_emitted (trace (snd r1)) = [GenericError "no codec"])
  /\ errors_emitted (trace (snd r2)) = [GenericError "Failed to instantiate sange AudioPlayer"]
  /\ (player (tp (snd r3)) = Some bare
      /\ errors_emitted (trace (snd r3))
         = [GenericError "Custom player instance missing 'setTrack' method"]).
Proof. vm_compute. auto. Qed.

(** A reported length beyond the packet: the keepalive is armed again,
    then the view of the packet fails, and nothing is sent or emitted. *)
Example onpacket_range_error_example :
  let w := external_world (example_data "xsalsa20_poly1305_lite" 7 0 (Some 0)) in
  let r := onpacket toy_secretbox toy_random [1; 2; 3] 5 960 w in
  fst r = Thrown RangeError
  /\ silence_frames_needed (tp (snd r)) = true
  /\ trace (snd r) = trace w.
Proof. vm_compute. auto. Qed.
End PlayerExamples.

(* ===================================================================== *)
(** * Properties of the connection session                                *)
(* ===================================================================== *)

Section SessionProps.
Import StateExn Session.

(** For a [Destroyed] state the two versions of the setter agree. *)
Lemma set_state_destroyed (reason : DisconnectReason) (net : bool) (s : Session) :
  set_state Destroyed reason net s = set_state_in_destroy Destroyed reason net s.
Proof.
  unfold set_state, set_state_in_destroy, bind, get.
  destruct (bool_decide (Destroyed <> status s)); [|reflexivity].
  destruct (promise s); reflexivity.
Qed.

(** So they do for the [Disconnected] state that [super.disconnect()]
    assigns inside [destroy], where the status is [Disconnected]
    already. *)
Lemma set_state_same_status (st : Status) (reason : DisconnectReason) (net : bool)
      (s : Session) :
  status s = st ->
  set_state st reason net s = set_state_in_destroy st reason net s.
Proof.
  intros <-. unfold set_state, set_state_in_destroy, bind, get.
  by rewrite bool_decide_eq_false_2 by (intros H; by apply H).
Qed.

Lemma resume_pending (id : nat) (s : Session) :
  awaiting s = Some id -> promises s !! id = Some Pending ->
  resume s = (Returned tt, s).
Proof. intros H1 H2. unfold resume, bind, get. by rewrite H1, H2. Qed.

Lemma await_connection_starts (s : Session) :
  status s <> Ready -> promise s = None ->
  exists s1,
    turn CallAwaitConnection s = (Returned tt, s1)
    /\ in_flight (length (promises s)) (clock s + 15000) s1
    /\ clock s1 = clock s /\ trace s1 = trace s.
Proof.
  intros Hst Hp.
  assert (Hlook : (promises s ++ [Pending]) !! length (promises s) = Some Pending).
  { rewrite lookup_app_r by lia. by rewrite Nat.sub_diag. }
  eexists. split.
  - unfold turn, await_connection, bind, get, modify.
    rewrite Hp. rewrite bool_decide_eq_false_2 by exact Hst.
    rewrite bool_decide_eq_false_2 by (intros H; by apply H).
    cbn [orb]. apply (resume_pending (length (promises s))); [reflexivity | exact Hlook].
  - unfold in_flight. simpl. rewrite Hlook.
    rewrite length_app. simpl. repeat split; auto. lia.
Qed.

Lemma turn_waiting (id : nat) (deadline : Z) (e : Turn) (s : Session) :
  in_flight id deadline s -> waiting_turn deadline e ->
  exists s',
    turn e s = (Returned tt, s')
    /\ in_flight id deadline s'
    /\ promises s' = promises s
    /\ (clock s < deadline -> clock s' < deadline).
Proof.
  intros (Hp & Hpend & Haw & Hto & Hlen) Hq.
  pose proof (resume_pending id) as Hresume.
  destruct e as [| st reason net | | t]; simpl in Hq.
  - exists s. split; [|unfold in_flight; auto 10].
    unfold turn, await_connection, bind, get. rewrite Hp.
    rewrite (bool_decide_eq_true_2 (Some id <> None)) by discriminate.
    rewrite orb_true_r. unfold ret. by apply Hresume.
  - eexists. split.
    + unfold turn, set_state, bind, get. rewrite Hp.
      assert (Hh : handle_state_change st reason = ret tt) by (by destruct Hq as [-> | ->]).
      rewrite Hh.
      destruct (bool_decide (st <> status s)); unfold ret, super_set_state, bind, get,
        modify, emit; apply Hresume; simpl; assumption.
    + unfold in_flight. simpl. auto 10.
  - destruct Hq.
  - eexists. split.
    + unfold turn, bind, get. rewrite Hto.
      replace (deadline <=? t) with false by (symmetry; apply Z.leb_gt; lia).
      unfold modify. apply Hresume; simpl; assumption.
    + unfold in_flight. simpl. split; [auto 10|]. split; [reflexivity|]. lia.
Qed.

Lemma run_waiting (id : nat) (deadline : Z) (es : list Turn) (s : Session) :
  in_flight id deadline s -> Forall (waiting_turn deadline) es ->
  exists s',
    run es s = (Returned tt, s')
    /\ in_flight id deadline s'
    /\ promises s' = promises s
    /\ (clock s < deadline -> clock s' < deadline).
Proof.
  intros Hin Hes. revert s Hin.
  induction Hes as [|e es He _ IH]; intros s Hin.
  - exists s. auto.
  - destruct (turn_waiting id deadline e s Hin He) as (s1 & Hrun1 & Hin1 & Hp1 & Hc1).
    destruct (IH s1 Hin1) as (s2 & Hrun2 & Hin2 & Hp2 & Hc2).
    exists s2. split; [|split; [exact Hin2 | split; [congruence | auto]]].
    unfold run in *. simpl. unfold bind. by rewrite Hrun1.
Qed.

Ltac ssim :=
  cbn [status networking promises promise timeout connected awaiting registered clock
       trace set_status set_networking set_promises set_promise set_timeout
       set_connected set_awaiting set_registered set_clock with_event] in *.

Ltac sess_step :=
  first
    [ post_step
    | lazymatch goal with
      | |- post (emit _) _ _ _ => unfold emit
      | |- post (settle _) _ _ _ => unfold settle
      | |- post (handle_state_change _ _) _ _ _ => unfold handle_state_change
      | |- post (super_set_state _ _) _ _ _ => unfold super_set_state
      | |- post (set_state_in_destroy _ _ _) _ _ _ => unfold set_state_in_destroy
      | |- post super_disconnect _ _ _ => unfold super_disconnect
      | |- post (if ?b then _ else _) _ _ _ =>
          let H := fresh "Hb" in destruct b eqn:H
      | |- post (match ?x with _ => _ end) _ _ _ =>
          let H := fresh "Hm" in destruct x eqn:H
      end ];
  ssim.

Lemma destroy_settled (adapterAvailable : bool) (s : Session) :
  (forall id, promise s = Some id -> promises s !! id <> Some Pending) ->
  returns (destroy adapterAvailable) (fun _ => destroy_keeps s) s.
Proof.
  intros Hset. unfold destroy, destroy_keeps.
  repeat sess_step.
  all: repeat match goal with
              | H : bool_decide _ = true |- _ => apply bool_decide_eq_true in H
              | H : bool_decide _ = false |- _ => apply bool_decide_eq_false in H
              end.
  all: try congruence.
  all: simplify_eq.
  all: try (exfalso; eapply Hset; eauto; fail).
  all: repeat split; auto.
  all: first [ exists []; split; [by rewrite app_nil_r | constructor]
             | eexists; split;
               [ rewrite <- ?app_assoc; reflexivity
               | repeat constructor; simpl; discriminate ] ].
Qed.

(** The timer fires: the promise in flight is rejected as timed out, at
    the deadline, and the session cleans up. *)
Lemma timeout_fires (id : nat) (deadline t : Z) (s : Session) :
  in_flight id deadline s -> deadline <= t ->
  returns (turn (AdvanceTo t))
    (fun _ s' =>
       promises s' !! id = Some (Rejected "Connection timed out")
       /\ promise s' = None /\ timeout s' = None /\ awaiting s' = None
       /\ In (deadline, Settled id (Rejected "Connection timed out")) (trace s')) s.
Proof.
  intros (Hp & Hpend & Haw & Hto & Hlen) Ht.
  assert (Hlt : (id < length (promises s))%nat) by lia.
  unfold turn, returns. apply post_bind. apply post_bind, post_get. cbn beta.
  rewrite Hto. replace (deadline <=? t) with true by (symmetry; apply Z.leb_le; lia).
  apply post_bind, post_modify. apply post_bind.
  unfold on_timeout. apply post_bind, post_modify.
  unfold settle. apply post_bind, post_get. cbn beta. ssim. rewrite Hp, Hpend.
  apply post_bind, post_modify. unfold emit. apply post_modify. ssim.
  apply post_bind.
  unfold resume at 1. apply post_bind, post_get. cbn beta. ssim. rewrite Haw.
  rewrite list_lookup_insert_eq by exact Hlt.
  apply post_bind, post_modify. apply post_bind.
  match goal with |- post _ ?Q _ _ => set (K := Q) end.
  assert (Hrest : forall s1,
            promises s1 = <[id := Rejected "Connection timed out"]> (promises s) ->
            In (deadline, Settled id (Rejected "Connection timed out")) (trace s1) ->
            awaiting s1 = None ->
            K tt s1).
  { intros s1 Hps Hin Hawt. subst K. cbn beta.
    apply post_bind, post_modify. apply post_modify. apply post_modify.
    unfold resume. apply post_bind, post_get. cbn beta. ssim. rewrite Hawt.
    apply post_ret. ssim. rewrite Hps, list_lookup_insert_eq by exact Hlt.
    repeat split; auto. }
  clearbody K.
  assert (Hdestroy : forall s0,
            promises s0 = <[id := Rejected "Connection timed out"]> (promises s) ->
            promise s0 = Some id -> awaiting s0 = None -> clock s0 = deadline ->
            In (deadline, Settled id (Rejected "Connection timed out")) (trace s0) ->
            post (destroy true) K (fun _ _ => False) s0).
  { intros s0 Hps Hpr Hawt Hcl Hin.
    eapply post_mono; [apply (destroy_settled true s0) | | intros ? ? []].
    - intros id' Hid'. rewrite Hpr in Hid'. injection Hid' as <-.
      rewrite Hps, list_lookup_insert_eq by exact Hlt. discriminate.
    - intros [] s1 (Hps1 & _ & Hawt1 & _ & _ & _ & evs & Htr & _).
      apply Hrest; [congruence | | congruence].
      rewrite Htr. apply in_or_app. by left. }
  assert (Hin0 : In (deadline, Settled id (Rejected "Connection timed out"))
                   (trace s ++ [(deadline, Settled id (Rejected "Connection timed out"))])).
  { apply in_or_app. right. by left. }
  apply post_bind. destruct (connected s).
  - unfold emit. apply post_modify. apply Hdestroy; ssim; auto.
    apply in_or_app. by left.
  - apply post_ret. apply Hdestroy; ssim; auto.
Qed.


(** ** The invariant of the session *)

Lemma session_ok_settling (s : Session) : session_ok s -> settling s.
Proof.
  intros (H1 & H2 & H3 & H4). split; [exact H1|]. split; [|split; [|exact H4]].
  - intros Ht Hp. apply Ht. by apply H2.
  - intros id Hid. exists Pending. split; [by apply H3|].
    intros _ Ht. apply H2 in Ht. congruence.
Qed.

Lemma promises_grow_refl (s : Session) : promises_grow s s.
Proof. split; [lia | auto]. Qed.

Lemma promises_grow_trans (s1 s2 s3 : Session) :
  promises_grow s1 s2 -> promises_grow s2 s3 -> promises_grow s1 s3.
Proof.
  intros [L1 H1] [L2 H2]. split; [lia|]. intros j st Hj Hst. eauto.
Qed.










(** ** What may throw *)















(** The body of [await_connection] continues, if it can. *)
Lemma resume_ok (s : Session) :
  settling s ->
  returns resume (fun _ s' => session_ok s' /\ promises_grow s s') s.
Proof.
  intros (H1 & H2 & H3 & H4). unfold resume, returns.
  apply post_bind, post_get. cbn beta. rewrite H1.
  destruct (promise s) as [id|] eqn:Hid.
  2:{ apply post_ret. split; [|apply promises_grow_refl].
      unfold session_ok. rewrite H1, Hid.
      split; [reflexivity|]. split; [|split; [discriminate | exact H4]].
      split; [reflexivity|]. intros _. destruct (timeout s); [|reflexivity].
      exfalso. by apply H2. }
  destruct (H3 id eq_refl) as (st & Hst & Hto). rewrite Hst.
  assert (Hend : forall s1 : Session,
            promises s1 = promises s -> st <> Pending -> awaiting s1 = None ->
            post (E := Error)
              (bind (modify (set_timeout None)) (fun _ => modify (set_promise None)))
              (fun _ s' => session_ok s' /\ promises_grow s s') (fun _ _ => False) s1).
  { intros s1 Hps Hne Haw. apply post_bind, post_modify. apply post_modify.
    unfold session_ok, promises_grow. ssim. rewrite Hps, Haw.
    split; [|split; [lia | auto]].
    split; [reflexivity|]. split; [tauto|]. split; [discriminate|].
    intros j Hj. pose proof (H4 j Hj) as Ej. injection Ej as <-.
    exfalso. apply Hne. congruence. }
  destruct st.
  - apply post_ret. split; [|apply promises_grow_refl].
    unfold session_ok. rewrite H1, Hid.
    split; [reflexivity|]. split; [|split; [|exact H4]].
    + split; [intros Ht; exfalso; by apply Hto | discriminate].
    + intros id' [= <-]. exact Hst.
  - apply post_bind, post_modify. apply post_bind.
    + apply post_modify. apply Hend; ssim; [reflexivity | discriminate | reflexivity].
  - apply post_bind, post_modify. apply post_bind.
    + apply post_bind.
      assert (Hd : forall s0 : Session,
                promises s0 = promises s -> promise s0 = Some id -> awaiting s0 = None ->
                post (destroy true)
                  (fun _ s1 =>
                     post (E := Error)
                       (bind (modify (set_timeout None))
                             (fun _ => modify (set_promise None)))
                       (fun _ s' => session_ok s' /\ promises_grow s s')
                       (fun _ _ => False) s1)
                  (fun _ _ => False) s0).
      { intros s0 Hps Hpr Haw.
        eapply post_mono; [apply (destroy_settled true s0) | | intros ? ? []].
        - intros id' Hid'. rewrite Hpr in Hid'. injection Hid' as <-.
          rewrite Hps, Hst. discriminate.
        - intros [] s1 (Hps1 & _ & Haw1 & _). cbn beta.
          apply Hend; [congruence | discriminate | congruence]. }
      destruct (connected s).
      * unfold emit. apply post_modify. apply Hd; ssim; auto.
      * apply post_ret. apply Hd; ssim; auto.
Qed.

Lemma sync_then_resume {A} (m : M Session Error A) (s : Session) :
  session_safe m -> session_ok s ->
  returns (bind m (fun _ => resume)) (fun _ s' => session_ok s' /\ promises_grow s s') s.
Proof.
  intros Hm Hs. unfold returns. apply post_bind.
  eapply post_mono; [apply Hm, session_ok_settling, Hs | | auto].
  intros a s1 [H1 G1]. cbn beta.
  eapply post_mono; [apply resume_ok, H1 | | auto].
  intros [] s2 [H2 G2]. split; [exact H2|]. eapply promises_grow_trans; eauto.
Qed.








(** ** What [destroy] does *)

Lemma errors_of_snoc (tr : list (Z * Session.Event)) (t : Z) (e : Session.Event) :
  errors_of (tr ++ [(t, e)])
  = errors_of tr ++ match e with Emit_error m => [m] | _ => [] end.
Proof. unfold errors_of. rewrite omap_app. f_equal. by destruct e. Qed.

Lemma warnings_of_snoc (tr : list (Z * Session.Event)) (t : Z) (e : Session.Event) :
  warnings_of (tr ++ [(t, e)])
  = warnings_of tr ++ match e with Session.ConsoleWarn m => [m] | _ => [] end.
Proof. unfold warnings_of. rewrite omap_app. f_equal. by destruct e. Qed.

Lemma states_of_snoc (tr : list (Z * Session.Event)) (t : Z) (e : Session.Event) :
  states_of (tr ++ [(t, e)])
  = states_of tr ++ match e with StateChange _ new => [new] | _ => [] end.
Proof. unfold states_of. rewrite omap_app. f_equal. by destruct e. Qed.

Lemma destroy_effect (adapterAvailable : bool) (s : Session) :
  status s <> Destroyed ->
  returns (destroy adapterAvailable)
    (fun _ s' =>
       status s' = Destroyed /\ registered s' = false
       /\ promise s' = promise s /\ awaiting s' = awaiting s /\ timeout s' = timeout s
       /\ connected s' = connected s /\ clock s' = clock s
       /\ errors_of (trace s') = errors_of (trace s)
       /\ warnings_of (trace s')
          = warnings_of (trace s)
            ++ (if registered s then [] else ["Voice connection mismatch"%string])
       /\ states_of (trace s')
          = states_of (trace s)
            ++ (if adapterAvailable then [Destroyed; Disconnected; Destroyed]
                else [Destroyed])
       /\ networking s' = false
       /\ promises s'
          = match promise s with
            | Some id =>
                match promises s !! id with
                | Some Pending => <[id := Rejected "Connection destroyed"]> (promises s)
                | _ => promises s
                end
            | None => promises s
            end) s.
Proof.
  intros Hst. unfold destroy.
  repeat sess_step.
  all: repeat match goal with
              | H : _ || _ = true |- _ => apply orb_true_iff in H as [H|H]
              | H : _ || _ = false |- _ => apply orb_false_iff in H as [? ?]
              | H : bool_decide _ = true |- _ => apply bool_decide_eq_true in H
              | H : bool_decide _ = false |- _ => apply bool_decide_eq_false in H
              end.
  all: try congruence.
  all: simplify_eq.
  all: rewrite ?errors_of_snoc, ?warnings_of_snoc, ?states_of_snoc, ?app_nil_r; cbn [app].
  all: rewrite <- ?app_assoc; cbn [app].
  all: repeat match goal with
              | H : ?x = _ |- context [?x] => rewrite H
              end.
  all: try (repeat split; auto; fail).
  all: exfalso; match goal with H : ~ _ <> _ |- _ => apply H; discriminate end.
Qed.

Lemma destroy_destroyed (adapterAvailable : bool) (s : Session) :
  status s = Destroyed -> destroy adapterAvailable s = (Returned tt, s).
Proof.
  intros H. unfold destroy, bind, get. by rewrite bool_decide_eq_true_2.
Qed.

Lemma resume_idle (s : Session) :
  awaiting s = None -> resume s = (Returned tt, s).
Proof. intros H. unfold resume, bind, get. by rewrite H. Qed.


(** The [catch] and the [finally] of [await_connection]. *)
Lemma resume_rejected (s : Session) (id : nat) (msg : string) :
  awaiting s = Some id -> promise s = Some id ->
  promises s !! id = Some (Rejected msg) ->
  returns resume
    (fun _ s' =>
       status s' = Destroyed
       /\ registered s' = (if bool_decide (status s = Destroyed) then registered s else false)
       /\ promise s' = None /\ awaiting s' = None /\ timeout s' = None
       /\ promises s' = promises s /\ connected s' = connected s /\ clock s' = clock s
       /\ errors_of (trace s')
          = errors_of (trace s) ++ (if connected s then [msg] else [])) s.
Proof.
  intros Ha Hp Hr. unfold resume, returns.
  apply post_bind, post_get. cbn beta. rewrite Ha, Hr.
  apply post_bind, post_modify. apply post_bind.
  apply post_bind.
  match goal with |- post _ ?Q _ _ => set (K := Q) end.
  assert (Hd : forall s0 : Session,
            status s0 = status s -> registered s0 = registered s ->
            promise s0 = Some id -> promises s0 = promises s ->
            connected s0 = connected s -> clock s0 = clock s ->
            awaiting s0 = None ->
            errors_of (trace s0)
            = errors_of (trace s) ++ (if connected s then [msg] else []) ->
            K tt s0).
  { intros s0 Hst Hreg Hpr Hps Hco Hcl Haw Her. subst K. cbn beta.
    destruct (decide (status s = Destroyed)) as [Hd|Hd].
    - unfold post at 1. rewrite destroy_destroyed by congruence.
      apply post_bind, post_modify. apply post_modify. ssim.
      rewrite bool_decide_eq_true_2 by exact Hd. repeat split; auto; congruence.
    - eapply post_mono; [apply (destroy_effect true s0) | | intros ? ? []]; [congruence|].
      intros [] s1 (H1 & H2 & H3 & H4 & H5 & H6 & H7 & H8 & _ & _ & _ & H9). cbn beta.
      apply post_bind, post_modify. apply post_modify. ssim.
      rewrite bool_decide_eq_false_2 by exact Hd.
      rewrite Hpr, Hps, Hr in H9.
      repeat split; auto; congruence. }
  destruct (connected s) eqn:Hc.
  - unfold emit. apply post_modify. apply Hd; ssim; auto.
    by rewrite errors_of_snoc.
  - apply post_ret. apply Hd; ssim; auto. by rewrite app_nil_r.
Qed.

Lemma step_call (c : Call) (s : Session) :
  step (Calls [c]) s = bind (call c) (fun _ => resume) s.
Proof.
  unfold step. simpl. unfold bind, ret. destruct (call c s) as [[[]|e] s1]; reflexivity.
Qed.

(** [destroy] ends a session: whatever promise is in flight is rejected
    with "Connection destroyed", which a session that had been connected
    reports as an ['error'] event; the session is taken out of the
    guild, nothing stays pending, and every further [destroy] does
    nothing. *)
Theorem destroy_is_final (s : Session) (adapterAvailable : bool) :
  session_ok s -> status s <> Destroyed ->
  exists s',
    step (Calls [Destroy adapterAvailable]) s = (Returned tt, s')
    /\ status s' = Destroyed /\ registered s' = false
    /\ promise s' = None /\ timeout s' = None
    /\ Forall (fun p => p <> Pending) (promises s')
    /\ (forall id, promise s = Some id ->
          promises s' !! id = Some (Rejected "Connection destroyed"))
    /\ errors_of (trace s')
       = errors_of (trace s)
         ++ (if connected s && bool_decide (promise s <> None)
             then ["Connection destroyed"%string] else [])
    /\ (forall b, step (Calls [Destroy b]) s' = (Returned tt, s')).
Proof.
  intros (H1 & H2 & H3 & H4) Hst.
  pose proof (destroy_effect adapterAvailable s Hst) as Hd. apply returns_eq in Hd.
  destruct Hd as ([] & s1 & Hrun & Hs1 & Hreg1 & Hp1 & Ha1 & Ht1 & Hc1 & _ & He1 & _ & _ & _ & Hps1).
  assert (Hagain : forall s' : Session, status s' = Destroyed -> awaiting s' = None ->
            forall b, step (Calls [Destroy b]) s' = (Returned tt, s')).
  { intros s' Hs' Ha' b. rewrite step_call. unfold bind, call.
    rewrite destroy_destroyed by exact Hs'. by apply resume_idle. }
  destruct (promise s) as [id|] eqn:Hid.
  - rewrite (H3 id eq_refl) in Hps1.
    assert (Hlt : (id < length (promises s))%nat)
      by (eapply lookup_lt_Some; apply (H3 id eq_refl)).
    assert (Hr1 : promises s1 !! id = Some (Rejected "Connection destroyed")).
    { rewrite Hps1. by apply list_lookup_insert_eq. }
    pose proof (resume_rejected s1 id _ ltac:(congruence) Hp1 Hr1) as Hres.
    apply returns_eq in Hres.
    destruct Hres as ([] & s' & Hrun' & Hs' & Hreg' & Hp' & Ha' & Ht' & Hps' & Hc' & _ & He').
    exists s'. split.
    { rewrite step_call. unfold bind, call. rewrite Hrun. exact Hrun'. }
    split; [exact Hs'|]. split.
    { rewrite Hreg', Hreg1. by destruct (bool_decide _). }
    split; [exact Hp'|]. split; [exact Ht'|]. split; [|split; [|split]].
    + rewrite Hps', Hps1. apply Forall_lookup. intros j p Hj ->.
      destruct (decide (j = id)) as [->|Hne].
      * rewrite list_lookup_insert_eq in Hj by exact Hlt. discriminate.
      * rewrite list_lookup_insert_ne in Hj by congruence.
        apply H4 in Hj. congruence.
    + intros id' [= <-]. by rewrite Hps'.
    + rewrite He', He1, Hc1. rewrite bool_decide_eq_true_2 by discriminate.
      by rewrite andb_true_r.
    + apply Hagain; assumption.
  - assert (Ha : awaiting s1 = None) by congruence.
    exists s1. split.
    { rewrite step_call. unfold bind, call. rewrite Hrun. by apply resume_idle. }
    split; [exact Hs1|]. split; [exact Hreg1|]. split; [exact Hp1|].
    split; [rewrite Ht1; by apply H2|]. split; [|split; [|split]].
    + rewrite Hps1. apply Forall_lookup. intros j p Hj ->.
      apply H4 in Hj. discriminate.
    + discriminate.
    + rewrite He1. rewrite bool_decide_eq_false_2 by (intros H; by apply H).
      by rewrite andb_false_r, app_nil_r.
    + apply Hagain; assumption.
Qed.

Lemma onNetworkingError_pending (s : Session) (id : nat) (msg : string) :
  promise s = Some id -> promises s !! id = Some Pending ->
  onNetworkingError msg s
  = (Returned tt,
     with_event (Settled id (Rejected msg))
       (set_promises (<[id := Rejected msg]> (promises s)) s)).
Proof.
  intros Hp Hpend. unfold onNetworkingError, bind, get. rewrite Hp.
  unfold settle, bind, get. rewrite Hp, Hpend. reflexivity.
Qed.

Lemma onNetworkingError_idle (s : Session) (msg : string) :
  promise s = None ->
  onNetworkingError msg s = destroy true (with_event (Emit_error msg) s).
Proof.
  intros Hp. unfold onNetworkingError, bind at 1, get. rewrite Hp.
  unfold bind at 1, emit, modify. reflexivity.
Qed.

(** An error of the networking layer ends the session as well: it
    rejects the promise in flight, or is reported directly when none
    is; a rejection is reported as ['error'] only by a session that had
    been connected. *)
Theorem networking_error_destroys (s : Session) (msg : string) :
  session_ok s -> status s <> Destroyed ->
  exists s',
    step (Calls [NetworkingError msg]) s = (Returned tt, s')
    /\ status s' = Destroyed /\ registered s' = false
    /\ promise s' = None /\ timeout s' = None
    /\ (forall id, promise s = Some id -> promises s' !! id = Some (Rejected msg))
    /\ errors_of (trace s')
       = errors_of (trace s)
         ++ (if bool_decide (promise s = None) || connected s then [msg] else []).
Proof.
  intros (H1 & H2 & H3 & H4) Hst.
  rewrite step_call. unfold call, bind.
  destruct (promise s) as [id|] eqn:Hid.
  - assert (Hlt : (id < length (promises s))%nat)
      by (eapply lookup_lt_Some; apply (H3 id eq_refl)).
    rewrite (onNetworkingError_pending s id msg Hid (H3 id eq_refl)).
    set (s1 := with_event (Settled id (Rejected msg))
                 (set_promises (<[id := Rejected msg]> (promises s)) s)).
    assert (Hr1 : promises s1 !! id = Some (Rejected msg))
      by (subst s1; ssim; by apply list_lookup_insert_eq).
    pose proof (resume_rejected s1 id msg ltac:(subst s1; ssim; congruence)
                  ltac:(subst s1; ssim; congruence) Hr1) as Hres.
    apply returns_eq in Hres.
    destruct Hres as ([] & s' & Hrun' & Hs' & Hreg' & Hp' & Ha' & Ht' & Hps' & Hc' & _ & He').
    exists s'. split; [exact Hrun'|].
    split; [exact Hs'|]. split.
    { rewrite Hreg'. subst s1. ssim. by rewrite bool_decide_eq_false_2. }
    split; [exact Hp'|]. split; [exact Ht'|]. split.
    + intros id' [= <-]. by rewrite Hps'.
    + rewrite He'. subst s1. ssim. rewrite errors_of_snoc, app_nil_r.
      rewrite bool_decide_eq_false_2 by discriminate. reflexivity.
  - rewrite (onNetworkingError_idle s msg Hid).
    set (s0 := with_event (Emit_error msg) s).
    pose proof (destroy_effect true s0 Hst) as Hd. apply returns_eq in Hd.
    destruct Hd as ([] & s1 & Hrun & Hs1 & Hreg1 & Hp1 & Ha1 & Ht1 & Hc1 & _ & He1 & _).
    exists s1. split.
    { rewrite Hrun. apply resume_idle. subst s0. ssim. congruence. }
    split; [exact Hs1|]. split; [exact Hreg1|].
    split; [subst s0; ssim; congruence|].
    split; [subst s0; ssim; rewrite Ht1; by apply H2|]. split; [discriminate|].
    rewrite He1. subst s0. ssim. rewrite errors_of_snoc.
    by rewrite bool_decide_eq_true_2.
Qed.

(** ** Ready, disconnected, timed out *)

Lemma settle_pending (r : PromiseState) (s : Session) (id : nat) :
  promise s = Some id -> promises s !! id = Some Pending ->
  settle r s
  = (Returned tt, with_event (Settled id r) (set_promises (<[id := r]> (promises s)) s)).
Proof.
  intros Hp Hpend. unfold settle, bind, get. rewrite Hp, Hpend. reflexivity.
Qed.


Lemma timeout_effect (s : Session) (id : nat) (deadline t : Z) :
  in_flight id deadline s -> deadline <= t ->
  exists s',
    turn (AdvanceTo t) s = (Returned tt, s')
    /\ promises s' = <[id := Rejected "Connection timed out"]> (promises s)
    /\ status s' = Destroyed
    /\ registered s' = (if bool_decide (status s = Destroyed) then registered s else false)
    /\ promise s' = None /\ timeout s' = None /\ awaiting s' = None
    /\ connected s' = connected s
    /\ clock s' = Z.max deadline t
    /\ errors_of (trace s')
       = errors_of (trace s) ++ (if connected s then ["Connection timed out"%string] else []).
Proof.
  intros (Hp & Hpend & Haw & Hto & Hlen) Ht.
  assert (Hlt : (id < length (promises s))%nat) by lia.
  set (s0 := set_timeout None (set_clock deadline s)).
  set (s1 := with_event (Settled id (Rejected "Connection timed out"))
               (set_promises (<[id := Rejected "Connection timed out"]> (promises s)) s0)).
  assert (Hfire : on_timeout (set_clock deadline s) = (Returned tt, s1)).
  { unfold on_timeout, bind at 1, modify. fold s0.
    apply (settle_pending _ s0 id); assumption. }
  assert (Hr1 : promises s1 !! id = Some (Rejected "Connection timed out"))
    by (subst s1; ssim; by apply list_lookup_insert_eq).
  pose proof (resume_rejected s1 id _ Haw Hp Hr1) as Hres. apply returns_eq in Hres.
  destruct Hres as ([] & s2 & Hrun2 & Hs2 & Hreg2 & Hp2 & Ha2 & Ht2 & Hps2 & Hc2 & Hcl2 & He2).
  exists (set_clock (Z.max deadline t) s2). split.
  { unfold turn, bind at 1. unfold bind at 1, get. rewrite Hto.
    replace (deadline <=? t) with true by (symmetry; apply Z.leb_le; lia).
    unfold bind at 1, modify at 1. unfold bind at 1. rewrite Hfire.
    unfold bind at 1. rewrite Hrun2. unfold modify.
    apply resume_idle. exact Ha2. }
  ssim. split; [exact Hps2|]. split; [exact Hs2|]. split; [exact Hreg2|].
  split; [exact Hp2|]. split; [exact Ht2|]. split; [exact Ha2|].
  split; [exact Hc2|]. split; [reflexivity|].
  rewrite He2. subst s1 s0. ssim. by rewrite errors_of_snoc, app_nil_r.
Qed.

(** The timeout ends the session: the promise is rejected, the session
    destroyed and taken out of the guild; the ['error'] event is emitted
    only if the session had been connected before, not when the first
    connection times out. *)
Theorem timeout_destroys (s : Session) (id : nat) (deadline t : Z) :
  in_flight id deadline s -> deadline <= t -> status s <> Destroyed ->
  exists s',
    turn (AdvanceTo t) s = (Returned tt, s')
    /\ promises s' !! id = Some (Rejected "Connection timed out")
    /\ status s' = Destroyed /\ registered s' = false
    /\ promise s' = None /\ timeout s' = None
    /\ errors_of (trace s')
       = errors_of (trace s) ++ (if connected s then ["Connection timed out"%string] else [])
    /\ (forall t', turn (AdvanceTo t') s' = (Returned tt, set_clock (Z.max (clock s') t') s')).
Proof.
  intros Hin Ht Hst.
  destruct (timeout_effect s id deadline t Hin Ht)
    as (s' & Hrun & Hps & Hs' & Hreg & Hp' & Ht' & Ha' & _ & _ & He).
  destruct Hin as (_ & _ & _ & _ & Hlen).
  exists s'. split; [exact Hrun|]. split.
  { rewrite Hps. apply list_lookup_insert_eq. lia. }
  split; [exact Hs'|]. split.
  { rewrite Hreg. by rewrite bool_decide_eq_false_2. }
  split; [exact Hp'|]. split; [exact Ht'|]. split; [exact He|].
  intros t'. unfold turn, bind, get, modify. rewrite Ht'.
  apply resume_idle. exact Ha'.
Qed.

(** A disconnect for another reason than a closed web socket, with no
    promise in flight: [destroy] runs - announcing [Destroyed], then,
    unless the adapter is unavailable, [Disconnected] from within
    [super.disconnect()] and [Destroyed] again -, but the assignment
    that triggered it completes afterwards, so that the session, taken
    out of the guild, ends in the state [Disconnected]; a later
    [destroy] runs again and logs the mismatch. *)
Theorem disconnect_ends_disconnected (s : Session) (reason : DisconnectReason)
        (net : bool) :
  session_ok s -> promise s = None ->
  status s <> Disconnected -> status s <> Destroyed ->
  reason <> WebSocketClose ->
  exists s' s'',
    turn (SetState Disconnected reason net) s = (Returned tt, s')
    /\ status s' = Disconnected /\ registered s' = false
    /\ promise s' = None /\ promises s' = promises s
    /\ states_of (trace s')
       = states_of (trace s)
         ++ (if bool_decide (reason = AdapterUnavailable)
             then [Destroyed] else [Destroyed; Disconnected; Destroyed])
         ++ [Disconnected]
    /\ turn CallDestroy s' = (Returned tt, s'')
    /\ status s'' = Destroyed
    /\ warnings_of (trace s'')
       = warnings_of (trace s') ++ ["Voice connection mismatch"%string].
Proof.
  intros (H1 & H2 & H3 & H4) Hp Hnd Hst Hr.
  set (b := negb (bool_decide (reason = AdapterUnavailable))).
  pose proof (destroy_effect b s Hst) as Hd. apply returns_eq in Hd.
  destruct Hd as ([] & s1 & Hrun & Hs1 & Hreg1 & Hp1 & Ha1 & Ht1 & Hc1 & Hcl1 & He1 & Hw1
                  & Hst1 & Hnet1 & Hps1).
  rewrite Hp in Hps1.
  set (s' := with_event (StateChange (status s1) Disconnected)
               (set_networking net (set_status Disconnected s1))).
  assert (Hturn : turn (SetState Disconnected reason net) s = (Returned tt, s')).
  { unfold turn, set_state, bind at 1. unfold bind at 1, get.
    rewrite bool_decide_eq_true_2 by congruence. rewrite Hp.
    rewrite bool_decide_eq_true_2 by reflexivity.
    rewrite bool_decide_eq_false_2 by exact Hr. fold b.
    unfold bind at 1. rewrite Hrun.
    unfold super_set_state, bind, get, modify, emit. fold s'.
    apply resume_idle. subst s'. ssim. congruence. }
  assert (Hst' : status s' <> Destroyed) by (subst s'; ssim; discriminate).
  pose proof (destroy_effect true s' Hst') as Hd'. apply returns_eq in Hd'.
  destruct Hd' as ([] & s'' & Hrun' & Hs'' & _ & Hp'' & Ha'' & _ & _ & _ & _ & Hw'' & _).
  exists s', s''. split; [exact Hturn|].
  split; [reflexivity|]. split; [exact Hreg1|].
  split; [subst s'; ssim; congruence|]. split; [exact Hps1|]. split; [|split; [|split]].
  - subst s'. ssim. rewrite states_of_snoc, Hst1. subst b.
    destruct (bool_decide (reason = AdapterUnavailable)); simpl; by rewrite <- app_assoc.
  - unfold turn, bind. rewrite Hrun'. apply resume_idle.
    rewrite Ha''. subst s'. ssim. congruence.
  - exact Hs''.
  - rewrite Hw''. subst s'. ssim. by rewrite Hreg1.
Qed.

(** A closed web socket, with no promise in flight, does not end the
    session, which stays in the guild.  [await_connection] is called
    before the new state is stored: coming from a state other than
    [Ready] it starts a wait of 15000 ms; coming from [Ready] it returns
    at once, and the session is left [Disconnected] with no promise and
    no timer. *)
Theorem websocket_close_waits (s : Session) (net : bool) :
  session_ok s -> promise s = None ->
  status s <> Disconnected -> status s <> Destroyed ->
  exists s',
    turn (SetState Disconnected WebSocketClose net) s = (Returned tt, s')
    /\ status s' = Disconnected /\ registered s' = registered s
    /\ connected s' = connected s
    /\ errors_of (trace s') = errors_of (trace s)
    /\ (status s = Ready ->
        promise s' = None /\ timeout s' = None /\ promises s' = promises s)
    /\ (status s <> Ready ->
        in_flight (length (promises s)) (clock s + 15000) s'
        /\ promises s' = promises s ++ [Pending]).
Proof.
  intros (H1 & H2 & H3 & H4) Hp Hnd Hst.
  assert (Hlook : (promises s ++ [Pending]) !! length (promises s) = Some Pending).
  { rewrite lookup_app_r by lia. by rewrite Nat.sub_diag. }
  assert (Hto : timeout s = None) by (by apply H2).
  assert (Haw : awaiting s = None) by congruence.
  destruct (decide (status s = Ready)) as [Hr|Hr].
  - exists (with_event (StateChange (status s) Disconnected)
              (set_networking net (set_status Disconnected s))).
    split.
    + unfold turn, set_state, bind at 1. unfold bind at 1, get.
      rewrite bool_decide_eq_true_2 by congruence. rewrite Hp.
      rewrite bool_decide_eq_true_2 by reflexivity.
      rewrite bool_decide_eq_true_2 by reflexivity.
      unfold await_connection, bind at 1. unfold bind at 1, get.
      rewrite bool_decide_eq_true_2 by exact Hr. cbn [orb]. unfold ret.
      unfold super_set_state, bind, get, modify, emit.
      apply resume_idle. ssim. exact Haw.
    + ssim. rewrite errors_of_snoc, app_nil_r.
      split; [reflexivity|]. split; [reflexivity|]. split; [reflexivity|].
      split; [reflexivity|]. split; [auto | contradiction].
  - eexists. split.
    + unfold turn, set_state, bind at 1. unfold bind at 1, get.
      rewrite bool_decide_eq_true_2 by congruence. rewrite Hp.
      rewrite bool_decide_eq_true_2 by reflexivity.
      rewrite bool_decide_eq_true_2 by reflexivity.
      unfold await_connection, bind at 1. unfold bind at 1, get.
      rewrite bool_decide_eq_false_2 by exact Hr. rewrite Hp.
      rewrite (bool_decide_eq_false_2 (None <> None)) by (intros H; by apply H).
      cbn [orb]. unfold bind, modify.
      unfold super_set_state, bind, get, modify, emit.
      apply (resume_pending (length (promises s))); ssim; [reflexivity | exact Hlook].
    + ssim. rewrite errors_of_snoc, app_nil_r.
      split; [reflexivity|]. split; [reflexivity|]. split; [reflexivity|].
      split; [reflexivity|]. split; [contradiction|]. intros _.
      split; [|reflexivity]. unfold in_flight. ssim.
      rewrite length_app. simpl. repeat split; auto. lia.
Qed.

(** ** The session on examples *)


Lemma waiting_session_ok : session_ok waiting_session.
Proof.
  unfold session_ok. simpl. repeat split; auto; try discriminate.
  all: try (intros id [= <-]; reflexivity).
  all: intros j Hj; destruct j as [|j]; [reflexivity|]; simpl in Hj; discriminate.
Qed.

Lemma connected_session_ok : session_ok connected_session.
Proof.
  unfold session_ok. simpl. repeat split; auto; try discriminate.
  all: intros j Hj; destruct j as [|j]; simpl in Hj; discriminate.
Qed.

Lemma waiting_session_in_flight : in_flight 0 15000 waiting_session.
Proof. unfold in_flight. simpl. auto. Qed.



(** The two outcomes on the example session: a run that goes through
    [Connecting] returns, one that is made [Ready] straight from
    [Signalling] ends in the throw, with its promise resolved. *)
Example session_steps_example :
  fst (steps [Calls [AwaitConnection; AssignState Connecting Manual true];
              Calls [AssignState Ready Manual true]] example_session) = Returned tt
  /\ (let r := steps [Calls [AwaitConnection];
                      Calls [AssignState Ready Manual true]] example_session in
      fst r = Thrown networking_error
      /\ promises (snd r) = [Resolved] /\ status (snd r) = Signalling).
Proof. vm_compute. auto. Qed.

Lemma destroy_is_final_witness :
  exists s',
    step (Calls [Destroy true]) waiting_session = (Returned tt, s')
    /\ status s' = Destroyed /\ registered s' = false
    /\ promise s' = None /\ timeout s' = None
    /\ Forall (fun p => p <> Pending) (promises s')
    /\ (forall id, promise waiting_session = Some id ->
          promises s' !! id = Some (Rejected "Connection destroyed"))
    /\ errors_of (trace s')
       = errors_of (trace waiting_session)
         ++ (if connected waiting_session && bool_decide (promise waiting_session <> None)
             then ["Connection destroyed"%string] else [])
    /\ (forall b, step (Calls [Destroy b]) s' = (Returned tt, s')).
Proof.
  apply (destroy_is_final waiting_session true).
  - exact waiting_session_ok.
  - discriminate.
Defined.

Lemma networking_error_destroys_witness :
  exists s',
    step (Calls [NetworkingError "reset"%string]) connected_session = (Returned tt, s')
    /\ status s' = Destroyed /\ registered s' = false
    /\ promise s' = None /\ timeout s' = None
    /\ (forall id, promise connected_session = Some id ->
          promises s' !! id = Some (Rejected "reset"))
    /\ errors_of (trace s')
       = errors_of (trace connected_session)
         ++ (if bool_decide (promise connected_session = None) || connected connected_session
             then ["reset"%string] else []).
Proof.
  apply (networking_error_destroys connected_session "reset").
  - exact connected_session_ok.
  - discriminate.
Defined.


(** The throw on the session that waits in [Signalling], whose state
    has no networking. *)
Example ready_without_networking_example :
  let r := turn (SetState Ready Manual true) waiting_session in
  fst r = Thrown networking_error
  /\ promises (snd r) = [Resolved] /\ status (snd r) = Signalling
  /\ trace (snd r) = [(0, Settled 0 Resolved)].
Proof. vm_compute. auto. Qed.

Lemma timeout_destroys_witness :
  exists s',
    turn (AdvanceTo 15000) waiting_session = (Returned tt, s')
    /\ promises s' !! 0%nat = Some (Rejected "Connection timed out")
    /\ status s' = Destroyed /\ registered s' = false
    /\ promise s' = None /\ timeout s' = None
    /\ errors_of (trace s')
       = errors_of (trace waiting_session)
         ++ (if connected waiting_session then ["Connection timed out"%string] else [])
    /\ (forall t', turn (AdvanceTo t') s' = (Returned tt, set_clock (Z.max (clock s') t') s')).
Proof.
  apply (timeout_destroys waiting_session 0 15000 15000).
  - exact waiting_session_in_flight.
  - lia.
  - discriminate.
Defined.

Lemma disconnect_ends_disconnected_witness :
  exists s' s'',
    turn (SetState Disconnected EndpointRemoved false) connected_session = (Returned tt, s')
    /\ status s' = Disconnected /\ registered s' = false
    /\ promise s' = None /\ promises s' = promises connected_session
    /\ states_of (trace s')
       = states_of (trace connected_session)
         ++ (if bool_decide (EndpointRemoved = AdapterUnavailable)
             then [Destroyed] else [Destroyed; Disconnected; Destroyed])
         ++ [Disconnected]
    /\ turn CallDestroy s' = (Returned tt, s'')
    /\ status s'' = Destroyed
    /\ warnings_of (trace s'')
       = warnings_of (trace s') ++ ["Voice connection mismatch"%string].
Proof.
  apply (disconnect_ends_disconnected connected_session EndpointRemoved false).
  - exact connected_session_ok.
  - reflexivity.
  - discriminate.
  - discriminate.
  - discriminate.
Defined.

Lemma websocket_close_waits_witness :
  exists s',
    turn (SetState Disconnected WebSocketClose false) connected_session = (Returned tt, s')
    /\ status s' = Disconnected /\ registered s' = registered connected_session
    /\ connected s' = connected connected_session
    /\ errors_of (trace s') = errors_of (trace connected_session)
    /\ (status connected_session = Ready ->
        promise s' = None /\ timeout s' = None /\ promises s' = promises connected_session)
    /\ (status connected_session <> Ready ->
        in_flight (length (promises connected_session)) (clock connected_session + 15000) s'
        /\ promises s' = promises connected_session ++ [Pending]).
Proof.
  apply (websocket_close_waits connected_session false).
  - exact connected_session_ok.
  - reflexivity.
  - discriminate.
  - discriminate.
Defined.

(** A session that was connected, lost its web socket while
    reconnecting and does not come back: the wait ends with an ['error']
    event, which the first connection attempt does not emit. *)
Example reconnect_timeout_example :
  let s := snd (run [SetState Connecting Manual true;
                     SetState Disconnected WebSocketClose false;
                     AdvanceTo 80000] connected_session) in
  status s = Destroyed
  /\ promises s = [Resolved; Rejected "Connection timed out"]
  /\ errors_of (trace s) = ["Connection timed out"%string].
Proof. vm_compute. auto. Qed.
(** ** The wait for the connection *)

(** A session that is disconnected or destroyed while its promise is in
    flight: the promise is rejected in that turn, the body of
    [await_connection] destroys the session and cleans up, and the
    timer is gone. *)
Lemma turn_leaving (id : nat) (deadline : Z) (e : Turn) (msg : string) (s : Session) :
  in_flight id deadline s -> leaving_turn (status s) e msg ->
  exists s',
    turn e s = (Returned tt, s')
    /\ promises s' = <[id := Rejected msg]> (promises s)
    /\ clock s' = clock s /\ status s' = Destroyed
    /\ promise s' = None /\ timeout s' = None /\ awaiting s' = None.
Proof.
  intros (Hp & Hpend & Haw & Hto & Hlen) He.
  assert (Hlt : (id < length (promises s))%nat) by lia.
  assert (Hsetter : forall st reason net,
            st <> status s ->
            handle_state_change st reason = settle (Rejected msg) ->
            exists s1,
              set_state st reason net s = (Returned tt, s1)
              /\ promises s1 = <[id := Rejected msg]> (promises s)
              /\ awaiting s1 = Some id /\ promise s1 = Some id /\ clock s1 = clock s).
  { intros st reason net Hne Hh. eexists. split.
    - unfold set_state, bind at 1, get.
      rewrite bool_decide_eq_true_2 by exact Hne. rewrite Hp, Hh.
      unfold bind at 1. rewrite (settle_pending _ s id Hp Hpend).
      unfold super_set_state, bind, get, modify, emit. reflexivity.
    - ssim. auto. }
  assert (Hfinish : forall s1,
            promises s1 = <[id := Rejected msg]> (promises s) ->
            awaiting s1 = Some id -> promise s1 = Some id -> clock s1 = clock s ->
            exists s',
              resume s1 = (Returned tt, s')
              /\ promises s' = <[id := Rejected msg]> (promises s)
              /\ clock s' = clock s /\ status s' = Destroyed
              /\ promise s' = None /\ timeout s' = None /\ awaiting s' = None).
  { intros s1 Hps1 Haw1 Hp1 Hcl1.
    assert (Hr1 : promises s1 !! id = Some (Rejected msg)).
    { rewrite Hps1. by apply list_lookup_insert_eq. }
    pose proof (resume_rejected s1 id msg Haw1 Hp1 Hr1) as Hres. apply returns_eq in Hres.
    destruct Hres as ([] & s' & Hrun' & Hs' & _ & Hp' & Ha' & Ht' & Hps' & _ & Hcl' & _).
    exists s'. split; [exact Hrun'|]. repeat split; congruence. }
  destruct e as [| st reason net | | t]; simpl in He; try contradiction.
  - destruct st; try contradiction; destruct He as [Hne ->].
    + destruct (Hsetter Disconnected reason net ltac:(congruence) eq_refl)
        as (s1 & Hrun1 & Hps1 & Haw1 & Hp1 & Hcl1).
      destruct (Hfinish s1 Hps1 Haw1 Hp1 Hcl1) as (s' & Hrun' & H').
      exists s'. split; [|exact H'].
      unfold turn, bind. rewrite Hrun1. exact Hrun'.
    + destruct (Hsetter Destroyed reason net ltac:(congruence) eq_refl)
        as (s1 & Hrun1 & Hps1 & Haw1 & Hp1 & Hcl1).
      destruct (Hfinish s1 Hps1 Haw1 Hp1 Hcl1) as (s' & Hrun' & H').
      exists s'. split; [|exact H'].
      unfold turn, bind. rewrite Hrun1. exact Hrun'.
  - destruct He as [Hne ->].
    pose proof (destroy_effect true s Hne) as Hd. apply returns_eq in Hd.
    destruct Hd as ([] & s1 & Hrun1 & _ & _ & Hp1 & Ha1 & _ & _ & Hcl1 & _ & _ & _ & _ & Hps1).
    rewrite Hp, Hpend in Hps1.
    destruct (Hfinish s1 Hps1 ltac:(congruence) ltac:(congruence) Hcl1)
      as (s' & Hrun' & H').
    exists s'. split; [|exact H'].
    unfold turn, bind. rewrite Hrun1. exact Hrun'.
Qed.

(** C9, amended. A session that is not ready and has no future in
    flight: the call of [await_connection] creates the future and sets
    the timer to 15000 ms.  While the session stays on its way (callers
    come, the state changes between signalling and connecting, time
    passes short of the deadline) the future stays pending and stays the
    only one: a later caller gets no future of its own, [connect] waits
    on the one in flight.  When the clock reaches the deadline the
    future is rejected with "Connection timed out", at the deadline.
    Not every session that never becomes ready waits that long: one
    that is disconnected - for whatever reason, a closed web socket
    included - or destroyed while it waits has its future rejected in
    that very turn, ahead of the deadline, with the reason of the
    disconnect or "Connection destroyed"; it is destroyed, and the
    timeout never fires. *)
Theorem await_connection_times_out (s : Session) (es : list Turn) (t : Z) :
  status s <> Ready -> promise s = None ->
  Forall (waiting_turn (clock s + 15000)) es ->
  clock s + 15000 <= t ->
  exists s1 s2 s3,
    turn CallAwaitConnection s = (Returned tt, s1)
    /\ promise s1 = Some (length (promises s))
    /\ promises s1 !! length (promises s) = Some Pending
    /\ timeout s1 = Some (clock s + 15000)
    /\ run es s1 = (Returned tt, s2)
    /\ promise s2 = Some (length (promises s))
    /\ promises s2 = promises s1
    /\ connect_wait s2 = (Returned (Some (length (promises s))), s2)
    /\ turn (AdvanceTo t) s2 = (Returned tt, s3)
    /\ promises s3 !! length (promises s) = Some (Rejected "Connection timed out")
    /\ In (clock s + 15000,
           Settled (length (promises s)) (Rejected "Connection timed out")) (trace s3)
    /\ promise s3 = None /\ timeout s3 = None
    /\ (forall e msg,
          leaving_turn (status s2) e msg ->
          exists s4,
            turn e s2 = (Returned tt, s4)
            /\ promises s4 !! length (promises s) = Some (Rejected msg)
            /\ clock s4 = clock s2 /\ clock s4 < clock s + 15000
            /\ status s4 = Destroyed
            /\ promise s4 = None /\ timeout s4 = None
            /\ forall t', turn (AdvanceTo t') s4
                          = (Returned tt, set_clock (Z.max (clock s4) t') s4)).
Proof.
  intros Hst Hp Hes Ht.
  destruct (await_connection_starts s Hst Hp) as (s1 & Hrun1 & Hin1 & Hcl1 & _).
  destruct (run_waiting _ _ es s1 Hin1 Hes) as (s2 & Hrun2 & Hin2 & Hps2 & Hcl2).
  pose proof (timeout_fires _ _ t s2 Hin2 Ht) as Hfire.
  apply returns_eq in Hfire.
  destruct Hfire as ([] & s3 & Hrun3 & Hrej & Hp3 & Hto3 & _ & Hin3).
  exists s1, s2, s3.
  assert (Hearly : forall e msg,
            leaving_turn (status s2) e msg ->
            exists s4,
              turn e s2 = (Returned tt, s4)
              /\ promises s4 !! length (promises s) = Some (Rejected msg)
              /\ clock s4 = clock s2 /\ clock s4 < clock s + 15000
              /\ status s4 = Destroyed
              /\ promise s4 = None /\ timeout s4 = None
              /\ forall t', turn (AdvanceTo t') s4
                            = (Returned tt, set_clock (Z.max (clock s4) t') s4)).
  { intros e msg He.
    destruct (turn_leaving _ _ e msg s2 Hin2 He)
      as (s4 & Hrun4 & Hps4 & Hcl4 & Hs4 & Hp4 & Hto4 & Ha4).
    exists s4. split; [exact Hrun4|]. split.
    { rewrite Hps4. apply list_lookup_insert_eq.
      destruct Hin2 as (_ & Hpend2 & _). by eapply lookup_lt_Some. }
    split; [exact Hcl4|]. split; [rewrite Hcl4; apply Hcl2; lia|].
    split; [exact Hs4|]. split; [exact Hp4|]. split; [exact Hto4|].
    intros t'. unfold turn, bind, get, modify. rewrite Hto4.
    apply resume_idle. exact Ha4. }
  destruct Hin1 as (Hp1 & Hpend1 & _ & Hto1 & _).
  destruct Hin2 as (Hp2 & _).
  repeat split; auto.
  unfold connect_wait, await_connection, bind, get, gets. rewrite Hp2.
  rewrite (bool_decide_eq_true_2 (Some _ <> None)) by discriminate.
  rewrite orb_true_r. unfold ret. by rewrite Hp2.
Qed.

Lemma await_connection_times_out_witness :
  exists s1 s2 s3,
    turn CallAwaitConnection example_session = (Returned tt, s1)
    /\ promise s1 = Some 0%nat
    /\ promises s1 !! 0%nat = Some Pending
    /\ timeout s1 = Some 15000
    /\ run [CallAwaitConnection; AdvanceTo 5000; SetState Connecting Manual true;
            CallAwaitConnection; AdvanceTo 14999] s1 = (Returned tt, s2)
    /\ promise s2 = Some 0%nat
    /\ promises s2 = promises s1
    /\ connect_wait s2 = (Returned (Some 0%nat), s2)
    /\ turn (AdvanceTo 15000) s2 = (Returned tt, s3)
    /\ promises s3 !! 0%nat = Some (Rejected "Connection timed out")
    /\ In (15000, Settled 0 (Rejected "Connection timed out")) (trace s3)
    /\ promise s3 = None /\ timeout s3 = None
    /\ (forall e msg,
          leaving_turn (status s2) e msg ->
          exists s4,
            turn e s2 = (Returned tt, s4)
            /\ promises s4 !! 0%nat = Some (Rejected msg)
            /\ clock s4 = clock s2 /\ clock s4 < 15000
            /\ status s4 = Destroyed
            /\ promise s4 = None /\ timeout s4 = None
            /\ forall t', turn (AdvanceTo t') s4
                          = (Returned tt, set_clock (Z.max (clock s4) t') s4)).
Proof.
  apply (await_connection_times_out example_session
           [CallAwaitConnection; AdvanceTo 5000; SetState Connecting Manual true;
            CallAwaitConnection; AdvanceTo 14999] 15000).
  - discriminate.
  - reflexivity.
  - repeat constructor; simpl; lia.
  - simpl. lia.
Defined.

(** C9 as stated fails: the example session never becomes ready, and
    yet its future does not reject after the 15000 ms of the timeout
    with the error of the timeout.  Its web socket is closed at 700 ms;
    the future is rejected then, with "WebSocket closed", and the
    session is destroyed; at 15000 ms and after nothing happens. *)
Lemma await_connection_rejected_before_timeout :
  let s := snd (run [CallAwaitConnection; AdvanceTo 700;
                     SetState Disconnected WebSocketClose false;
                     AdvanceTo 15000; AdvanceTo 60000] example_session) in
  ~ In Ready (states_of (trace s))
  /\ promises s = [Rejected "WebSocket closed"]
  /\ promises s <> [Rejected "Connection timed out"]
  /\ In (700, Settled 0 (Rejected "WebSocket closed")) (trace s)
  /\ ~ In (15000, Settled 0 (Rejected "Connection timed out")) (trace s)
  /\ status s = Destroyed.
Proof.
  vm_compute. split; [|split; [reflexivity|]].
  - intros [H|[H|[H|[H|[]]]]]; discriminate.
  - split; [discriminate|]. split; [auto 10|]. split; [|reflexivity].
    intros H. repeat (destruct H as [H|H]; [discriminate|]). destruct H.
Qed.

(** The other ways out of the wait, on the example session: the future
    is resolved when the session, connecting, becomes ready, and
    rejected ahead of the deadline when the session is destroyed. *)
Example await_connection_resolves_on_ready :
  promises (snd (run [CallAwaitConnection; AdvanceTo 700;
                      SetState Connecting Manual true; SetState Ready Manual true]
                   example_session))
  = [Resolved].
Proof. vm_compute. reflexivity. Qed.

Example await_connection_rejects_on_destroy :
  let s := snd (run [CallAwaitConnection; AdvanceTo 700; CallDestroy] example_session) in
  promises s = [Rejected "Connection destroyed"] /\ status s = Destroyed /\ clock s = 700.
Proof. vm_compute. auto. Qed.
End SessionProps.

(* ===================================================================== *)
(** * Properties of the error classes                                     *)
(* ===================================================================== *)

Section ErrorProps.
Import Errors.

Lemma new_error_of_error (c : Class) (e : GenericError) :
  message (new_error c (as_arg e)) = message e
  /\ simpleMessage (new_error c (as_arg e))
     = Some (default (class_default c) (simpleMessage e)).
Proof.
  unfold new_error, construct, as_arg, parseErrorArg, coalesce. simpl.
  split; [reflexivity|]. by destruct (simpleMessage e).
Qed.

(** Wrapping keeps what the user is told: an error made from another
    error has the message of that error, and its user-friendly message
    too if that error has one; otherwise it gets the text of its own
    class.  Through any number of wrappings the innermost user-friendly
    text and the message survive. *)
Theorem wrap_keeps_message (cs : list Class) (e : GenericError) (simple : string) :
  simpleMessage e = Some simple ->
  message (wrap cs e) = message e
  /\ simpleMessage (wrap cs e) = Some simple
  /\ userFriendlyMessage (wrap cs e) = userFriendlyMessage e.
Proof.
  revert e. induction cs as [|c cs IH]; intros e He.
  - unfold userFriendlyMessage. simpl. auto.
  - destruct (new_error_of_error c e) as [Hm Hs].
    assert (Hs' : simpleMessage (new_error c (as_arg e)) = Some simple)
      by (rewrite Hs, He; reflexivity).
    clear Hs. rename Hs' into Hs.
    destruct (IH (new_error c (as_arg e)) Hs) as (IH1 & IH2 & IH3).
    change (wrap (c :: cs) e) with (wrap cs (new_error c (as_arg e))).
    rewrite IH1, IH2, IH3, Hm. unfold userFriendlyMessage. by rewrite Hs, He.
Qed.

Lemma wrap_keeps_message_witness :
  message (wrap [InternalError; NetworkError]
                (new_error UnplayableError (Primitive "No suitable stream found")))
  = "No suitable stream found"%string
  /\ simpleMessage (wrap [InternalError; NetworkError]
                         (new_error UnplayableError (Primitive "No suitable stream found")))
     = Some "Track is unplayable"%string
  /\ userFriendlyMessage (wrap [InternalError; NetworkError]
                               (new_error UnplayableError (Primitive "No suitable stream found")))
     = "Track is unplayable"%string.
Proof.
  apply (wrap_keeps_message [InternalError; NetworkError]
           (new_error UnplayableError (Primitive "No suitable stream found"))
           "Track is unplayable").
  reflexivity.
Defined.

(** What a subclass makes of its argument: the user-friendly message is
    the text of the class unless the argument brings one - an [Error]
    with a [simpleMessage], or an object with a non-empty
    [simpleMessage] of its own or on its [error]; the message is the
    text of a primitive, the message of an [Error] (also behind
    [error]), and never undefined: an undefined argument gives the empty
    message, [null] and an empty object give the text of the class. *)
Theorem new_error_messages (c : Class) :
  (forall text,
     message (new_error c (Primitive text)) = text
     /\ userFriendlyMessage (new_error c (Primitive text)) = class_default c)
  /\ (message (new_error c Undefined) = ""%string
      /\ userFriendlyMessage (new_error c Undefined) = class_default c)
  /\ (message (new_error c Null) = class_default c
      /\ userFriendlyMessage (new_error c Null) = class_default c)
  /\ (message (new_error c (Info None NoError)) = class_default c)
  /\ (forall m sm,
        message (new_error c (AnError m sm)) = m
        /\ userFriendlyMessage (new_error c (AnError m sm)) = default (class_default c) sm)
  /\ (forall simple m sm,
        simple <> ""%string ->
        message (new_error c (Info (Some simple) (ErrorInstance m sm))) = m
        /\ userFriendlyMessage (new_error c (Info (Some simple) (ErrorInstance m sm)))
           = simple)
  /\ (forall m simple,
        simple <> ""%string ->
        userFriendlyMessage (new_error c (Info None (ErrorInstance m (Some simple))))
        = simple)
  /\ (forall arg, userFriendlyMessage (new_error c arg) <> ""%string
                  \/ exists m, arg = AnError m (Some ""%string)).
Proof.
  assert (Hd : class_default c <> ""%string) by (destruct c; discriminate).
  unfold new_error, construct, userFriendlyMessage. simpl.
  split; [auto|]. split; [auto|]. split; [auto|]. split; [reflexivity|].
  split; [intros m sm; split; [reflexivity | by destruct sm]|].
  split.
  { intros simple m sm Hs. unfold falsy.
    rewrite bool_decide_eq_false_2 by exact Hs. simpl.
    rewrite bool_decide_eq_false_2 by exact Hs. auto. }
  split.
  { intros m simple Hs. unfold falsy. simpl.
    rewrite bool_decide_eq_false_2 by exact Hs. reflexivity. }
  intros arg. destruct arg as [| | text | m [sm|] | sm err]; simpl; auto.
  - destruct (decide (sm = ""%string)) as [->|Hne]; [right; eauto | by left].
  - left. unfold falsy.
    destruct err as [| m [esm|] | text]; destruct sm as [sm|]; simpl;
      repeat case_bool_decide; simpl; repeat case_bool_decide; simpl; auto.
Qed.

End ErrorProps.
